(** * Skull King rules engine: cards, tricks, legal moves, scoring

    A shallow embedding of [cards.py], [player.py] and [game_engine.py],
    followed by the properties of the rules engine.

    Conventions of the embedding.
    - Python [int] is [Z]; [Optional[T]] is [option T]; lists are lists.
    - A [dict] keyed by [Player] is a [gmap string _] keyed by the
      player's name, because [Player.__eq__] and [Player.__hash__] look
      at [name] only.
    - A method that mutates [self] is a function in the monad [M]: it
      takes the game object and returns the outcome (a value or the
      exception raised) together with the game object as the call left
      it.  A raised exception does not roll back earlier mutations. *)

From stdpp Require Import base decidable option list gmap strings fin_maps.
From Stdlib Require Import ZArith Lia Permutation.

Local Open Scope string_scope.
Local Open Scope list_scope.
Local Open Scope Z_scope.

(** ** cards.py *)

Inductive Suit := RED | YELLOW | BLUE | GREEN | SPECIAL.

Inductive CardType :=
  NUMBER | ESCAPE | PIRATE | MERMAID | SKULL_KING | TIGRESS | JOLLY_ROGER.

#[global] Instance Suit_eq_dec : EqDecision Suit.
Proof. solve_decision. Defined.

#[global] Instance CardType_eq_dec : EqDecision CardType.
Proof. solve_decision. Defined.

(** The three attributes of a [Card] object. *)
Record Card := mkCard {
  card_type : CardType;
  suit : option Suit;
  value : option Z
}.

#[global] Instance Card_eq_dec : EqDecision Card.
Proof. solve_decision. Defined.

(** [Card.__eq__]: type, suit and value all match. *)
Definition Card_eq (a b : Card) : bool :=
  bool_decide (card_type a = card_type b) &&
  bool_decide (suit a = suit b) &&
  bool_decide (value a = value b).

(** Exceptions raised by the modelled code.  The f-string messages are
    kept as the data they are built from. *)
Inductive exn :=
  | NumberNeedsSuit                 (* ValueError, Card.__init__ *)
  | NumberNeedsValue                (* ValueError, Card.__init__ *)
  | NotEnoughCards (requested : Z) (have : nat)   (* ValueError, Deck.deal *)
  | TooFewPlayers                   (* ValueError, SkullKingGame.__init__ *)
  | TooManyPlayers                  (* ValueError, SkullKingGame.__init__ *)
  | NoActiveRound                   (* RuntimeError *)
  | NoActiveTrick                   (* RuntimeError *)
  | InvalidBid (player : string) (bid : Z)        (* ValueError, collect_bids *)
  | IllegalPlay (card : Card) (legal : list Card) (* ValueError, play_card *)
  | KeyError (key : string)         (* dict lookup of an absent player *)
  | NotInList (card : Card)         (* ValueError, list.remove *)
  | StopIteration.                  (* next() on an exhausted generator *)

Inductive result (A : Type) :=
  | Ok (a : A)
  | Raise (e : exn).
Arguments Ok {A} a.
Arguments Raise {A} e.

(** [Card.__init__]: a NUMBER card is validated, the five suitless types
    are normalised to (SPECIAL, None), a JOLLY_ROGER card keeps whatever
    it was given. *)
Definition Card_init (ct : CardType) (s : option Suit) (v : option Z)
  : result Card :=
  match ct with
  | NUMBER =>
      if bool_decide (s = None) || bool_decide (s = Some SPECIAL)
      then Raise NumberNeedsSuit
      else match v with
           | None => Raise NumberNeedsValue
           | Some n =>
               if (n <? 1) || (13 <? n) then Raise NumberNeedsValue
               else Ok (mkCard NUMBER s v)
           end
  | ESCAPE | PIRATE | MERMAID | SKULL_KING | TIGRESS =>
      Ok (mkCard ct (Some SPECIAL) None)
  | JOLLY_ROGER => Ok (mkCard JOLLY_ROGER s v)
  end.

(** The cards the constructor can return, as a boolean test. *)
Definition card_ok (c : Card) : bool :=
  match card_type c with
  | NUMBER =>
      match suit c, value c with
      | Some s, Some n =>
          negb (bool_decide (s = SPECIAL)) && (1 <=? n) && (n <=? 13)
      | _, _ => false
      end
  | ESCAPE | PIRATE | MERMAID | SKULL_KING | TIGRESS =>
      bool_decide (suit c = Some SPECIAL) && bool_decide (value c = None)
  | JOLLY_ROGER => true
  end.

(** Short names for the cards of the deck. *)
Definition Number (s : Suit) (n : Z) : Card := mkCard NUMBER (Some s) (Some n).
Definition Escape : Card := mkCard ESCAPE (Some SPECIAL) None.
Definition Pirate : Card := mkCard PIRATE (Some SPECIAL) None.
Definition Mermaid : Card := mkCard MERMAID (Some SPECIAL) None.
Definition SkullKing : Card := mkCard SKULL_KING (Some SPECIAL) None.
Definition Tigress : Card := mkCard TIGRESS (Some SPECIAL) None.
Definition JollyRoger (s : option Suit) (v : option Z) : Card :=
  mkCard JOLLY_ROGER s v.

(** The test of [can_follow_suit] and of [__init__]'s [elif]. *)
Definition is_suitless (ct : CardType) : bool :=
  match ct with
  | ESCAPE | PIRATE | MERMAID | SKULL_KING | TIGRESS => true
  | NUMBER | JOLLY_ROGER => false
  end.

(** [Card.can_follow_suit]. *)
Definition can_follow_suit (c : Card) (led_suit : option Suit) : bool :=
  if is_suitless (card_type c) then true
  else bool_decide (suit c = led_suit).

(** The dict [special_hierarchy] of [beats], read with [.get]. *)
Definition special_hierarchy (ct : CardType) : option Z :=
  match ct with
  | SKULL_KING => Some 3
  | MERMAID => Some 4
  | PIRATE => Some 5
  | _ => None
  end.

(** [self.value > other.value].  The comparison is reached for NUMBER
    cards only, whose values the constructor guarantees to be integers;
    on a missing value (where Python raises TypeError) the model answers
    [false]. *)
Definition value_gt (a b : option Z) : bool :=
  match a, b with
  | Some x, Some y => y <? x
  | _, _ => false
  end.

(** The tail of [beats] for two NUMBER cards, after the trump block. *)
Definition beats_by_suit (self other : Card) (led_suit : option Suit) : bool :=
  if bool_decide (suit self = suit other) then value_gt (value self) (value other)
  else if bool_decide (suit self = led_suit) then true
  else if bool_decide (suit other = led_suit) then false
  else false.

(** [Card.beats]. *)
Definition beats (self other : Card) (led_suit trump_suit : option Suit) : bool :=
  if bool_decide (card_type self = ESCAPE) then false
  else if bool_decide (card_type other = ESCAPE) then true
  else
    match special_hierarchy (card_type self),
          special_hierarchy (card_type other) with
    | Some self_special, Some other_special => other_special <? self_special
    | Some _, None => true
    | None, Some _ => false
    | None, None =>
        if bool_decide (card_type self = NUMBER) &&
           bool_decide (card_type other = NUMBER)
        then
          match trump_suit with
          | Some _ =>
              let self_is_trump := bool_decide (suit self = trump_suit) in
              let other_is_trump := bool_decide (suit other = trump_suit) in
              if self_is_trump && negb other_is_trump then true
              else if other_is_trump && negb self_is_trump then false
              else if self_is_trump && other_is_trump
                   then value_gt (value self) (value other)
                   else beats_by_suit self other led_suit
          | None => beats_by_suit self other led_suit
          end
        else false
    end.

(** [Deck._create_deck]: 13 values in each of 4 suits, then 5 Escapes,
    2 Mermaids, 2 Pirates, 1 Skull King, 1 Tigress. *)
Definition create_deck : list Card :=
  flat_map (fun s => map (fun n => Number s (Z.of_nat n)) (seq 1 13))
           [RED; YELLOW; BLUE; GREEN]
  ++ repeat Escape 5
  ++ repeat Mermaid 2
  ++ repeat Pirate 2
  ++ [SkullKing]
  ++ [Tigress].

(** Python slices [l[:n]] and [l[n:]] for any integer [n]: a negative
    [n] counts from the end, and both ends are clamped. *)
Definition slice_index {A} (l : list A) (n : Z) : nat :=
  if n <? 0 then Z.to_nat (Z.max 0 (Z.of_nat (length l) + n))
  else Z.to_nat n.

Definition slice_to {A} (l : list A) (n : Z) : list A :=
  firstn (slice_index l n) l.

Definition slice_from {A} (l : list A) (n : Z) : list A :=
  skipn (slice_index l n) l.

(** [Deck.deal]: the cards dealt and the cards left, or the exception. *)
Definition deal (cards : list Card) (num_cards : Z)
  : result (list Card * list Card) :=
  if Z.of_nat (length cards) <? num_cards
  then Raise (NotEnoughCards num_cards (length cards))
  else Ok (slice_to cards num_cards, slice_from cards num_cards).

(** ** player.py *)

(** A [Player] is its [name] and, for the engine, its abstract method
    [make_bid(hand, round_num, previous_bids)].  The other abstract
    method, [play_card], is called by the drivers, never by the engine. *)
Record Player := mkPlayer {
  name : string;
  make_bid : list Card -> Z -> gmap string Z -> Z
}.

(** [Player.__eq__]: same name. *)
Definition Player_eq (p q : Player) : bool := bool_decide (name p = name q).

(** ** The monad of the mutating methods *)

Definition M (S A : Type) : Type := S -> result A * S.

Definition ret {S A} (a : A) : M S A := fun s => (Ok a, s).

Definition raise {S A} (e : exn) : M S A := fun s => (Raise e, s).

Definition bind {S A B} (c : M S A) (k : A -> M S B) : M S B :=
  fun s =>
    match c s with
    | (Ok a, s') => k a s'
    | (Raise e, s') => (Raise e, s')
    end.

Definition get {S} : M S S := fun s => (Ok s, s).

Definition put {S} (s : S) : M S unit := fun _ => (Ok tt, s).

(** Lift a computation that only reads, and may raise. *)
Definition lift {S A} (r : result A) : M S A := fun s => (r, s).

Notation "x <- c1 ;; c2" := (bind c1 (fun x => c2))
  (at level 20, c1 at level 99, c2 at level 200, only parsing).
Notation "c1 ;; c2" := (bind c1 (fun _ => c2))
  (at level 100, c2 at level 200, only parsing, right associativity).

(** [d[player]] on a dict keyed by players. *)
Definition getitem {V} (d : gmap string V) (player : Player) : result V :=
  match d !! name player with
  | Some v => Ok v
  | None => Raise (KeyError (name player))
  end.

(** [{player: v for player in players}]. *)
Definition dict_from_keys {V} (players : list Player) (v : V) : gmap string V :=
  fold_left (fun d player => <[name player := v]> d) players ∅.

(** [card in cards], with [Card.__eq__]. *)
Definition card_in (card : Card) (cards : list Card) : bool :=
  existsb (fun c => Card_eq c card) cards.

(** [cards.remove(card)]: drops the first equal element; [None] stands
    for the ValueError of an absent element. *)
Fixpoint list_remove (card : Card) (cards : list Card) : option (list Card) :=
  match cards with
  | [] => None
  | c :: rest =>
      if Card_eq c card then Some rest
      else option_map (cons c) (list_remove card rest)
  end.

(** ** game_engine.py: Trick *)

Module Trick.

Record t := mk {
  round_num : Z;
  trick_num : Z;
  trump_suit : option Suit;
  cards_played : list (Player * Card);
  led_suit : option Suit;
  winner : option Player
}.

(** [Trick.__init__]. *)
Definition init (round_num trick_num : Z) (trump_suit : option Suit) : t :=
  mk round_num trick_num trump_suit [] None None.

(** [Trick.play_card]. *)
Definition play_card (self : t) (player : Player) (card : Card) : t :=
  let led :=
    if bool_decide (length (cards_played self) = 0%nat) then
      if bool_decide (card_type card = NUMBER) then suit card
      else Some SPECIAL
    else led_suit self in
  mk (round_num self) (trick_num self) (trump_suit self)
     (cards_played self ++ [(player, card)]) led (winner self).

(** One turn of the loop of [determine_winner]. *)
Definition challenge (led_suit trump_suit : option Suit)
    (current : Player * Card) (play : Player * Card) : Player * Card :=
  if beats (snd play) (snd current) led_suit trump_suit then play else current.

(** [Trick.determine_winner]: the value returned and the trick with its
    [winner] attribute assigned. *)
Definition determine_winner (self : t) : option Player * t :=
  match cards_played self with
  | [] => (None, self)
  | first :: rest =>
      let w := fold_left (challenge (led_suit self) (trump_suit self)) rest first in
      (Some (fst w),
       mk (round_num self) (trick_num self) (trump_suit self)
          (cards_played self) (led_suit self) (Some (fst w)))
  end.

(** The trick obtained from a new trick by a sequence of plays. *)
Definition of_plays (round_num trick_num : Z) (trump_suit : option Suit)
    (plays : list (Player * Card)) : t :=
  fold_left (fun trick pc => play_card trick (fst pc) (snd pc)) plays
            (init round_num trick_num trump_suit).

End Trick.

(** ** game_engine.py: GameState *)

Module GameState.

Record t := mk {
  players : list Player;
  round_num : Z;
  num_cards : Z;
  bids : gmap string Z;
  tricks_won : gmap string Z;
  hands : gmap string (list Card);
  current_trick : option Trick.t;
  tricks : list Trick.t;
  trump_suit : option Suit;
  scores : gmap string Z;
  game_over : bool
}.

(** [GameState.__init__]. *)
Definition init (players : list Player) (round_num : Z) : t :=
  mk players round_num round_num ∅ ∅ ∅ None [] None
     (dict_from_keys players 0) false.

(** Attribute assignments. *)
Definition set_bids (self : t) (b : gmap string Z) : t :=
  mk (players self) (round_num self) (num_cards self) b (tricks_won self)
     (hands self) (current_trick self) (tricks self) (trump_suit self)
     (scores self) (game_over self).

Definition set_tricks_won (self : t) (w : gmap string Z) : t :=
  mk (players self) (round_num self) (num_cards self) (bids self) w
     (hands self) (current_trick self) (tricks self) (trump_suit self)
     (scores self) (game_over self).

Definition set_hands (self : t) (h : gmap string (list Card)) : t :=
  mk (players self) (round_num self) (num_cards self) (bids self)
     (tricks_won self) h (current_trick self) (tricks self) (trump_suit self)
     (scores self) (game_over self).

Definition set_current_trick (self : t) (c : option Trick.t) : t :=
  mk (players self) (round_num self) (num_cards self) (bids self)
     (tricks_won self) (hands self) c (tricks self) (trump_suit self)
     (scores self) (game_over self).

Definition set_tricks (self : t) (ts : list Trick.t) : t :=
  mk (players self) (round_num self) (num_cards self) (bids self)
     (tricks_won self) (hands self) (current_trick self) ts (trump_suit self)
     (scores self) (game_over self).

Definition set_scores (self : t) (s : gmap string Z) : t :=
  mk (players self) (round_num self) (num_cards self) (bids self)
     (tricks_won self) (hands self) (current_trick self) (tricks self)
     (trump_suit self) s (game_over self).

(** The filter of the list comprehension in [get_legal_cards]. *)
Definition follows (led_suit : option Suit) (c : Card) : bool :=
  bool_decide (card_type c = NUMBER) && bool_decide (suit c = led_suit).

(** [GameState.get_legal_cards]. *)
Definition get_legal_cards (self : t) (player : Player) : result (list Card) :=
  match current_trick self with
  | None => getitem (hands self) player
  | Some trick =>
      match Trick.cards_played trick with
      | [] => getitem (hands self) player
      | _ :: _ =>
          let led_suit := Trick.led_suit trick in
          if bool_decide (led_suit <> None) &&
             bool_decide (led_suit <> Some SPECIAL)
          then
            match getitem (hands self) player with
            | Raise e => Raise e
            | Ok hand =>
                match List.filter (follows led_suit) hand with
                | [] => getitem (hands self) player
                | following_cards => Ok following_cards
                end
            end
          else getitem (hands self) player
      end
  end.

End GameState.

(** ** game_engine.py: SkullKingGame *)

Module SkullKingGame.

(** The attribute [deck] holds the [cards] list of the [Deck] object. *)
Record t := mk {
  players : list Player;
  num_rounds : Z;
  current_round : Z;
  deck : list Card;
  state : option GameState.t;
  game_history : list GameState.t;
  cumulative_scores : gmap string Z
}.

Definition set_deck (self : t) (d : list Card) : t :=
  mk (players self) (num_rounds self) (current_round self) d (state self)
     (game_history self) (cumulative_scores self).

Definition set_state (self : t) (st : option GameState.t) : t :=
  mk (players self) (num_rounds self) (current_round self) (deck self) st
     (game_history self) (cumulative_scores self).

Definition set_cumulative_scores (self : t) (c : gmap string Z) : t :=
  mk (players self) (num_rounds self) (current_round self) (deck self)
     (state self) (game_history self) c.

(** [SkullKingGame.__init__]. *)
Definition init (players : list Player) (num_rounds : Z) : result t :=
  if (length players <? 2)%nat then Raise TooFewPlayers
  else if (6 <? length players)%nat then Raise TooManyPlayers
  else Ok (mk players num_rounds 0 create_deck None []
              (dict_from_keys players 0)).

(** Run a computation on the [GameState] object [self.state]; [e] is
    raised when there is none. *)
Definition on_state {A} (e : exn) (c : M GameState.t A) : M t A :=
  fun self =>
    match state self with
    | None => (Raise e, self)
    | Some st =>
        match c st with
        | (r, st') => (r, set_state self (Some st'))
        end
    end.

(** The dealing loop of [start_round], over the cards of [self.deck];
    [state] is the local, not yet published, round state. *)
Fixpoint deal_hands (ps : list Player) (num_cards : Z) (state : GameState.t)
  : M (list Card) GameState.t :=
  match ps with
  | [] => ret state
  | player :: ps' =>
      cards <- get ;;
      match deal cards num_cards with
      | Raise e => raise e
      | Ok (dealt, remaining) =>
          put remaining ;;
          deal_hands ps' num_cards
            (GameState.set_tricks_won
               (GameState.set_hands state
                  (<[name player := dealt]> (GameState.hands state)))
               (<[name player := 0]> (GameState.tricks_won state)))
      end
  end.

(** [SkullKingGame.start_round].  [shuffle] is the permutation that
    [random.shuffle] applies on this call. *)
Definition start_round (shuffle : list Card -> list Card) (round_num : Z)
  : M t GameState.t :=
  fun self =>
    let self1 := set_deck self (shuffle create_deck) in
    let state :=
      GameState.set_scores (GameState.init (players self1) round_num)
                           (cumulative_scores self1) in
    match deal_hands (players self1) round_num state (deck self1) with
    | (Raise e, cards) => (Raise e, set_deck self1 cards)
    | (Ok state', cards) =>
        (Ok state', set_state (set_deck self1 cards) (Some state'))
    end.

(** The loop of [collect_bids], on [self.state]; [bids] is the local dict. *)
Fixpoint collect_bids_loop (ps : list Player) (bids : gmap string Z)
  : M GameState.t (gmap string Z) :=
  match ps with
  | [] => ret bids
  | player :: ps' =>
      st <- get ;;
      hand <- lift (getitem (GameState.hands st) player) ;;
      let bid := make_bid player hand (GameState.round_num st)
                          (GameState.bids st) in
      if (bid <? 0) || (GameState.round_num st <? bid)
      then raise (InvalidBid (name player) bid)
      else
        put (GameState.set_bids st (<[name player := bid]> (GameState.bids st))) ;;
        collect_bids_loop ps' (<[name player := bid]> bids)
  end.

(** [SkullKingGame.collect_bids]. *)
Definition collect_bids : M t (gmap string Z) :=
  fun self => on_state NoActiveRound (collect_bids_loop (players self) ∅) self.

(** [SkullKingGame.start_trick]. *)
Definition start_trick : M t Trick.t :=
  on_state NoActiveRound
    (st <- get ;;
     let trick_num := Z.of_nat (length (GameState.tricks st)) + 1 in
     let trick := Trick.init (GameState.round_num st) trick_num
                             (GameState.trump_suit st) in
     put (GameState.set_current_trick st (Some trick)) ;;
     ret trick).

(** The end of [play_card], once the trick holds as many plays as there
    are players. *)
Definition complete_trick (st : GameState.t) (trick : Trick.t) : GameState.t :=
  let '(winner, trick') := Trick.determine_winner trick in
  let st1 :=
    match winner with
    | Some w =>
        GameState.set_tricks_won st
          (<[name w := default 0 (GameState.tricks_won st !! name w) + 1]>
             (GameState.tricks_won st))
    | None => st
    end in
  GameState.set_current_trick
    (GameState.set_tricks st1 (GameState.tricks st1 ++ [trick'])) None.

(** [SkullKingGame.play_card]. *)
Definition play_card (player : Player) (card : Card) : M t bool :=
  fun self =>
    on_state NoActiveTrick
      (st <- get ;;
       match GameState.current_trick st with
       | None => raise NoActiveTrick
       | Some trick =>
           legal_cards <- lift (GameState.get_legal_cards st player) ;;
           if negb (card_in card legal_cards)
           then raise (IllegalPlay card legal_cards)
           else
             hand <- lift (getitem (GameState.hands st) player) ;;
             match list_remove card hand with
             | None => raise (NotInList card)
             | Some hand' =>
                 let st1 := GameState.set_hands st
                              (<[name player := hand']> (GameState.hands st)) in
                 let trick' := Trick.play_card trick player card in
                 if bool_decide (length (Trick.cards_played trick')
                                 = length (players self))
                 then put (complete_trick st1 trick') ;; ret true
                 else put (GameState.set_current_trick st1 (Some trick')) ;;
                      ret false
             end
       end) self.

(** The score of one player in [calculate_scores]. *)
Definition round_score (bid tricks_won round_num : Z) : Z :=
  let score :=
    if bid =? tricks_won then bid * 20 + 10
    else -10 * Z.abs (bid - tricks_won) in
  if bid =? 0 then
    if tricks_won =? 0 then 10 * round_num else -10 * round_num
  else score.

(** The loop of [calculate_scores]; [round_scores] is the local dict. *)
Fixpoint calculate_scores_loop (ps : list Player) (round_scores : gmap string Z)
  : M t (gmap string Z) :=
  match ps with
  | [] => ret round_scores
  | player :: ps' =>
      self <- get ;;
      match state self with
      | None => raise NoActiveRound
      | Some st =>
          bid <- lift (getitem (GameState.bids st) player) ;;
          tricks_won <- lift (getitem (GameState.tricks_won st) player) ;;
          let score := round_score bid tricks_won (GameState.round_num st) in
          old <- lift (getitem (GameState.scores st) player) ;;
          let st' := GameState.set_scores st
                       (<[name player := old + score]> (GameState.scores st)) in
          put (set_cumulative_scores (set_state self (Some st'))
                 (<[name player := old + score]> (cumulative_scores self))) ;;
          calculate_scores_loop ps' (<[name player := score]> round_scores)
      end
  end.

(** [SkullKingGame.calculate_scores]. *)
Definition calculate_scores : M t (gmap string Z) :=
  fun self =>
    match state self with
    | None => (Raise NoActiveRound, self)
    | Some _ => calculate_scores_loop (players self) ∅ self
    end.

(** [any(card.card_type == SKULL_KING for _, card in trick.cards_played)]. *)
Definition skull_king_played (trick : Trick.t) : bool :=
  existsb (fun pc => bool_decide (card_type (snd pc) = SKULL_KING))
          (Trick.cards_played trick).

(** [next(card for player, card in trick.cards_played if player == winner)]. *)
Definition card_played_by (trick : Trick.t) (winner : Player) : result Card :=
  match find (fun pc => Player_eq (fst pc) winner) (Trick.cards_played trick) with
  | Some pc => Ok (snd pc)
  | None => Raise StopIteration
  end.

(** [bonuses[winner] += amount]. *)
Definition add_bonus (bonuses : gmap string Z) (winner : Player) (amount : Z)
  : result (gmap string Z) :=
  match getitem bonuses winner with
  | Ok b => Ok (<[name winner := b + amount]> bonuses)
  | Raise e => Raise e
  end.

(** The body of the first loop of [check_special_bonuses], on one trick
    object (whose [winner] attribute [determine_winner] assigns). *)
Definition trick_bonus (bonuses : gmap string Z) : M Trick.t (gmap string Z) :=
  fun trick =>
    if skull_king_played trick then
      match Trick.determine_winner trick with
      | (Some winner, trick') =>
          match card_played_by trick' winner with
          | Raise e => (Raise e, trick')
          | Ok winner_card =>
              if bool_decide (card_type winner_card = MERMAID)
              then (add_bonus bonuses winner 100, trick')
              else if bool_decide (card_type winner_card = PIRATE)
              then (add_bonus bonuses winner 50, trick')
              else (Ok bonuses, trick')
          end
      | (None, trick') => (Ok bonuses, trick')
      end
    else (Ok bonuses, trick).

(** The first loop of [check_special_bonuses], over [self.state.tricks]. *)
Fixpoint bonus_loop (tricks : list Trick.t) (bonuses : gmap string Z)
  : result (gmap string Z) * list Trick.t :=
  match tricks with
  | [] => (Ok bonuses, [])
  | trick :: rest =>
      match trick_bonus bonuses trick with
      | (Raise e, trick') => (Raise e, trick' :: rest)
      | (Ok bonuses', trick') =>
          match bonus_loop rest bonuses' with
          | (r, rest') => (r, trick' :: rest')
          end
      end
  end.

(** The second loop of [check_special_bonuses]. *)
Fixpoint apply_bonuses (ps : list Player) (bonuses : gmap string Z) : M t unit :=
  match ps with
  | [] => ret tt
  | player :: ps' =>
      self <- get ;;
      match state self with
      | None => raise NoActiveRound
      | Some st =>
          old <- lift (getitem (GameState.scores st) player) ;;
          bonus <- lift (getitem bonuses player) ;;
          let st' := GameState.set_scores st
                       (<[name player := old + bonus]> (GameState.scores st)) in
          put (set_cumulative_scores (set_state self (Some st'))
                 (<[name player := old + bonus]> (cumulative_scores self))) ;;
          apply_bonuses ps' bonuses
      end
  end.

(** [SkullKingGame.check_special_bonuses]. *)
Definition check_special_bonuses : M t (gmap string Z) :=
  fun self =>
    match state self with
    | None => (Ok ∅, self)
    | Some st =>
        match bonus_loop (GameState.tricks st) (dict_from_keys (players self) 0) with
        | (Raise e, tricks') =>
            (Raise e, set_state self (Some (GameState.set_tricks st tricks')))
        | (Ok bonuses, tricks') =>
            (apply_bonuses (players self) bonuses ;; ret bonuses)
              (set_state self (Some (GameState.set_tricks st tricks')))
        end
    end.

(** [SkullKingGame.is_round_complete]; [sum] adds from 0, left to right. *)
Definition is_round_complete (self : t) : bool :=
  match state self with
  | None => false
  | Some st =>
      let played :=
        fold_left (fun acc trick =>
                     acc + Z.of_nat (length (Trick.cards_played trick)))
                  (GameState.tricks st) 0 in
      let total_cards_played :=
        match GameState.current_trick st with
        | Some trick => played + Z.of_nat (length (Trick.cards_played trick))
        | None => played
        end in
      bool_decide (total_cards_played
                   = GameState.round_num st * Z.of_nat (length (players self)))
  end.

(** [SkullKingGame.get_final_scores]. *)
Definition get_final_scores (self : t) : gmap string Z :=
  match state self with
  | None => dict_from_keys (players self) 0
  | Some st => GameState.scores st
  end.

End SkullKingGame.

(** ** example_bots.py: the bidding of the deterministic bots *)

(** [sum(1 for card in hand if test(card))]. *)
Definition count_if (test : Card -> bool) (hand : list Card) : Z :=
  Z.of_nat (length (List.filter test hand)).

(** [card.value >= n], reached for NUMBER cards only (see [value_gt]). *)
Definition value_ge (v : option Z) (n : Z) : bool :=
  match v with
  | Some x => n <=? x
  | None => false
  end.

(** [ConservativeBot.make_bid]. *)
Definition ConservativeBot_make_bid (hand : list Card) (round_num : Z)
    (previous_bids : gmap string Z) : Z :=
  let escape_count :=
    count_if (fun card => bool_decide (card_type card = ESCAPE)) hand in
  if round_num <=? escape_count then 0 else Z.min 1 round_num.

(** [AggressiveBot.make_bid]. *)
Definition AggressiveBot_make_bid (hand : list Card) (round_num : Z)
    (previous_bids : gmap string Z) : Z :=
  let strong_cards :=
    count_if (fun card =>
                bool_decide (card_type card = PIRATE)
                || bool_decide (card_type card = MERMAID)
                || bool_decide (card_type card = SKULL_KING)
                || (bool_decide (card_type card = NUMBER)
                    && value_ge (value card) 10)) hand in
  let bid := Z.min strong_cards round_num in
  Z.max 1 bid.

(** [SmartBot.make_bid]; [//] is the floor division. *)
Definition SmartBot_make_bid (hand : list Card) (round_num : Z)
    (previous_bids : gmap string Z) : Z :=
  let skull_king :=
    count_if (fun c => bool_decide (card_type c = SKULL_KING)) hand in
  let pirates := count_if (fun c => bool_decide (card_type c = PIRATE)) hand in
  let mermaids := count_if (fun c => bool_decide (card_type c = MERMAID)) hand in
  let high_cards :=
    count_if (fun c => bool_decide (card_type c = NUMBER)
                       && value_ge (value c) 11) hand in
  let estimated_tricks := skull_king + pirates + mermaids + high_cards / 2 in
  let estimated_tricks :=
    if round_num <=? 3 then Z.min estimated_tricks 2 else estimated_tricks in
  Z.min (Z.max 0 estimated_tricks) round_num.

(** The three bots as players. *)
Definition ConservativeBot (n : string) : Player :=
  mkPlayer n ConservativeBot_make_bid.
Definition AggressiveBot (n : string) : Player :=
  mkPlayer n AggressiveBot_make_bid.
Definition SmartBot (n : string) : Player :=
  mkPlayer n SmartBot_make_bid.

(** ** Vocabulary of the statements *)

(** The led suit that a first play sets (the branch of [Trick.play_card]). *)
Definition led_by (card : Card) : option Suit :=
  if bool_decide (card_type card = NUMBER) then suit card else Some SPECIAL.

(** A player for the examples; it always bids [b]. *)
Definition bot (n : string) (b : Z) : Player := mkPlayer n (fun _ _ _ => b).

(** A round state for the examples: two players, Ann holding [hand],
    and a current trick made of [plays]. *)
Definition round_with (hand : list Card) (plays : list (Player * Card))
  : GameState.t :=
  GameState.set_current_trick
    (GameState.set_hands
       (GameState.init [bot "Bob" 0; bot "Ann" 0] 3)
       {[ "Ann" := hand ]})
    (Some (Trick.of_plays 3 1 None plays)).

(** A game object whose active round is [st]. *)
Definition game_with (st : GameState.t) : SkullKingGame.t :=
  SkullKingGame.mk (GameState.players st) 10 (GameState.round_num st) []
                   (Some st) [] (GameState.scores st).

(** A finished round of 5 for the scoring examples: Ann bid 3 and won 3
    tricks, Bob bid 0 and won 2. *)
Definition scored_round : GameState.t :=
  GameState.set_tricks_won
    (GameState.set_bids
       (GameState.init [bot "Ann" 3; bot "Bob" 0] 5)
       {[ "Ann" := 3; "Bob" := 0 ]})
    {[ "Ann" := 3; "Bob" := 2 ]}.

(** What the first loop of [check_special_bonuses] adds for one trick
    to the bonus of the player named [k], read off [trick_bonus]: the
    card it looks at is the first card that the winner played in the
    trick. *)
Definition loop_trick_bonus (trick : Trick.t) (k : string) : Z :=
  if SkullKingGame.skull_king_played trick then
    match fst (Trick.determine_winner trick) with
    | Some w =>
        if bool_decide (name w = k) then
          match SkullKingGame.card_played_by trick w with
          | Ok c =>
              if bool_decide (card_type c = MERMAID) then 100
              else if bool_decide (card_type c = PIRATE) then 50
              else 0
          | Raise _ => 0
          end
        else 0
    | None => 0
    end
  else 0.

Definition loop_round_bonus (tricks : list Trick.t) (k : string) : Z :=
  fold_right (fun trick acc => loop_trick_bonus trick k + acc) 0 tricks.

(** Following the specification of trick resolution: the candidate is
    the first play, and each later play replaces the candidate when its
    card beats the card of the candidate under the led suit and the
    trump suit; the play left at the end takes the trick. *)
Fixpoint spec_resolve (led_suit trump_suit : option Suit)
    (candidate : Player * Card) (later : list (Player * Card))
  : Player * Card :=
  match later with
  | [] => candidate
  | play :: rest =>
      spec_resolve led_suit trump_suit
        (if beats (snd play) (snd candidate) led_suit trump_suit
         then play else candidate)
        rest
  end.

Definition spec_winning_play (trick : Trick.t) : option (Player * Card) :=
  match Trick.cards_played trick with
  | [] => None
  | first :: rest =>
      Some (spec_resolve (Trick.led_suit trick) (Trick.trump_suit trick)
                         first rest)
  end.

(** Following the specification of the bonus pass: what one completed
    trick adds to the score of the player named [k].  When a SkullKing
    is among the cards played in the trick and [k] is the player of the
    winning play, it is +100 if the winning card is a Mermaid and +50
    if it is a Pirate; it is nothing otherwise. *)
Definition spec_trick_bonus (trick : Trick.t) (k : string) : Z :=
  if bool_decide (Exists (fun play => card_type (snd play) = SKULL_KING)
                         (Trick.cards_played trick))
  then
    match spec_winning_play trick with
    | Some (winner, winning_card) =>
        if bool_decide (name winner = k) then
          if bool_decide (card_type winning_card = MERMAID) then 100
          else if bool_decide (card_type winning_card = PIRATE) then 50
          else 0
        else 0
    | None => 0
    end
  else 0.

(** Following the specification: the bonuses of all completed tricks. *)
Definition spec_round_bonus (tricks : list Trick.t) (k : string) : Z :=
  fold_right (fun trick acc => spec_trick_bonus trick k + acc) 0 tricks.

(** A round of 2 with its two tricks completed: in the first Bob's
    Mermaid captures Ann's SkullKing, in the second no SkullKing is
    played. *)
Definition captured_round : GameState.t :=
  GameState.set_tricks
    (GameState.init [bot "Ann" 1; bot "Bob" 1] 2)
    [ Trick.of_plays 2 1 None [(bot "Ann" 1, SkullKing); (bot "Bob" 1, Mermaid)];
      Trick.of_plays 2 2 None [(bot "Bob" 1, Pirate); (bot "Ann" 1, Number RED 4)] ].

(** The bid that [player] returns when [collect_bids] asks in the round
    state [st]. *)
Definition bid_of (st : GameState.t) (player : Player) : Z :=
  make_bid player (default [] (GameState.hands st !! name player))
           (GameState.round_num st) (GameState.bids st).

(** The round state once [player] has been asked and the bid recorded. *)
Definition record_bid (st : GameState.t) (player : Player) : GameState.t :=
  GameState.set_bids st (<[name player := bid_of st player]> (GameState.bids st)).

(** The round state once the players [ps] have been asked in turn. *)
Definition after_bids (st : GameState.t) (ps : list Player) : GameState.t :=
  fold_left record_bid ps st.

(** Every player of [ps], asked in turn from [st], returns a bid in
    [0, round_num]. *)
Fixpoint bids_in_range (st : GameState.t) (ps : list Player) : bool :=
  match ps with
  | [] => true
  | player :: ps' =>
      (0 <=? bid_of st player) && (bid_of st player <=? GameState.round_num st)
      && bids_in_range (record_bid st player) ps'
  end.

(** Bidding in a round of 3: Ann bids 1, Bob bids 9. *)
Definition bidding_round : GameState.t :=
  GameState.set_hands
    (GameState.init [bot "Ann" 1; bot "Bob" 9] 3)
    {[ "Ann" := [Number RED 5; Pirate; Escape];
       "Bob" := [Number BLUE 2; Number RED 1; Mermaid] ]}.

(** The cards of a round: in the hands, in the completed tricks, in the
    current trick, and left in the deck. *)
Definition cards_in_hands (hands : gmap string (list Card)) : nat :=
  map_fold (fun _ hand n => (length hand + n)%nat) 0%nat hands.

Definition cards_in_tricks (tricks : list Trick.t) : nat :=
  fold_right (fun trick n => (length (Trick.cards_played trick) + n)%nat)
             0%nat tricks.

Definition cards_in_current (current : option Trick.t) : nat :=
  match current with
  | Some trick => length (Trick.cards_played trick)
  | None => 0%nat
  end.

Definition cards_in_round (st : GameState.t) : nat :=
  (cards_in_hands (GameState.hands st)
   + cards_in_tricks (GameState.tricks st)
   + cards_in_current (GameState.current_trick st))%nat.

Definition total_cards (g : SkullKingGame.t) : nat :=
  (match SkullKingGame.state g with
   | Some st => cards_in_round st
   | None => 0
   end + length (SkullKingGame.deck g))%nat.

(** The states of a round: the one that [start_round] leaves, and those
    reached from it by [collect_bids], by [start_trick] when no card
    lies in the current trick, and by [play_card]; a call of
    [collect_bids] or [play_card] that raises counts as a step too, with
    the state as the call left it. *)
Inductive round_reachable (shuffle : list Card -> list Card)
    (g0 : SkullKingGame.t) (round_num : Z) : SkullKingGame.t -> Prop :=
  | reach_start st g :
      SkullKingGame.start_round shuffle round_num g0 = (Ok st, g) ->
      round_reachable shuffle g0 round_num g
  | reach_bids r g g' :
      round_reachable shuffle g0 round_num g ->
      SkullKingGame.collect_bids g = (r, g') ->
      round_reachable shuffle g0 round_num g'
  | reach_trick trick g g' :
      round_reachable shuffle g0 round_num g ->
      (forall st, SkullKingGame.state g = Some st ->
                  cards_in_current (GameState.current_trick st) = 0%nat) ->
      SkullKingGame.start_trick g = (Ok trick, g') ->
      round_reachable shuffle g0 round_num g'
  | reach_play player card r g g' :
      round_reachable shuffle g0 round_num g ->
      SkullKingGame.play_card player card g = (r, g') ->
      round_reachable shuffle g0 round_num g'.

(** A game of two for the examples, and the start of its round 2 with a
    shuffle that leaves the deck as built: Ann holds the red 1 and 2,
    Bob the red 3 and 4.  A trick is started and Ann leads the red 1. *)
Definition game_of_two : SkullKingGame.t :=
  SkullKingGame.mk [bot "Ann" 1; bot "Bob" 1] 10 0 create_deck None []
                   (dict_from_keys [bot "Ann" 1; bot "Bob" 1] 0).

Definition round_two_started : SkullKingGame.t :=
  snd (SkullKingGame.start_round (fun cards => cards) 2 game_of_two).

Definition round_two_trick : SkullKingGame.t :=
  snd (SkullKingGame.start_trick round_two_started).

Definition round_two_led : SkullKingGame.t :=
  snd (SkullKingGame.play_card (bot "Ann" 1) (Number RED 1) round_two_trick).

(** Bob follows with the red 3, which completes the trick; Bob wins it. *)
Definition round_two_done : SkullKingGame.t :=
  snd (SkullKingGame.play_card (bot "Bob" 1) (Number RED 3) round_two_led).

(** A shuffle that brings [card] to the top of the deck. *)
Definition to_top (card : Card) (cards : list Card) : list Card :=
  match list_remove card cards with
  | Some rest => card :: rest
  | None => cards
  end.

(** A shuffle after which the deck starts with the red 1, a Mermaid,
    the SkullKing and the blue 1. *)
Definition stacked (cards : list Card) : list Card :=
  to_top (Number RED 1)
    (to_top Mermaid (to_top SkullKing (to_top (Number BLUE 1) cards))).

(** Round 2 of a game of three with that shuffle: Ann holds the red 1
    and a Mermaid, Bob the SkullKing and the blue 1, Cid the red 2 and 3.
    Ann plays twice in the first trick ([play_card] does not ask whose
    turn it is): Ann leads the red 1, Ann plays the Mermaid, Bob plays
    the SkullKing, which completes the trick.  In the second trick Bob
    leads the blue 1 and Cid plays the red 2 and the red 3; the round is
    then complete. *)
Definition game_of_three : SkullKingGame.t :=
  SkullKingGame.mk [bot "Ann" 0; bot "Bob" 0; bot "Cid" 0] 10 0 create_deck
                   None []
                   (dict_from_keys [bot "Ann" 0; bot "Bob" 0; bot "Cid" 0] 0).

Definition double_play_start : SkullKingGame.t :=
  snd (SkullKingGame.start_round stacked 2 game_of_three).

Definition double_play_trick : SkullKingGame.t :=
  snd (SkullKingGame.play_card (bot "Bob" 0) SkullKing
    (snd (SkullKingGame.play_card (bot "Ann" 0) Mermaid
      (snd (SkullKingGame.play_card (bot "Ann" 0) (Number RED 1)
        (snd (SkullKingGame.start_trick double_play_start))))))).

Definition double_play_done : SkullKingGame.t :=
  snd (SkullKingGame.play_card (bot "Cid" 0) (Number RED 3)
    (snd (SkullKingGame.play_card (bot "Cid" 0) (Number RED 2)
      (snd (SkullKingGame.play_card (bot "Bob" 0) (Number BLUE 1)
        (snd (SkullKingGame.start_trick double_play_trick))))))).

(** Two players of one name, as [SkullKingGame.__init__] accepts them. *)
Definition game_of_namesakes : SkullKingGame.t :=
  SkullKingGame.mk [bot "Bot" 0; bot "Bot" 0] 10 0 create_deck None []
                   (dict_from_keys [bot "Bot" 0; bot "Bot" 0] 0).

(** The number of cards of type [ct] among [cards]. *)
Definition count_type (ct : CardType) (cards : list Card) : nat :=
  length (List.filter (fun c => bool_decide (card_type c = ct)) cards).


(** The tricks won by all the players together. *)
Definition tricks_won_total (won : gmap string Z) : Z :=
  map_fold (fun _ n acc => n + acc) 0 won.

(** What holds in every state of a round of [n] cards of the game
    [g0]: the players are those of the game; there is a round state, of
    round number [n]; each completed trick has one play per player and
    carries the winner that [determine_winner] finds; the tricks won
    add up to the number of completed tricks; and, when the names are
    distinct and [n] is not negative, the hands and the tricks hold [n]
    cards per player. *)
Definition round_inv (g0 : SkullKingGame.t) (n : Z) (g : SkullKingGame.t)
  : Prop :=
  SkullKingGame.players g = SkullKingGame.players g0 /\
  exists st,
    SkullKingGame.state g = Some st /\
    GameState.round_num st = n /\
    Forall (fun trick =>
              length (Trick.cards_played trick)
              = length (SkullKingGame.players g0) /\
              is_Some (Trick.winner trick) /\
              Trick.winner trick = fst (Trick.determine_winner trick))
           (GameState.tricks st) /\
    tricks_won_total (GameState.tricks_won st)
    = Z.of_nat (length (GameState.tricks st)) /\
    (NoDup (map name (SkullKingGame.players g0)) -> 0 <= n ->
     Z.of_nat (cards_in_round st)
     = n * Z.of_nat (length (SkullKingGame.players g0))).

(** The round of [scored_round] at its start: each of the two players
    holds a hand and nobody has bid yet. *)
Definition scored_round_hands : GameState.t :=
  GameState.set_hands
    (GameState.init [bot "Ann" 3; bot "Bob" 0] 5)
    {[ "Ann" := [Pirate; Mermaid; SkullKing; Number RED 13; Number RED 12];
       "Bob" := [Escape; Escape; Number BLUE 1; Number BLUE 2; Number RED 1] ]}.

(** The finished round of [scored_round] in which only Ann's bid has
    been recorded. *)
Definition half_bid_round : GameState.t :=
  GameState.set_bids scored_round {[ "Ann" := 3 ]}.

(** * Properties *)

(** ** Card comparison *)

Lemma Card_eq_true (a b : Card) : Card_eq a b = true <-> a = b.
Proof.
  unfold Card_eq. destruct a, b; simpl.
  rewrite !andb_true_iff, !bool_decide_eq_true. split.
  - intros [[-> ->] ->]. reflexivity.
  - intros H. injection H as -> -> ->. auto.
Qed.

Lemma value_gt_asym (x y : option Z) : value_gt x y = true -> value_gt y x = false.
Proof.
  destruct x, y; simpl; try discriminate; try reflexivity.
  rewrite Z.ltb_lt, Z.ltb_ge. lia.
Qed.

Lemma beats_by_suit_asym (a b : Card) (led : option Suit) :
  beats_by_suit a b led = true -> beats_by_suit b a led = false.
Proof.
  unfold beats_by_suit. repeat case_bool_decide; try congruence.
  apply value_gt_asym.
Qed.

(** [beats] is asymmetric, for all cards, led suits and trump suits. *)
Lemma beats_asym (a b : Card) (led trump : option Suit) :
  beats a b led trump = true -> beats b a led trump = false.
Proof.
  unfold beats.
  destruct (card_type a) eqn:Ha, (card_type b) eqn:Hb; simpl;
    try discriminate; try reflexivity;
    try (rewrite Z.ltb_lt; intros; apply Z.ltb_ge; lia).
  destruct trump as [t|]; [|apply beats_by_suit_asym].
  repeat case_bool_decide; simpl; try congruence;
    auto using value_gt_asym, beats_by_suit_asym.
Qed.

Lemma beats_irrefl (a : Card) (led trump : option Suit) :
  beats a a led trump = false.
Proof.
  destruct (beats a a led trump) eqn:H; [|reflexivity].
  pose proof (beats_asym _ _ _ _ H). congruence.
Qed.

Lemma beats_escape_l (c : Card) (led trump : option Suit) :
  beats Escape c led trump = false.
Proof. reflexivity. Qed.

Lemma beats_escape_r (c : Card) (led trump : option Suit) :
  card_type c <> ESCAPE -> beats c Escape led trump = true.
Proof.
  intros H. unfold beats. rewrite bool_decide_eq_false_2 by assumption.
  reflexivity.
Qed.

(** ** Tricks built by [play_card] *)

Lemma plays_cards_played (plays : list (Player * Card)) (trick : Trick.t) :
  Trick.cards_played
    (fold_left (fun t pc => Trick.play_card t (fst pc) (snd pc)) plays trick)
  = Trick.cards_played trick ++ plays.
Proof.
  revert trick. induction plays as [|pc plays IH]; intros trick; simpl.
  - rewrite app_nil_r. reflexivity.
  - rewrite IH. simpl. rewrite <- app_assoc. destruct pc. reflexivity.
Qed.

Lemma plays_trump_suit (plays : list (Player * Card)) (trick : Trick.t) :
  Trick.trump_suit
    (fold_left (fun t pc => Trick.play_card t (fst pc) (snd pc)) plays trick)
  = Trick.trump_suit trick.
Proof.
  revert trick. induction plays as [|pc plays IH]; intros trick; simpl;
    [reflexivity|]. rewrite IH. reflexivity.
Qed.

Lemma plays_led_suit_started (plays : list (Player * Card)) (trick : Trick.t) :
  Trick.cards_played trick <> [] ->
  Trick.led_suit
    (fold_left (fun t pc => Trick.play_card t (fst pc) (snd pc)) plays trick)
  = Trick.led_suit trick.
Proof.
  revert trick. induction plays as [|pc plays IH]; intros trick Hne; simpl;
    [reflexivity|].
  rewrite IH.
  - simpl. rewrite bool_decide_eq_false_2; [reflexivity|].
    destruct (Trick.cards_played trick); [congruence|discriminate].
  - simpl. destruct (Trick.cards_played trick); discriminate.
Qed.

Lemma of_plays_cards_played r n tr (plays : list (Player * Card)) :
  Trick.cards_played (Trick.of_plays r n tr plays) = plays.
Proof. unfold Trick.of_plays. rewrite plays_cards_played. reflexivity. Qed.

Lemma of_plays_trump_suit r n tr (plays : list (Player * Card)) :
  Trick.trump_suit (Trick.of_plays r n tr plays) = tr.
Proof. unfold Trick.of_plays. rewrite plays_trump_suit. reflexivity. Qed.

Lemma of_plays_led_suit r n tr (first : Player * Card) rest :
  Trick.led_suit (Trick.of_plays r n tr (first :: rest)) = led_by (snd first).
Proof.
  unfold Trick.of_plays. simpl. rewrite plays_led_suit_started by discriminate.
  reflexivity.
Qed.

(** The result of [determine_winner] on a trick that has plays. *)
Lemma determine_winner_cons (trick : Trick.t) first rest :
  Trick.cards_played trick = first :: rest ->
  fst (Trick.determine_winner trick)
  = Some (fst (fold_left
                 (Trick.challenge (Trick.led_suit trick) (Trick.trump_suit trick))
                 rest first)).
Proof. intros H. unfold Trick.determine_winner. rewrite H. reflexivity. Qed.

(** A play that no later card beats stays the candidate. *)
Lemma challenge_keeps led trump (w : Player * Card) plays :
  Forall (fun q => beats (snd q) (snd w) led trump = false) plays ->
  fold_left (Trick.challenge led trump) plays w = w.
Proof.
  induction 1 as [|q plays Hq _ IH]; simpl; [reflexivity|].
  unfold Trick.challenge at 2. rewrite Hq. exact IH.
Qed.

(** A play whose card beats every other play becomes, and stays, the
    candidate, wherever it stands. *)
Lemma challenge_dominant led trump (w cur : Player * Card) plays :
  (forall q, In q (cur :: plays) ->
             q = w \/ beats (snd w) (snd q) led trump = true) ->
  In w (cur :: plays) ->
  fold_left (Trick.challenge led trump) plays cur = w.
Proof.
  revert cur. induction plays as [|q plays IH]; intros cur Hdom Hin.
  - simpl in *. destruct Hin as [->|[]]. reflexivity.
  - simpl. destruct (Hdom cur (or_introl eq_refl)) as [->|Hcur].
    + apply (challenge_keeps led trump w (q :: plays)).
      apply Forall_forall. intros x Hx.
      destruct (Hdom x (or_intror (proj1 (list_elem_of_In _ _) Hx))) as [->|Hb].
      * apply beats_irrefl.
      * apply beats_asym. exact Hb.
    + apply IH.
      * intros x Hx. apply Hdom. simpl in *.
        unfold Trick.challenge in Hx.
        destruct (beats (snd q) (snd cur) led trump); tauto.
      * destruct Hin as [Hin|[Hin|Hin]].
        -- subst cur. rewrite beats_irrefl in Hcur. discriminate.
        -- subst q. unfold Trick.challenge. rewrite Hcur. left. reflexivity.
        -- right. exact Hin.
Qed.

(** ** The hierarchy of [beats] *)

(** C6: with no trump and under every led suit, Mermaid beats SkullKing,
    Pirate beats Mermaid, Pirate beats SkullKing, SkullKing beats every
    Number card and every Jolly-Roger card, Escape beats no card, and
    every card that is not an Escape beats Escape. *)
Theorem beats_hierarchy (led_suit : option Suit) :
  beats Mermaid SkullKing led_suit None = true /\
  beats Pirate Mermaid led_suit None = true /\
  beats Pirate SkullKing led_suit None = true /\
  (forall c, card_type c = NUMBER -> beats SkullKing c led_suit None = true) /\
  (forall c, card_type c = JOLLY_ROGER ->
             beats SkullKing c led_suit None = true) /\
  (forall c, beats Escape c led_suit None = false) /\
  (forall c, card_type c <> ESCAPE -> beats c Escape led_suit None = true).
Proof.
  repeat split; try reflexivity.
  - intros c Hc. unfold beats. rewrite Hc. reflexivity.
  - intros c Hc. unfold beats. rewrite Hc. reflexivity.
  - intros c Hc. apply beats_escape_r. exact Hc.
Qed.

Lemma beats_hierarchy_witness :
  beats SkullKing (Number GREEN 13) (Some GREEN) None = true /\
  beats SkullKing (JollyRoger (Some RED) (Some 7)) (Some GREEN) None = true /\
  beats Tigress Escape (Some GREEN) None = true.
Proof.
  destruct (beats_hierarchy (Some GREEN)) as (_ & _ & _ & Hn & Hj & _ & He).
  split; [|split].
  - apply Hn. reflexivity.
  - apply Hj. reflexivity.
  - apply He. simpl. discriminate.
Defined.


(** Two off-suit Number cards of different suits: the fallback of
    [beats] answers [False] both ways. *)
Example beats_off_suit_neither :
  beats (Number RED 5) (Number BLUE 3) (Some GREEN) None = false /\
  beats (Number BLUE 3) (Number RED 5) (Some GREEN) None = false.
Proof. split; reflexivity. Qed.

(** The cards that [card_ok] accepts are those that the constructor
    returns. *)
Lemma card_ok_iff (c : Card) :
  card_ok c = true <-> exists ct s v, Card_init ct s v = Ok c.
Proof.
  split.
  - destruct c as [ct s v]. unfold card_ok. simpl. intros H.
    exists ct, s, v. unfold Card_init.
    destruct ct; try reflexivity;
      try (apply andb_true_iff in H; destruct H as [Hs Hv];
           apply bool_decide_eq_true in Hs; apply bool_decide_eq_true in Hv;
           subst; reflexivity).
    destruct s as [s|], v as [n|]; try discriminate.
    apply andb_true_iff in H. destruct H as [H Hhi].
    apply andb_true_iff in H. destruct H as [Hs Hlo].
    apply negb_true_iff, bool_decide_eq_false in Hs.
    apply Z.leb_le in Hlo, Hhi.
    rewrite bool_decide_eq_false_2 by discriminate.
    rewrite bool_decide_eq_false_2 by congruence. simpl.
    destruct (Z.ltb_spec n 1), (Z.ltb_spec 13 n); simpl; try lia. reflexivity.
  - intros (ct & s & v & H). unfold Card_init in H.
    destruct ct; try (injection H as <-; reflexivity).
    destruct (bool_decide (s = None) || bool_decide (s = Some SPECIAL)) eqn:Hs;
      [discriminate|].
    apply orb_false_iff in Hs. destruct Hs as [Hn Hsp].
    apply bool_decide_eq_false in Hn, Hsp.
    destruct v as [n|]; [|discriminate].
    destruct ((n <? 1) || (13 <? n)) eqn:Hr; [discriminate|].
    injection H as <-. apply orb_false_iff in Hr. destruct Hr as [Hlo Hhi].
    apply Z.ltb_ge in Hlo, Hhi. unfold card_ok. simpl.
    destruct s as [s|]; [|congruence].
    rewrite bool_decide_eq_false_2 by congruence. simpl.
    apply andb_true_iff. split; apply Z.leb_le; lia.
Qed.



(** ** Trick resolution *)

(** C10: [determine_winner] returns the player of the first play when
    every card played is an Escape, and returns [None], without failing,
    on a trick with no plays. *)
Theorem determine_winner_all_escape (trick : Trick.t) :
  (Trick.cards_played trick = [] ->
   fst (Trick.determine_winner trick) = None) /\
  (forall first rest,
     Trick.cards_played trick = first :: rest ->
     Forall (fun pc => card_type (snd pc) = ESCAPE) (first :: rest) ->
     fst (Trick.determine_winner trick) = Some (fst first)).
Proof.
  split.
  - intros H. unfold Trick.determine_winner. rewrite H. reflexivity.
  - intros first rest Hplays Hesc.
    rewrite (determine_winner_cons trick first rest Hplays).
    rewrite challenge_keeps; [reflexivity|].
    apply Forall_cons in Hesc. destruct Hesc as [_ Hrest].
    eapply Forall_impl; [exact Hrest|].
    intros pc Hpc. simpl in Hpc. unfold beats.
    rewrite bool_decide_eq_true_2 by exact Hpc. reflexivity.
Qed.

Lemma determine_winner_all_escape_witness :
  fst (Trick.determine_winner (Trick.init 1 1 None)) = None /\
  fst (Trick.determine_winner
         (Trick.of_plays 2 1 None
            [(bot "Ann" 0, Escape); (bot "Bob" 0, Escape); (bot "Cid" 0, Escape)]))
  = Some (bot "Ann" 0).
Proof.
  split.
  - apply (proj1 (determine_winner_all_escape (Trick.init 1 1 None))).
    reflexivity.
  - apply (proj2 (determine_winner_all_escape
                    (Trick.of_plays 2 1 None
                       [(bot "Ann" 0, Escape); (bot "Bob" 0, Escape);
                        (bot "Cid" 0, Escape)]))
                 (bot "Ann" 0, Escape)
                 [(bot "Bob" 0, Escape); (bot "Cid" 0, Escape)]).
    + reflexivity.
    + repeat constructor.
Defined.

(** C3, as stated, fails: after a red 5 is led, two Pirates played by Bob
    and Cid in either order give two different winners, because a later
    equal card does not replace the candidate. *)
Lemma determine_winner_permutation_counterexample :
  ~ (forall r n tr (first : Player * Card) (rest rest' : list (Player * Card)),
       Permutation rest rest' ->
       fst (Trick.determine_winner (Trick.of_plays r n tr (first :: rest')))
       = fst (Trick.determine_winner (Trick.of_plays r n tr (first :: rest)))).
Proof.
  intros H.
  specialize (H 3 1 None (bot "Ann" 0, Number RED 5)
                [(bot "Bob" 0, Pirate); (bot "Cid" 0, Pirate)]
                [(bot "Cid" 0, Pirate); (bot "Bob" 0, Pirate)]
                (perm_swap _ _ _)).
  vm_compute in H. discriminate H.
Qed.

(** C3, amended: with the first play fixed, if the card of one play of
    the trick beats the card of every other play (under the led suit of
    the trick and its trump suit), then [determine_winner] returns the
    player of that play under every permutation of the remaining plays. *)
Theorem determine_winner_permutation r n tr (first w : Player * Card)
    (rest rest' : list (Player * Card)) :
  Permutation rest rest' ->
  In w (first :: rest) ->
  (forall q, In q (first :: rest) ->
             q = w \/ beats (snd w) (snd q) (led_by (snd first)) tr = true) ->
  fst (Trick.determine_winner (Trick.of_plays r n tr (first :: rest)))
  = Some (fst w) /\
  fst (Trick.determine_winner (Trick.of_plays r n tr (first :: rest')))
  = Some (fst w).
Proof.
  intros Hperm Hin Hdom.
  assert (Hwin : forall l, Permutation rest l ->
            fst (Trick.determine_winner (Trick.of_plays r n tr (first :: l)))
            = Some (fst w)).
  { intros l Hl.
    rewrite (determine_winner_cons _ first l)
      by apply of_plays_cards_played.
    rewrite of_plays_led_suit, of_plays_trump_suit.
    f_equal. f_equal. apply challenge_dominant.
    - intros q Hq. apply Hdom.
      eapply Permutation_in; [|exact Hq].
      apply perm_skip. symmetry. exact Hl.
    - eapply Permutation_in; [|exact Hin]. apply perm_skip. exact Hl. }
  split; apply Hwin; [reflexivity|exact Hperm].
Qed.

Lemma determine_winner_permutation_witness :
  fst (Trick.determine_winner
         (Trick.of_plays 3 1 None
            [(bot "Ann" 0, Number RED 5); (bot "Bob" 0, Pirate);
             (bot "Cid" 0, Number RED 9)]))
  = Some (bot "Bob" 0) /\
  fst (Trick.determine_winner
         (Trick.of_plays 3 1 None
            [(bot "Ann" 0, Number RED 5); (bot "Cid" 0, Number RED 9);
             (bot "Bob" 0, Pirate)]))
  = Some (bot "Bob" 0).
Proof.
  apply (determine_winner_permutation 3 1 None
           (bot "Ann" 0, Number RED 5) (bot "Bob" 0, Pirate)
           [(bot "Bob" 0, Pirate); (bot "Cid" 0, Number RED 9)]
           [(bot "Cid" 0, Number RED 9); (bot "Bob" 0, Pirate)]).
  - apply perm_swap.
  - simpl. right. left. reflexivity.
  - intros q [<-|[<-|[<-|[]]]].
    + right. reflexivity.
    + left. reflexivity.
    + right. reflexivity.
Defined.

(** ** Legal moves *)

Lemma filter_sublist {A} (f : A -> bool) (l : list A) :
  sublist (List.filter f l) l.
Proof.
  induction l as [|x l IH]; simpl.
  - constructor.
  - destruct (f x); [apply sublist_skip|apply sublist_cons]; exact IH.
Qed.

Lemma filter_nil_iff {A} (f : A -> bool) (l : list A) :
  List.filter f l = [] <-> forall x, In x l -> f x = false.
Proof.
  induction l as [|x l IH]; simpl.
  - split; [intros _ x []|reflexivity].
  - destruct (f x) eqn:Hx.
    + split; [discriminate|]. intros H. specialize (H x (or_introl eq_refl)).
      congruence.
    + rewrite IH. split.
      * intros H y [<-|Hy]; auto.
      * intros H y Hy. apply H. right. exact Hy.
Qed.

Lemma follows_true (s : Suit) (c : Card) :
  GameState.follows (Some s) c = true <->
  card_type c = NUMBER /\ suit c = Some s.
Proof.
  unfold GameState.follows.
  rewrite andb_true_iff, !bool_decide_eq_true. reflexivity.
Qed.

(** C7, as stated, fails in its second example: the hand red 5, blue 3,
    Escape does hold a blue card, so with blue led [get_legal_cards]
    returns the blue 3 alone, not the whole hand. *)
Lemma get_legal_cards_blue_counterexample :
  GameState.get_legal_cards
    (round_with [Number RED 5; Number BLUE 3; Escape]
                [(bot "Bob" 0, Number BLUE 7)])
    (bot "Ann" 0)
  <> Ok [Number RED 5; Number BLUE 3; Escape].
Proof. vm_compute. discriminate. Qed.

(** What the code returns on that input. *)
Example get_legal_cards_blue :
  GameState.get_legal_cards
    (round_with [Number RED 5; Number BLUE 3; Escape]
                [(bot "Bob" 0, Number BLUE 7)])
    (bot "Ann" 0)
  = Ok [Number BLUE 3].
Proof. reflexivity. Qed.

(** C7, amended (the general statement is kept, the second example is
    replaced): when the current trick has a led suit that is a real
    suit, a player with a non-empty hand gets from [get_legal_cards]
    exactly the Number cards of the led suit of the hand if there is
    one, and the whole hand otherwise; in both cases a non-empty
    sub-list of the hand. *)
Theorem get_legal_cards_follow_suit (st : GameState.t) (player : Player)
    (trick : Trick.t) (hand : list Card) (s : Suit) :
  GameState.current_trick st = Some trick ->
  Trick.cards_played trick <> [] ->
  Trick.led_suit trick = Some s ->
  s <> SPECIAL ->
  GameState.hands st !! name player = Some hand ->
  hand <> [] ->
  exists legal,
    GameState.get_legal_cards st player = Ok legal /\
    ((exists c, In c hand /\ card_type c = NUMBER /\ suit c = Some s) ->
     legal = List.filter
               (fun c => bool_decide (card_type c = NUMBER) &&
                         bool_decide (suit c = Some s)) hand) /\
    (~ (exists c, In c hand /\ card_type c = NUMBER /\ suit c = Some s) ->
     legal = hand) /\
    legal <> [] /\
    sublist legal hand.
Proof.
  intros Htrick Hplays Hled Hs Hhand Hne.
  unfold GameState.get_legal_cards. rewrite Htrick.
  destruct (Trick.cards_played trick) as [|p ps] eqn:Hcp; [congruence|].
  rewrite Hled.
  rewrite bool_decide_eq_true_2 by discriminate.
  rewrite bool_decide_eq_true_2 by congruence.
  unfold getitem. rewrite Hhand. simpl.
  change (fun c => bool_decide (card_type c = NUMBER) &&
                   bool_decide (suit c = Some s))
    with (GameState.follows (Some s)).
  destruct (List.filter (GameState.follows (Some s)) hand) as [|c cs] eqn:Hf.
  - exists hand. split; [reflexivity|]. repeat split.
    + intros (c & Hin & Hc). exfalso.
      pose proof (proj1 (filter_nil_iff _ _) Hf c Hin) as Hfalse.
      pose proof (proj2 (follows_true s c) Hc). congruence.
    + exact Hne.
    + reflexivity.
  - exists (c :: cs). split; [reflexivity|]. repeat split.
    + intros Hex. exfalso. apply Hex. exists c.
      assert (Hin : In c (List.filter (GameState.follows (Some s)) hand))
        by (rewrite Hf; left; reflexivity).
      apply filter_In in Hin. destruct Hin as [Hin Hc].
      split; [exact Hin|]. apply follows_true. exact Hc.
    + discriminate.
    + rewrite <- Hf. apply filter_sublist.
Qed.

(** Red is led and Ann holds a red card: the red card alone is legal. *)
Lemma get_legal_cards_follow_suit_witness :
  GameState.get_legal_cards
    (round_with [Number RED 5; Number BLUE 3; Escape]
                [(bot "Bob" 0, Number RED 7)])
    (bot "Ann" 0)
  = Ok [Number RED 5].
Proof.
  destruct (get_legal_cards_follow_suit
              (round_with [Number RED 5; Number BLUE 3; Escape]
                          [(bot "Bob" 0, Number RED 7)])
              (bot "Ann" 0)
              (Trick.of_plays 3 1 None [(bot "Bob" 0, Number RED 7)])
              [Number RED 5; Number BLUE 3; Escape] RED)
    as (legal & Hlegal & Hsome & _).
  - reflexivity.
  - discriminate.
  - reflexivity.
  - discriminate.
  - reflexivity.
  - discriminate.
  - rewrite Hlegal. f_equal. apply Hsome.
    exists (Number RED 5). simpl. auto.
Defined.

(** A hand with no blue card, blue led: the whole hand is legal. *)
Example get_legal_cards_no_blue :
  GameState.get_legal_cards
    (round_with [Number RED 5; Number GREEN 3; Escape]
                [(bot "Bob" 0, Number BLUE 7)])
    (bot "Ann" 0)
  = Ok [Number RED 5; Number GREEN 3; Escape].
Proof. reflexivity. Qed.

(** C2 does not hold of the code: with red led and a red card in hand,
    [get_legal_cards] returns the red card alone, so the Escape of the
    same hand is not legal and [play_card] rejects it, although
    [can_follow_suit] answers that it can be played. *)
Theorem escape_not_legal_when_following :
  let st := round_with [Number RED 5; Escape] [(bot "Bob" 0, Number RED 7)] in
  GameState.get_legal_cards st (bot "Ann" 0) = Ok [Number RED 5] /\
  card_in Escape [Number RED 5] = false /\
  can_follow_suit Escape (Some RED) = true /\
  SkullKingGame.play_card (bot "Ann" 0) Escape (game_with st)
  = (Raise (IllegalPlay Escape [Number RED 5]), game_with st).
Proof. repeat split; reflexivity. Qed.

(** ** Scoring *)

(** The four cases of the score of one player. *)
Lemma round_score_cases (b t r : Z) :
  (b = t -> 0 < b -> SkullKingGame.round_score b t r = b * 20 + 10) /\
  (b = 0 -> t = 0 -> SkullKingGame.round_score b t r = 10 * r) /\
  (b = 0 -> t <> 0 -> SkullKingGame.round_score b t r = -10 * r) /\
  (b <> t -> 0 < b ->
   SkullKingGame.round_score b t r = -10 * Z.abs (b - t)).
Proof.
  unfold SkullKingGame.round_score.
  repeat split; intros;
    repeat match goal with
    | |- context [?x =? ?y] => destruct (Z.eqb_spec x y)
    end; try lia; reflexivity.
Qed.

Example round_score_3_3 : SkullKingGame.round_score 3 3 7 = 70.
Proof. reflexivity. Qed.

Example round_score_0_0_r5 : SkullKingGame.round_score 0 0 5 = 50.
Proof. reflexivity. Qed.

Example round_score_0_2_r5 : SkullKingGame.round_score 0 2 5 = -50.
Proof. reflexivity. Qed.

Example round_score_4_1 : SkullKingGame.round_score 4 1 7 = -30.
Proof. reflexivity. Qed.

(** One turn of the loop of [calculate_scores]. *)
Lemma calculate_scores_loop_cons p ps rs g st b t old :
  SkullKingGame.state g = Some st ->
  GameState.bids st !! name p = Some b ->
  GameState.tricks_won st !! name p = Some t ->
  GameState.scores st !! name p = Some old ->
  let d := SkullKingGame.round_score b t (GameState.round_num st) in
  SkullKingGame.calculate_scores_loop (p :: ps) rs g
  = SkullKingGame.calculate_scores_loop ps (<[name p := d]> rs)
      (SkullKingGame.set_cumulative_scores
         (SkullKingGame.set_state g
            (Some (GameState.set_scores st
                     (<[name p := old + d]> (GameState.scores st)))))
         (<[name p := old + d]> (SkullKingGame.cumulative_scores g))).
Proof.
  intros Hst Hb Ht Ho. simpl.
  unfold bind, get, lift, put, getitem. rewrite Hst, Hb, Ht, Ho. reflexivity.
Qed.

(** The loop of [calculate_scores] runs to its end when every player has
    a bid, a trick count and a score; what it leaves behind. *)
Lemma calculate_scores_loop_spec ps :
  forall rs g st,
    SkullKingGame.state g = Some st ->
    (forall q, In q ps ->
       is_Some (GameState.bids st !! name q) /\
       is_Some (GameState.tricks_won st !! name q) /\
       is_Some (GameState.scores st !! name q)) ->
    exists rs' g' st',
      SkullKingGame.calculate_scores_loop ps rs g = (Ok rs', g') /\
      SkullKingGame.state g' = Some st' /\
      (forall p b t, In p ps ->
         GameState.bids st !! name p = Some b ->
         GameState.tricks_won st !! name p = Some t ->
         rs' !! name p
         = Some (SkullKingGame.round_score b t (GameState.round_num st))) /\
      (forall k, ~ In k (map name ps) ->
         rs' !! k = rs !! k /\
         GameState.scores st' !! k = GameState.scores st !! k /\
         SkullKingGame.cumulative_scores g' !! k
         = SkullKingGame.cumulative_scores g !! k) /\
      (NoDup (map name ps) ->
       forall p b t old, In p ps ->
         GameState.bids st !! name p = Some b ->
         GameState.tricks_won st !! name p = Some t ->
         GameState.scores st !! name p = Some old ->
         let d := SkullKingGame.round_score b t (GameState.round_num st) in
         GameState.scores st' !! name p = Some (old + d) /\
         SkullKingGame.cumulative_scores g' !! name p = Some (old + d)).
Proof.
  induction ps as [|p ps IH]; intros rs g st Hst Hall.
  - exists rs, g, st. simpl. repeat split; try tauto.
    all: intros; contradiction.
  - destruct (Hall p (or_introl eq_refl)) as ([b Hb] & [t Ht] & [old Ho]).
    rewrite (calculate_scores_loop_cons p ps rs g st b t old Hst Hb Ht Ho).
    set (d := SkullKingGame.round_score b t (GameState.round_num st)).
    set (st1 := GameState.set_scores st
                  (<[name p := old + d]> (GameState.scores st))).
    set (g1 := SkullKingGame.set_cumulative_scores
                 (SkullKingGame.set_state g (Some st1))
                 (<[name p := old + d]> (SkullKingGame.cumulative_scores g))).
    destruct (IH (<[name p := d]> rs) g1 st1 eq_refl)
      as (rs' & g' & st' & Hrun & Hst' & Hrs & Hout & Hnd).
    { intros q Hq. destruct (Hall q (or_intror Hq)) as (H1 & H2 & H3).
      repeat split; try assumption. simpl.
      destruct (decide (name p = name q)) as [->|Hne].
      - rewrite lookup_insert_eq. eauto.
      - rewrite lookup_insert_ne by exact Hne. exact H3. }
    exists rs', g', st'. split; [exact Hrun|]. split; [exact Hst'|].
    split; [|split].
    + intros q bq tq Hq Hbq Htq.
      destruct (in_dec String.string_dec (name q) (map name ps)) as [Hin|Hnin].
      * apply in_map_iff in Hin. destruct Hin as (q' & Hname & Hq').
        rewrite <- Hname. apply (Hrs q' bq tq Hq'); rewrite Hname; assumption.
      * destruct Hq as [->|Hq]; [|exfalso; apply Hnin, in_map, Hq].
        destruct (Hout (name q) Hnin) as (-> & _).
        rewrite lookup_insert_eq. subst d. congruence.
    + intros k Hk. simpl in Hk.
      destruct (Hout k (fun H => Hk (or_intror H))) as (-> & -> & ->).
      simpl. rewrite !lookup_insert_ne by (intros E; apply Hk; left; exact E).
      auto.
    + intros Hnodup q bq tq oq Hq Hbq Htq Hoq. simpl in Hnodup.
      apply NoDup_cons in Hnodup. destruct Hnodup as [Hp Hnodup].
      destruct Hq as [->|Hq].
      * destruct (Hout (name q)) as (_ & -> & ->).
        { intros E. apply Hp. apply list_elem_of_In. exact E. }
        simpl. rewrite !lookup_insert_eq. subst d.
        split; congruence.
      * assert (Hneq : name p <> name q).
        { intros E. apply Hp. rewrite E. apply list_elem_of_In.
          apply in_map. exact Hq. }
        apply (Hnd Hnodup q bq tq oq Hq Hbq Htq).
        simpl. rewrite lookup_insert_ne by exact Hneq. exact Hoq.
Qed.

(** C4: [calculate_scores] succeeds when every player has a bid and a
    trick count, and gives the player with bid [b] and [t] tricks won,
    in round [r], the score b*20+10 if b = t and b > 0; 10*r if
    b = t = 0; -10*r if b = 0 and t is not 0; -10*|b-t| if b and t
    differ and b > 0.  With distinct player names that score is also the
    change of the player's score in the round state and of the
    cumulative score. *)
Theorem calculate_scores_delta (g : SkullKingGame.t) (st : GameState.t)
    (p : Player) (b t : Z) :
  SkullKingGame.state g = Some st ->
  (forall q, In q (SkullKingGame.players g) ->
     is_Some (GameState.bids st !! name q) /\
     is_Some (GameState.tricks_won st !! name q) /\
     is_Some (GameState.scores st !! name q)) ->
  In p (SkullKingGame.players g) ->
  GameState.bids st !! name p = Some b ->
  GameState.tricks_won st !! name p = Some t ->
  exists round_scores g' d,
    SkullKingGame.calculate_scores g = (Ok round_scores, g') /\
    round_scores !! name p = Some d /\
    (b = t -> 0 < b -> d = b * 20 + 10) /\
    (b = 0 -> t = 0 -> d = 10 * GameState.round_num st) /\
    (b = 0 -> t <> 0 -> d = -10 * GameState.round_num st) /\
    (b <> t -> 0 < b -> d = -10 * Z.abs (b - t)) /\
    (NoDup (map name (SkullKingGame.players g)) ->
     forall old, GameState.scores st !! name p = Some old ->
       exists st', SkullKingGame.state g' = Some st' /\
                   GameState.scores st' !! name p = Some (old + d) /\
                   SkullKingGame.cumulative_scores g' !! name p
                   = Some (old + d)).
Proof.
  intros Hst Hall Hp Hb Ht.
  destruct (calculate_scores_loop_spec (SkullKingGame.players g) ∅ g st Hst Hall)
    as (rs' & g' & st' & Hrun & Hst' & Hrs & _ & Hnd).
  exists rs', g', (SkullKingGame.round_score b t (GameState.round_num st)).
  split. { unfold SkullKingGame.calculate_scores. rewrite Hst. exact Hrun. }
  split. { apply Hrs; assumption. }
  destruct (round_score_cases b t (GameState.round_num st))
    as (H1 & H2 & H3 & H4).
  repeat split; try assumption.
  intros Hnodup old Hold. exists st'. split; [exact Hst'|].
  apply (Hnd Hnodup p b t old Hp Hb Ht Hold).
Qed.

Lemma calculate_scores_delta_witness :
  exists round_scores g',
    SkullKingGame.calculate_scores (game_with scored_round)
    = (Ok round_scores, g') /\
    round_scores !! "Ann" = Some 70.
Proof.
  destruct (calculate_scores_delta (game_with scored_round) scored_round
              (bot "Ann" 3) 3 3)
    as (rs & g' & d & Hrun & Hd & H1 & _).
  - reflexivity.
  - intros q [<-|[<-|[]]]; repeat split; eexists; reflexivity.
  - left. reflexivity.
  - reflexivity.
  - reflexivity.
  - exists rs, g'. split; [exact Hrun|].
    simpl in Hd. rewrite Hd. f_equal. apply H1; [reflexivity|lia].
Defined.

(** ** Bonuses for capturing the Skull King *)

Lemma dict_from_keys_lookup {V} (ps : list Player) (v : V) (k : string) :
  @dict_from_keys V ps v !! k = if decide (k ∈ map name ps) then Some v else None.
Proof.
  unfold dict_from_keys.
  assert (Hgen : forall (d : gmap string V),
            fold_left (fun d player => <[name player := v]> d) ps d !! k
            = if decide (k ∈ map name ps) then Some v else d !! k).
  { induction ps as [|p ps IH]; intros d.
    - cbn [map fold_left]. case_decide as H; [|reflexivity].
      apply elem_of_nil in H. contradiction.
    - cbn [map fold_left]. rewrite IH.
      destruct (decide (k ∈ map name ps)) as [Hin|Hnin];
        case_decide as H; rewrite elem_of_cons in H.
      + reflexivity.
      + tauto.
      + destruct H as [->|H]; [apply lookup_insert_eq|contradiction].
      + apply lookup_insert_ne. intros E. apply H. left. congruence. }
  rewrite Hgen. destruct (decide (k ∈ map name ps)); [reflexivity|].
  apply lookup_empty.
Qed.

(** The candidate that the loop of [determine_winner] ends with is one
    of the plays. *)
Lemma challenge_in led trump (plays : list (Player * Card)) :
  forall cur, In (fold_left (Trick.challenge led trump) plays cur) (cur :: plays).
Proof.
  induction plays as [|q plays IH]; intros cur; simpl.
  - left. reflexivity.
  - specialize (IH (Trick.challenge led trump cur q)).
    assert (Hc : Trick.challenge led trump cur q = cur \/
                 Trick.challenge led trump cur q = q).
    { unfold Trick.challenge.
      destruct (beats (snd q) (snd cur) led trump); auto. }
    destruct IH as [IH|IH]; [|tauto].
    rewrite <- IH. destruct Hc as [->| ->]; auto.
Qed.

Lemma determine_winner_in (trick : Trick.t) (w : Player) :
  fst (Trick.determine_winner trick) = Some w ->
  exists c, In (w, c) (Trick.cards_played trick).
Proof.
  unfold Trick.determine_winner.
  destruct (Trick.cards_played trick) as [|first rest] eqn:Hcp; [discriminate|].
  simpl. intros [= <-].
  pose proof (challenge_in (Trick.led_suit trick) (Trick.trump_suit trick)
                rest first) as Hin.
  destruct (fold_left _ rest first) as [w c]. exists c. exact Hin.
Qed.

Lemma determine_winner_cards_played (trick : Trick.t) :
  Trick.cards_played (snd (Trick.determine_winner trick))
  = Trick.cards_played trick.
Proof.
  unfold Trick.determine_winner.
  destruct (Trick.cards_played trick) eqn:H; simpl; [exact H|reflexivity].
Qed.

Lemma card_played_by_same_cards (t1 t2 : Trick.t) (w : Player) :
  Trick.cards_played t1 = Trick.cards_played t2 ->
  SkullKingGame.card_played_by t1 w = SkullKingGame.card_played_by t2 w.
Proof. intros H. unfold SkullKingGame.card_played_by. rewrite H. reflexivity. Qed.

(** The winner of a trick has played a card in it, so [next] finds one. *)
Lemma card_played_by_winner (trick : Trick.t) (w : Player) :
  fst (Trick.determine_winner trick) = Some w ->
  exists c, SkullKingGame.card_played_by trick w = Ok c.
Proof.
  intros Hw. apply determine_winner_in in Hw. destruct Hw as [c Hin].
  unfold SkullKingGame.card_played_by.
  destruct (find _ (Trick.cards_played trick)) as [pc|] eqn:Hfind.
  - eexists. reflexivity.
  - exfalso. apply (find_none _ _ Hfind) in Hin. simpl in Hin.
    unfold Player_eq in Hin. rewrite bool_decide_eq_true_2 in Hin by reflexivity.
    discriminate.
Qed.

(** The body of the first loop and [loop_trick_bonus]. *)
Lemma trick_bonus_spec (bonuses : gmap string Z) (trick : Trick.t) :
  (forall pc, In pc (Trick.cards_played trick) ->
              is_Some (bonuses !! name (fst pc))) ->
  exists bonuses' trick',
    SkullKingGame.trick_bonus bonuses trick = (Ok bonuses', trick') /\
    Trick.cards_played trick' = Trick.cards_played trick /\
    forall k, bonuses' !! k
              = (fun v => v + loop_trick_bonus trick k) <$> bonuses !! k.
Proof.
  intros Hdom.
  assert (Hid : forall k, bonuses !! k = (fun v => v + 0) <$> bonuses !! k).
  { intros k. destruct (bonuses !! k); simpl; [f_equal; lia|reflexivity]. }
  assert (Hadd : forall w a, is_Some (bonuses !! name w) ->
            exists b', SkullKingGame.add_bonus bonuses w a = Ok b' /\
              forall k, b' !! k
                = (fun v => v + (if bool_decide (name w = k) then a else 0))
                    <$> bonuses !! k).
  { intros w a [v Hv]. unfold SkullKingGame.add_bonus, getitem. rewrite Hv.
    eexists. split; [reflexivity|]. intros k.
    case_bool_decide as Hk.
    - subst k. rewrite lookup_insert_eq, Hv. reflexivity.
    - rewrite lookup_insert_ne by exact Hk. apply Hid. }
  unfold SkullKingGame.trick_bonus, loop_trick_bonus.
  destruct (SkullKingGame.skull_king_played trick).
  2: { exists bonuses, trick. repeat split. exact Hid. }
  pose proof (determine_winner_cards_played trick) as Hcp.
  pose proof (card_played_by_winner trick) as Hcard.
  pose proof (determine_winner_in trick) as Hin.
  destruct (Trick.determine_winner trick) as [[w|] trick'] eqn:Hdw;
    simpl in Hcp, Hcard, Hin |- *.
  2: { exists bonuses, trick'. repeat split; [exact Hcp|exact Hid]. }
  destruct (Hcard w eq_refl) as [c Hc].
  rewrite (card_played_by_same_cards trick' trick w Hcp), Hc.
  destruct (Hin w eq_refl) as [c0 Hin0].
  pose proof (Hdom _ Hin0) as Hsome. simpl in Hsome.
  destruct (bool_decide (card_type c = MERMAID)).
  - destruct (Hadd w 100 Hsome) as (b' & -> & Hb').
    exists b', trick'. repeat split; [exact Hcp|]. intros k. rewrite Hb'.
    destruct (bool_decide (name w = k)); reflexivity.
  - destruct (bool_decide (card_type c = PIRATE)).
    + destruct (Hadd w 50 Hsome) as (b' & -> & Hb').
      exists b', trick'. repeat split; [exact Hcp|]. intros k. rewrite Hb'.
      destruct (bool_decide (name w = k)); reflexivity.
    + exists bonuses, trick'. repeat split; [exact Hcp|]. intros k.
      rewrite (Hid k) at 1. destruct (bool_decide (name w = k)); reflexivity.
Qed.

(** The first loop and [loop_round_bonus]. *)
Lemma bonus_loop_spec (tricks : list Trick.t) :
  forall bonuses,
    (forall trick pc, In trick tricks -> In pc (Trick.cards_played trick) ->
                      is_Some (bonuses !! name (fst pc))) ->
    exists bonuses' tricks',
      SkullKingGame.bonus_loop tricks bonuses = (Ok bonuses', tricks') /\
      map Trick.cards_played tricks' = map Trick.cards_played tricks /\
      forall k, bonuses' !! k
                = (fun v => v + loop_round_bonus tricks k) <$> bonuses !! k.
Proof.
  induction tricks as [|trick tricks IH]; intros bonuses Hdom; simpl.
  - exists bonuses, []. repeat split. intros k.
    destruct (bonuses !! k); simpl; [f_equal; lia|reflexivity].
  - destruct (trick_bonus_spec bonuses trick) as (b1 & trick' & -> & Hcp & Hb1).
    { intros pc Hpc. apply (Hdom trick pc); [left; reflexivity|exact Hpc]. }
    destruct (IH b1) as (b2 & tricks' & -> & Hcps & Hb2).
    { intros t pc Ht Hpc. rewrite Hb1.
      destruct (Hdom t pc (or_intror Ht) Hpc) as [v ->]. simpl. eauto. }
    exists b2, (trick' :: tricks'). split; [reflexivity|].
    split; [simpl; congruence|].
    intros k. rewrite Hb2, Hb1.
    destruct (bonuses !! k); simpl; [f_equal; lia|reflexivity].
Qed.

(** One turn of the second loop. *)
Lemma apply_bonuses_cons p ps bonuses g st old b :
  SkullKingGame.state g = Some st ->
  GameState.scores st !! name p = Some old ->
  bonuses !! name p = Some b ->
  SkullKingGame.apply_bonuses (p :: ps) bonuses g
  = SkullKingGame.apply_bonuses ps bonuses
      (SkullKingGame.set_cumulative_scores
         (SkullKingGame.set_state g
            (Some (GameState.set_scores st
                     (<[name p := old + b]> (GameState.scores st)))))
         (<[name p := old + b]> (SkullKingGame.cumulative_scores g))).
Proof.
  intros Hst Ho Hb. simpl.
  unfold bind, get, lift, put, getitem. rewrite Hst, Ho, Hb. reflexivity.
Qed.

(** The second loop adds to each score its bonus, once per entry of the
    player list. *)
Lemma apply_bonuses_spec bonuses ps :
  forall g st,
    SkullKingGame.state g = Some st ->
    (forall q, In q ps -> is_Some (GameState.scores st !! name q) /\
                          is_Some (bonuses !! name q)) ->
    exists g' st',
      SkullKingGame.apply_bonuses ps bonuses g = (Ok tt, g') /\
      SkullKingGame.state g' = Some st' /\
      (forall k, ~ In k (map name ps) ->
         GameState.scores st' !! k = GameState.scores st !! k /\
         SkullKingGame.cumulative_scores g' !! k
         = SkullKingGame.cumulative_scores g !! k) /\
      (NoDup (map name ps) ->
       forall p old b, In p ps ->
         GameState.scores st !! name p = Some old ->
         bonuses !! name p = Some b ->
         GameState.scores st' !! name p = Some (old + b) /\
         SkullKingGame.cumulative_scores g' !! name p = Some (old + b)).
Proof.
  induction ps as [|p ps IH]; intros g st Hst Hall.
  - exists g, st. simpl. repeat split; try tauto. all: intros; contradiction.
  - destruct (Hall p (or_introl eq_refl)) as ([old Ho] & [b Hb]).
    rewrite (apply_bonuses_cons p ps bonuses g st old b Hst Ho Hb).
    set (st1 := GameState.set_scores st
                  (<[name p := old + b]> (GameState.scores st))).
    set (g1 := SkullKingGame.set_cumulative_scores
                 (SkullKingGame.set_state g (Some st1))
                 (<[name p := old + b]> (SkullKingGame.cumulative_scores g))).
    destruct (IH g1 st1 eq_refl) as (g' & st' & Hrun & Hst' & Hout & Hnd).
    { intros q Hq. destruct (Hall q (or_intror Hq)) as (H1 & H2).
      split; [|exact H2]. simpl.
      destruct (decide (name p = name q)) as [->|Hne].
      - rewrite lookup_insert_eq. eauto.
      - rewrite lookup_insert_ne by exact Hne. exact H1. }
    exists g', st'. split; [exact Hrun|]. split; [exact Hst'|]. split.
    + intros k Hk. simpl in Hk.
      destruct (Hout k (fun H => Hk (or_intror H))) as (-> & ->).
      simpl. rewrite !lookup_insert_ne by (intros E; apply Hk; left; exact E).
      auto.
    + intros Hnodup q oq bq Hq Hoq Hbq. simpl in Hnodup.
      apply NoDup_cons in Hnodup. destruct Hnodup as [Hp Hnodup].
      destruct Hq as [->|Hq].
      * destruct (Hout (name q)) as (-> & ->).
        { intros E. apply Hp. apply list_elem_of_In. exact E. }
        simpl. rewrite !lookup_insert_eq. split; congruence.
      * assert (Hneq : name p <> name q).
        { intros E. apply Hp. rewrite E. apply list_elem_of_In.
          apply in_map. exact Hq. }
        apply (Hnd Hnodup q oq bq Hq); [|exact Hbq].
        simpl. rewrite lookup_insert_ne by exact Hneq. exact Hoq.
Qed.

(** The candidate that [determine_winner] keeps is the play that the
    specification's resolution keeps. *)
Lemma spec_resolve_fold led_suit trump_suit later :
  forall candidate,
    spec_resolve led_suit trump_suit candidate later
    = fold_left (Trick.challenge led_suit trump_suit) later candidate.
Proof.
  induction later as [|play rest IH]; intros candidate; simpl.
  - reflexivity.
  - rewrite IH. unfold Trick.challenge. destruct play, candidate. reflexivity.
Qed.

Lemma skull_king_played_Exists trick :
  SkullKingGame.skull_king_played trick
  = bool_decide (Exists (fun play => card_type (snd play) = SKULL_KING)
                        (Trick.cards_played trick)).
Proof.
  unfold SkullKingGame.skull_king_played.
  destruct (existsb _ _) eqn:E; symmetry.
  - apply bool_decide_eq_true_2.
    apply existsb_exists in E. destruct E as (play & Hin & Hc).
    apply Exists_exists. exists play.
    split; [apply list_elem_of_In; exact Hin|].
    apply bool_decide_eq_true in Hc. exact Hc.
  - apply bool_decide_eq_false_2. intros Hex.
    apply Exists_exists in Hex. destruct Hex as (play & Hin & Hc).
    assert (Et : existsb
                   (fun pc => bool_decide (card_type (snd pc) = SKULL_KING))
                   (Trick.cards_played trick) = true).
    { apply existsb_exists. exists play.
      split; [apply list_elem_of_In; exact Hin|].
      apply bool_decide_eq_true_2. exact Hc. }
    congruence.
Qed.

(** When no two plays of a trick are by players of one name, the first
    card played by the player of a play is the card of that play. *)
Lemma card_played_by_unique (plays : list (Player * Card)) w c :
  NoDup (map (fun play => name (fst play)) plays) ->
  In (w, c) plays ->
  find (fun play => Player_eq (fst play) w) plays = Some (w, c).
Proof.
  induction plays as [|[q d] rest IH]; intros Hnd Hin; [destruct Hin|].
  simpl in Hnd. apply NoDup_cons in Hnd. destruct Hnd as [Hq Hrest].
  simpl. destruct (Player_eq q w) eqn:Hqw.
  - destruct Hin as [E|Hin]; [congruence|].
    exfalso. apply Hq.
    unfold Player_eq in Hqw. apply bool_decide_eq_true in Hqw. rewrite Hqw.
    apply list_elem_of_In.
    apply (in_map (fun play => name (fst play)) rest (w, c) Hin).
  - destruct Hin as [E|Hin].
    + inversion E; subst. unfold Player_eq in Hqw.
      apply bool_decide_eq_false in Hqw. contradiction.
    + apply IH; assumption.
Qed.

(** A trick in which every player has at most one play: the loop's
    contribution is the specification's. *)
Lemma loop_trick_bonus_spec trick k :
  NoDup (map (fun play => name (fst play)) (Trick.cards_played trick)) ->
  loop_trick_bonus trick k = spec_trick_bonus trick k.
Proof.
  intros Hnd. unfold loop_trick_bonus, spec_trick_bonus.
  rewrite skull_king_played_Exists.
  destruct (bool_decide (Exists _ _)); [|reflexivity].
  unfold Trick.determine_winner, spec_winning_play,
    SkullKingGame.card_played_by.
  destruct (Trick.cards_played trick) as [|first rest] eqn:Hplays;
    [reflexivity|].
  rewrite spec_resolve_fold.
  assert (Hin : In (fold_left (Trick.challenge (Trick.led_suit trick)
                                               (Trick.trump_suit trick))
                              rest first) (first :: rest))
    by apply challenge_in.
  destruct (fold_left _ rest first) as [w c] eqn:Hfold.
  cbn [fst snd].
  case_bool_decide; [|reflexivity].
  rewrite (card_played_by_unique (first :: rest) w c Hnd Hin).
  reflexivity.
Qed.

Lemma loop_round_bonus_spec tricks k :
  (forall trick, In trick tricks ->
     NoDup (map (fun play => name (fst play)) (Trick.cards_played trick))) ->
  loop_round_bonus tricks k = spec_round_bonus tricks k.
Proof.
  induction tricks as [|trick rest IH]; intros Hnd; simpl; [reflexivity|].
  rewrite (loop_trick_bonus_spec trick k) by (apply Hnd; left; reflexivity).
  rewrite IH by (intros t Ht; apply Hnd; right; exact Ht).
  reflexivity.
Qed.

(** What [check_special_bonuses] computes in general, with the card
    that the code looks up (the first card the winner played). *)
Lemma check_special_bonuses_loop (g : SkullKingGame.t) (st : GameState.t) :
  SkullKingGame.state g = Some st ->
  (forall trick pc,
     In trick (GameState.tricks st) -> In pc (Trick.cards_played trick) ->
     In (name (fst pc)) (map name (SkullKingGame.players g))) ->
  (forall q, In q (SkullKingGame.players g) ->
             is_Some (GameState.scores st !! name q)) ->
  exists bonuses g' st',
    SkullKingGame.check_special_bonuses g = (Ok bonuses, g') /\
    SkullKingGame.state g' = Some st' /\
    forall p, In p (SkullKingGame.players g) ->
      bonuses !! name p
      = Some (loop_round_bonus (GameState.tricks st) (name p)) /\
      (NoDup (map name (SkullKingGame.players g)) ->
       forall old, GameState.scores st !! name p = Some old ->
         GameState.scores st' !! name p
         = Some (old + loop_round_bonus (GameState.tricks st) (name p))).
Proof.
  intros Hst Htricks Hscores.
  unfold SkullKingGame.check_special_bonuses. rewrite Hst.
  destruct (bonus_loop_spec (GameState.tricks st)
              (dict_from_keys (SkullKingGame.players g) 0))
    as (bonuses & tricks' & -> & _ & Hb).
  { intros trick pc Ht Hpc. rewrite dict_from_keys_lookup.
    rewrite decide_True; [eauto|].
    apply list_elem_of_In. apply (Htricks trick pc Ht Hpc). }
  assert (Hbon : forall p, In p (SkullKingGame.players g) ->
            bonuses !! name p
            = Some (loop_round_bonus (GameState.tricks st) (name p))).
  { intros p Hp. rewrite Hb, dict_from_keys_lookup.
    rewrite decide_True by (apply list_elem_of_In, in_map, Hp).
    simpl. reflexivity. }
  set (st1 := GameState.set_tricks st tricks').
  set (g1 := SkullKingGame.set_state g (Some st1)).
  destruct (apply_bonuses_spec bonuses (SkullKingGame.players g) g1 st1 eq_refl)
    as (g' & st' & Hrun & Hst' & _ & Hnd).
  { intros q Hq. split; [apply (Hscores q Hq)|]. rewrite (Hbon q Hq). eauto. }
  exists bonuses, g', st'. unfold bind. fold st1. fold g1.
  rewrite Hrun. split; [reflexivity|]. split; [exact Hst'|].
  intros p Hp. split; [exact (Hbon p Hp)|].
  intros Hnodup old Hold.
  apply (Hnd Hnodup p old _ Hp Hold (Hbon p Hp)).
Qed.

(** Steps of [round_reachable], with the state that the call leaves. *)
Lemma reach_play_snd shuffle g0 round_num player card g :
  round_reachable shuffle g0 round_num g ->
  round_reachable shuffle g0 round_num
    (snd (SkullKingGame.play_card player card g)).
Proof.
  intros Hg.
  destruct (SkullKingGame.play_card player card g) as [r g'] eqn:Hrun.
  exact (reach_play _ _ _ player card r g g' Hg Hrun).
Qed.

Lemma reach_trick_snd shuffle g0 round_num g :
  round_reachable shuffle g0 round_num g ->
  (forall st, SkullKingGame.state g = Some st ->
              cards_in_current (GameState.current_trick st) = 0%nat) ->
  is_Some (SkullKingGame.state g) ->
  round_reachable shuffle g0 round_num (snd (SkullKingGame.start_trick g)).
Proof.
  intros Hg Hcur [st Hst].
  destruct (SkullKingGame.start_trick g) as [[trick|e] g'] eqn:Hrun.
  - exact (reach_trick _ _ _ trick g g' Hg Hcur Hrun).
  - unfold SkullKingGame.start_trick, SkullKingGame.on_state in Hrun.
    rewrite Hst in Hrun. simpl in Hrun. discriminate Hrun.
Qed.

Lemma list_remove_Permutation card cards rest :
  list_remove card cards = Some rest -> Permutation cards (card :: rest).
Proof.
  revert rest. induction cards as [|c cards IH]; intros rest H; simpl in H.
  - discriminate.
  - destruct (Card_eq c card) eqn:Hc.
    + apply Card_eq_true in Hc. injection H as <-. subst c. reflexivity.
    + destruct (list_remove card cards) as [rest'|]; simpl in H;
        [|discriminate].
      injection H as <-. rewrite (IH rest' eq_refl). apply perm_swap.
Qed.

Lemma to_top_Permutation card cards : Permutation cards (to_top card cards).
Proof.
  unfold to_top. destruct (list_remove card cards) as [rest|] eqn:H.
  - apply list_remove_Permutation. exact H.
  - reflexivity.
Qed.

Lemma stacked_Permutation cards : Permutation cards (stacked cards).
Proof.
  unfold stacked.
  rewrite <- !to_top_Permutation. reflexivity.
Qed.

(** The round of [double_play_done] is a round of the engine. *)
Lemma double_play_done_reachable :
  round_reachable stacked game_of_three 2 double_play_done.
Proof.
  assert (Hstart : round_reachable stacked game_of_three 2 double_play_start).
  { unfold double_play_start.
    destruct (SkullKingGame.start_round stacked 2 game_of_three)
      as [[st|e] g] eqn:Hstart; [|vm_compute in Hstart; discriminate Hstart].
    apply (reach_start _ _ _ st g). exact Hstart. }
  assert (Htrick : round_reachable stacked game_of_three 2 double_play_trick).
  { unfold double_play_trick. do 3 apply reach_play_snd.
    apply reach_trick_snd; [exact Hstart| |].
    - intros st Hst. vm_compute in Hst. injection Hst as <-.
      vm_compute. reflexivity.
    - vm_compute. eexists. reflexivity. }
  unfold double_play_done. do 3 apply reach_play_snd.
  apply reach_trick_snd; [exact Htrick| |].
  - intros st Hst. vm_compute in Hst. injection Hst as <-.
    vm_compute. reflexivity.
  - vm_compute. eexists. reflexivity.
Qed.

(** The completed round of [double_play_done]: the first trick has three
    plays for three players, the SkullKing among them, and is taken by
    Ann's Mermaid; all hands are empty. *)
Example double_play_round :
  SkullKingGame.is_round_complete double_play_done = true /\
  ((fun st =>
     (map (fun trick =>
             (map (fun play => (name (fst play), snd play))
                  (Trick.cards_played trick),
              name <$> Trick.winner trick,
              (fun play => (name (fst play), snd play))
                <$> spec_winning_play trick))
          (GameState.tricks st),
      GameState.current_trick st,
      map (fun k => GameState.hands st !! k) ["Ann"; "Bob"; "Cid"]))
    <$> SkullKingGame.state double_play_done)
  = Some ([([("Ann", Number RED 1); ("Ann", Mermaid); ("Bob", SkullKing)],
            Some "Ann", Some ("Ann", Mermaid));
           ([("Bob", Number BLUE 1); ("Cid", Number RED 2);
             ("Cid", Number RED 3)],
            Some "Bob", Some ("Bob", Number BLUE 1))],
          None,
          [Some []; Some []; Some []]).
Proof. split; vm_compute; reflexivity. Qed.

(** C5, as stated, fails, even for players of distinct names: the round
    of [double_play_done] is complete, its first trick has a SkullKing
    among its plays and its winning play is Ann's Mermaid, so the
    specification gives Ann +100; [check_special_bonuses] looks up the
    first card that Ann played in the trick, the red 1, returns a bonus
    of 0 for her and leaves her score as it was. *)
Lemma check_special_bonuses_counterexample :
  ~ (forall shuffle g0 round_num (g : SkullKingGame.t) (st : GameState.t)
            bonuses g' st',
       (forall l, Permutation l (shuffle l)) ->
       NoDup (map name (SkullKingGame.players g0)) ->
       round_reachable shuffle g0 round_num g ->
       SkullKingGame.is_round_complete g = true ->
       SkullKingGame.state g = Some st ->
       SkullKingGame.check_special_bonuses g = (Ok bonuses, g') ->
       SkullKingGame.state g' = Some st' ->
       forall p old,
         In p (SkullKingGame.players g) ->
         GameState.scores st !! name p = Some old ->
         bonuses !! name p
         = Some (spec_round_bonus (GameState.tricks st) (name p)) /\
         GameState.scores st' !! name p
         = Some (old + spec_round_bonus (GameState.tricks st) (name p))).
Proof.
  intros H.
  destruct (SkullKingGame.state double_play_done) as [st|] eqn:Hst;
    [|vm_compute in Hst; discriminate].
  destruct (SkullKingGame.check_special_bonuses double_play_done)
    as [[bonuses|e] g'] eqn:Hrun; [|vm_compute in Hrun; discriminate].
  destruct (SkullKingGame.state g') as [st'|] eqn:Hst'.
  2:{ assert (E : is_Some (SkullKingGame.state
                   (snd (SkullKingGame.check_special_bonuses double_play_done))))
        by (vm_compute; eexists; reflexivity).
      rewrite Hrun in E. simpl in E. rewrite Hst' in E.
      destruct E as [? E]. discriminate E. }
  assert (Hspec : spec_round_bonus (GameState.tricks st) "Ann" = 100).
  { assert (E : (fun st' => spec_round_bonus (GameState.tricks st') "Ann")
                  <$> SkullKingGame.state double_play_done
                = Some 100) by (vm_compute; reflexivity).
    rewrite Hst in E. simpl in E. congruence. }
  assert (Hold : GameState.scores st !! "Ann" = Some 0).
  { assert (E : SkullKingGame.state double_play_done
                  ≫= (fun st' => GameState.scores st' !! "Ann")
                = Some 0) by (vm_compute; reflexivity).
    rewrite Hst in E. exact E. }
  assert (Hcode : bonuses !! "Ann" = Some 0).
  { assert (E : match SkullKingGame.check_special_bonuses double_play_done with
                | (Ok b, _) => b !! "Ann"
                | _ => None
                end = Some 0) by (vm_compute; reflexivity).
    rewrite Hrun in E. exact E. }
  destruct (H stacked game_of_three 2 double_play_done st bonuses g' st'
              stacked_Permutation
              ltac:(apply (bool_decide_unpack _); vm_compute; exact I)
              double_play_done_reachable
              ltac:(vm_compute; reflexivity)
              Hst Hrun Hst' (bot "Ann" 0) 0
              ltac:(vm_compute; left; reflexivity) Hold) as [Hb _].
  change (name (bot "Ann" 0)) with "Ann" in Hb.
  rewrite Hspec, Hcode in Hb. discriminate.
Qed.

(** C5, amended: in a round whose completed tricks hold at most one play
    per player name, all by players of the game, and whose players have
    a score each, [check_special_bonuses] succeeds; the bonus it returns
    for a player is the sum, over the completed tricks, of +100 for each
    trick with a SkullKing among its plays whose winning play is a
    Mermaid of that player, +50 for each whose winning play is a Pirate
    of that player, and nothing for any other trick; and, when the
    players have distinct names, it adds that bonus to the player's
    score. *)
Theorem check_special_bonuses_spec (g : SkullKingGame.t) (st : GameState.t) :
  SkullKingGame.state g = Some st ->
  (forall trick, In trick (GameState.tricks st) ->
     NoDup (map (fun play => name (fst play)) (Trick.cards_played trick))) ->
  (forall trick pc,
     In trick (GameState.tricks st) -> In pc (Trick.cards_played trick) ->
     In (name (fst pc)) (map name (SkullKingGame.players g))) ->
  (forall q, In q (SkullKingGame.players g) ->
             is_Some (GameState.scores st !! name q)) ->
  exists bonuses g' st',
    SkullKingGame.check_special_bonuses g = (Ok bonuses, g') /\
    SkullKingGame.state g' = Some st' /\
    forall p, In p (SkullKingGame.players g) ->
      bonuses !! name p
      = Some (spec_round_bonus (GameState.tricks st) (name p)) /\
      (NoDup (map name (SkullKingGame.players g)) ->
       forall old, GameState.scores st !! name p = Some old ->
         GameState.scores st' !! name p
         = Some (old + spec_round_bonus (GameState.tricks st) (name p))).
Proof.
  intros Hst Hplays Htricks Hscores.
  destruct (check_special_bonuses_loop g st Hst Htricks Hscores)
    as (bonuses & g' & st' & Hrun & Hst' & Hb).
  exists bonuses, g', st'. split; [exact Hrun|]. split; [exact Hst'|].
  intros p Hp. destruct (Hb p Hp) as [Hbon Hsc].
  rewrite (loop_round_bonus_spec _ _ Hplays) in Hbon, Hsc.
  split; [exact Hbon|exact Hsc].
Qed.

Lemma check_special_bonuses_spec_witness :
  exists bonuses g' st',
    SkullKingGame.check_special_bonuses (game_with captured_round)
    = (Ok bonuses, g') /\
    SkullKingGame.state g' = Some st' /\
    bonuses !! "Bob" = Some 100 /\
    bonuses !! "Ann" = Some 0 /\
    GameState.scores st' !! "Bob"
    = (fun old => old + 100) <$> GameState.scores captured_round !! "Bob".
Proof.
  destruct (check_special_bonuses_spec (game_with captured_round) captured_round)
    as (bonuses & g' & st' & Hrun & Hst' & Hb).
  - reflexivity.
  - intros trick [<-|[<-|[]]]; apply (bool_decide_unpack _); vm_compute; exact I.
  - intros trick pc [<-|[<-|[]]] [<-|[<-|[]]]; simpl; auto.
  - intros q [<-|[<-|[]]]; eexists; reflexivity.
  - exists bonuses, g', st'. split; [exact Hrun|]. split; [exact Hst'|].
    assert (HB : In (bot "Bob" 1)
                    (SkullKingGame.players (game_with captured_round)))
      by (simpl; auto).
    assert (HA : In (bot "Ann" 1)
                    (SkullKingGame.players (game_with captured_round)))
      by (simpl; auto).
    split; [exact (proj1 (Hb _ HB))|]. split; [exact (proj1 (Hb _ HA))|].
    destruct (GameState.scores captured_round !! "Bob") as [old|] eqn:Hold.
    + apply (proj2 (Hb _ HB)).
      * apply (bool_decide_unpack _). vm_compute. exact I.
      * exact Hold.
    + vm_compute in Hold. discriminate.
Defined.

(** Neither a trick without a SkullKing nor a trick that the SkullKing
    wins gives a bonus. *)
Example spec_trick_bonus_no_skull_king :
  spec_trick_bonus
    (Trick.of_plays 2 2 None [(bot "Bob" 1, Pirate); (bot "Ann" 1, Number RED 4)])
    "Bob" = 0.
Proof. vm_compute. reflexivity. Qed.

Example spec_trick_bonus_skull_king_wins :
  spec_trick_bonus
    (Trick.of_plays 2 1 None [(bot "Ann" 1, SkullKing); (bot "Bob" 1, Number RED 4)])
    "Ann" = 0.
Proof. vm_compute. reflexivity. Qed.

(** ** Bidding *)

(** One turn of the loop of [collect_bids]. *)
Lemma collect_bids_loop_cons q ps local st :
  is_Some (GameState.hands st !! name q) ->
  SkullKingGame.collect_bids_loop (q :: ps) local st
  = if (bid_of st q <? 0) || (GameState.round_num st <? bid_of st q)
    then (Raise (InvalidBid (name q) (bid_of st q)), st)
    else SkullKingGame.collect_bids_loop ps
           (<[name q := bid_of st q]> local) (record_bid st q).
Proof.
  intros [hand Hhand].
  assert (Hbid : bid_of st q
                 = make_bid q hand (GameState.round_num st) (GameState.bids st)).
  { unfold bid_of. rewrite Hhand. reflexivity. }
  unfold record_bid. rewrite Hbid. simpl.
  unfold bind, get, lift, put, getitem, raise.
  rewrite Hhand. simpl.
  destruct ((_ <? 0) || (_ <? _)); reflexivity.
Qed.

Lemma out_of_range_iff (r b : Z) :
  (b <? 0) || (r <? b) = true <-> b < 0 \/ r < b.
Proof. rewrite orb_true_iff, !Z.ltb_lt. reflexivity. Qed.

Lemma in_range_iff (r b : Z) :
  (0 <=? b) && (b <=? r) = true <-> ~ (b < 0 \/ r < b).
Proof. rewrite andb_true_iff, !Z.leb_le. lia. Qed.

Lemma record_bid_hands st q :
  GameState.hands (record_bid st q) = GameState.hands st.
Proof. reflexivity. Qed.

Lemma record_bid_round_num st q :
  GameState.round_num (record_bid st q) = GameState.round_num st.
Proof. reflexivity. Qed.

Lemma after_bids_round_num ps :
  forall st, GameState.round_num (after_bids st ps) = GameState.round_num st.
Proof.
  induction ps as [|q ps IH]; intros st; [reflexivity|].
  unfold after_bids in *. simpl. rewrite IH. reflexivity.
Qed.

(** The loop stops at the first bid out of range, with the earlier bids
    recorded. *)
Lemma collect_bids_loop_invalid before :
  forall player after local st,
    (forall q, In q (before ++ player :: after) ->
               is_Some (GameState.hands st !! name q)) ->
    bids_in_range st before = true ->
    (bid_of (after_bids st before) player < 0 \/
     GameState.round_num st < bid_of (after_bids st before) player) ->
    SkullKingGame.collect_bids_loop (before ++ player :: after) local st
    = (Raise (InvalidBid (name player) (bid_of (after_bids st before) player)),
       after_bids st before).
Proof.
  induction before as [|q before IH]; intros player after local st Hh Hv Hb.
  - change (after_bids st []) with st in *. cbn [app] in *.
    rewrite collect_bids_loop_cons by (apply Hh; left; reflexivity).
    rewrite (proj2 (out_of_range_iff _ _) Hb). reflexivity.
  - simpl in Hv. apply andb_true_iff in Hv. destruct Hv as [Hq Hv].
    cbn [app]. rewrite collect_bids_loop_cons by (apply Hh; left; reflexivity).
    apply in_range_iff in Hq.
    destruct ((bid_of st q <? 0) || (GameState.round_num st <? bid_of st q))
      eqn:Hout; [apply out_of_range_iff in Hout; contradiction|].
    change (after_bids st (q :: before))
      with (after_bids (record_bid st q) before) in *.
    apply (IH player after _ (record_bid st q)).
    + intros x Hx. rewrite record_bid_hands. apply Hh. right. exact Hx.
    + exact Hv.
    + exact Hb.
Qed.

(** The loop either records every bid, all in range, or stops at a first
    bid out of range. *)
Lemma collect_bids_loop_cases ps :
  forall local st,
    (forall q, In q ps -> is_Some (GameState.hands st !! name q)) ->
    (bids_in_range st ps = true /\
     exists bids, SkullKingGame.collect_bids_loop ps local st
                  = (Ok bids, after_bids st ps)) \/
    (exists before player after,
       ps = before ++ player :: after /\
       bids_in_range st before = true /\
       (bid_of (after_bids st before) player < 0 \/
        GameState.round_num st < bid_of (after_bids st before) player)).
Proof.
  induction ps as [|q ps IH]; intros local st Hh.
  - left. split; [reflexivity|]. exists local. reflexivity.
  - rewrite collect_bids_loop_cons by (apply Hh; left; reflexivity).
    destruct ((bid_of st q <? 0) || (GameState.round_num st <? bid_of st q))
      eqn:Hout.
    + right. exists [], q, ps. apply out_of_range_iff in Hout. auto.
    + assert (Hin : (0 <=? bid_of st q) &&
                    (bid_of st q <=? GameState.round_num st) = true).
      { apply in_range_iff. intros H. apply out_of_range_iff in H. congruence. }
      destruct (IH (<[name q := bid_of st q]> local) (record_bid st q))
        as [[Hv [bids Hrun]]|(before & player & after & -> & Hv & Hb)].
      * intros x Hx. rewrite record_bid_hands. apply Hh. right. exact Hx.
      * left. simpl. rewrite Hin, Hv. split; [reflexivity|].
        exists bids. exact Hrun.
      * right. exists (q :: before), player, after. simpl.
        rewrite Hin, Hv. auto.
Qed.

(** Recording bids changes the [bids] dict of the round state only. *)
Lemma after_bids_only_bids ps :
  forall st,
    after_bids st ps
    = GameState.set_bids st (GameState.bids (after_bids st ps)).
Proof.
  induction ps as [|q ps IH]; intros st.
  - destruct st. reflexivity.
  - change (after_bids st (q :: ps)) with (after_bids (record_bid st q) ps).
    rewrite (IH (record_bid st q)) at 1. reflexivity.
Qed.

(** C9, as stated, fails in its second half: in a round of 3, Ann bids 1
    and Bob bids 9; [collect_bids] raises for Bob's bid after it has
    recorded Ann's. *)
Lemma collect_bids_atomic_counterexample :
  ~ (forall g st p b g',
       SkullKingGame.state g = Some st ->
       SkullKingGame.collect_bids g = (Raise (InvalidBid p b), g') ->
       exists st', SkullKingGame.state g' = Some st' /\
                   GameState.bids st' = GameState.bids st).
Proof.
  intros H.
  destruct (H (game_with bidding_round) bidding_round "Bob" 9
              (snd (SkullKingGame.collect_bids (game_with bidding_round)))
              eq_refl eq_refl)
    as (st' & Hst' & Hbids).
  vm_compute in Hst'. injection Hst' as <-.
  apply (f_equal (fun m : gmap string Z => m !! "Ann")) in Hbids.
  vm_compute in Hbids. discriminate Hbids.
Qed.

(** C9, amended: when every player has a hand, [collect_bids] fails
    exactly when some player, asked in turn, returns a bid outside
    [0, round_num]; the exception is then the invalid-bid error for the
    first such player, the bids of the players asked before that one
    have been recorded in the bids map of the round state, and nothing
    else of the game has changed. *)
Theorem collect_bids_invalid_iff (g : SkullKingGame.t) (st : GameState.t)
    (e : exn) (g' : SkullKingGame.t) :
  SkullKingGame.state g = Some st ->
  (forall q, In q (SkullKingGame.players g) ->
             is_Some (GameState.hands st !! name q)) ->
  (SkullKingGame.collect_bids g = (Raise e, g') <->
   exists before player after,
     SkullKingGame.players g = before ++ player :: after /\
     bids_in_range st before = true /\
     (bid_of (after_bids st before) player < 0 \/
      GameState.round_num st < bid_of (after_bids st before) player) /\
     e = InvalidBid (name player) (bid_of (after_bids st before) player) /\
     g' = SkullKingGame.set_state g
            (Some (GameState.set_bids st
                     (GameState.bids (after_bids st before))))).
Proof.
  intros Hst Hh.
  unfold SkullKingGame.collect_bids, SkullKingGame.on_state. rewrite Hst.
  split.
  - intros Hrun.
    destruct (collect_bids_loop_cases (SkullKingGame.players g) ∅ st Hh)
      as [[_ [bids Hok]]|(before & player & after & Hsplit & Hv & Hb)].
    + rewrite Hok in Hrun. discriminate Hrun.
    + exists before, player, after.
      rewrite Hsplit in Hrun, Hh.
      rewrite (collect_bids_loop_invalid before player after ∅ st Hh Hv Hb)
        in Hrun.
      injection Hrun as <- <-.
      rewrite <- after_bids_only_bids. auto.
  - intros (before & player & after & Hsplit & Hv & Hb & -> & ->).
    rewrite Hsplit in Hh |- *.
    rewrite (collect_bids_loop_invalid before player after ∅ st Hh Hv Hb).
    rewrite <- after_bids_only_bids. reflexivity.
Qed.

Lemma collect_bids_invalid_iff_witness :
  SkullKingGame.collect_bids (game_with bidding_round)
  = (Raise (InvalidBid "Bob" 9),
     SkullKingGame.set_state (game_with bidding_round)
       (Some (GameState.set_bids bidding_round {[ "Ann" := 1 ]}))).
Proof.
  apply (collect_bids_invalid_iff (game_with bidding_round) bidding_round).
  { reflexivity. }
  { intros q [<-|[<-|[]]]; eexists; reflexivity. }
  exists [bot "Ann" 1], (bot "Bob" 9), [].
  split; [reflexivity|]. split; [reflexivity|].
  split; [right; vm_compute; reflexivity|].
  split; reflexivity.
Defined.

(** When every bid is in range, [collect_bids] returns normally. *)
Lemma collect_bids_ok (g : SkullKingGame.t) (st : GameState.t) :
  SkullKingGame.state g = Some st ->
  (forall q, In q (SkullKingGame.players g) ->
             is_Some (GameState.hands st !! name q)) ->
  bids_in_range st (SkullKingGame.players g) = true ->
  exists bids,
    SkullKingGame.collect_bids g
    = (Ok bids, SkullKingGame.set_state g
                  (Some (after_bids st (SkullKingGame.players g)))).
Proof.
  intros Hst Hh Hv.
  unfold SkullKingGame.collect_bids, SkullKingGame.on_state. rewrite Hst.
  destruct (collect_bids_loop_cases (SkullKingGame.players g) ∅ st Hh)
    as [[_ [bids Hok]]|(before & player & after & Hsplit & Hvb & Hb)].
  - exists bids. rewrite Hok. reflexivity.
  - exfalso. rewrite Hsplit in Hv. clear Hsplit Hh Hst.
    revert st Hv Hvb Hb. induction before as [|q before IH]; intros st Hv Hvb Hb.
    + simpl in Hv. change (after_bids st []) with st in Hb.
      apply andb_true_iff in Hv. destruct Hv as [Hv _].
      apply in_range_iff in Hv. contradiction.
    + simpl in Hv, Hvb.
      apply andb_true_iff in Hv. destruct Hv as [_ Hv].
      apply andb_true_iff in Hvb. destruct Hvb as [_ Hvb].
      apply (IH (record_bid st q) Hv Hvb Hb).
Qed.

(** ** Conservation of the cards of a round *)

Lemma create_deck_length : length create_deck = 63%nat.
Proof. reflexivity. Qed.

(** The composition of the deck that [_create_deck] builds. *)
Lemma create_deck_composition :
  count_type NUMBER create_deck = 52%nat /\
  count_type ESCAPE create_deck = 5%nat /\
  count_type MERMAID create_deck = 2%nat /\
  count_type PIRATE create_deck = 2%nat /\
  count_type SKULL_KING create_deck = 1%nat /\
  count_type TIGRESS create_deck = 1%nat /\
  count_type JOLLY_ROGER create_deck = 0%nat /\
  Forall (fun c => card_ok c = true) create_deck.
Proof.
  repeat split; try (vm_compute; reflexivity).
  apply Forall_forall. intros c Hc.
  apply list_elem_of_In in Hc. vm_compute in Hc.
  repeat (destruct Hc as [<-|Hc]; [reflexivity|]). contradiction.
Qed.

Lemma cards_in_hands_insert_new (hands : gmap string (list Card)) k hand :
  hands !! k = None ->
  cards_in_hands (<[k := hand]> hands)
  = (length hand + cards_in_hands hands)%nat.
Proof.
  intros H. unfold cards_in_hands.
  rewrite map_fold_insert_L; [reflexivity| |exact H].
  intros. lia.
Qed.

Lemma cards_in_hands_delete (hands : gmap string (list Card)) k hand :
  hands !! k = Some hand ->
  cards_in_hands hands
  = (length hand + cards_in_hands (delete k hands))%nat.
Proof.
  intros H. unfold cards_in_hands.
  rewrite (map_fold_delete_L _ _ k hand hands); [reflexivity| |exact H].
  intros. lia.
Qed.

Lemma cards_in_hands_insert_old (hands : gmap string (list Card)) k old hand :
  hands !! k = Some old ->
  (cards_in_hands (<[k := hand]> hands) + length old
   = length hand + cards_in_hands hands)%nat.
Proof.
  intros H. rewrite <- insert_delete_eq.
  rewrite cards_in_hands_insert_new by apply lookup_delete_eq.
  rewrite (cards_in_hands_delete hands k old H). lia.
Qed.

Lemma cards_in_tricks_app (ts : list Trick.t) (trick : Trick.t) :
  cards_in_tricks (ts ++ [trick])
  = (cards_in_tricks ts + length (Trick.cards_played trick))%nat.
Proof.
  unfold cards_in_tricks.
  induction ts as [|t ts IH]; simpl; [lia|]. rewrite IH. lia.
Qed.

Lemma list_remove_length card hand hand' :
  list_remove card hand = Some hand' -> length hand = S (length hand').
Proof.
  revert hand'. induction hand as [|c hand IH]; intros hand'; simpl.
  - discriminate.
  - destruct (Card_eq c card).
    + intros [= <-]. reflexivity.
    + destruct (list_remove card hand) as [rest|]; simpl; [|discriminate].
      intros [= <-]. simpl. rewrite (IH rest eq_refl). reflexivity.
Qed.

(** [deal] splits the deck: nothing is lost, for any integer request. *)
Lemma deal_length cards n dealt remaining :
  deal cards n = Ok (dealt, remaining) ->
  (length dealt + length remaining = length cards)%nat.
Proof.
  unfold deal. destruct (Z.of_nat (length cards) <? n); [discriminate|].
  intros [= <- <-]. unfold slice_to, slice_from.
  rewrite <- length_app, firstn_skipn. reflexivity.
Qed.

(** The dealing loop moves cards from the deck to the hands. *)
Lemma deal_hands_total ps n :
  forall state cards state' cards',
    NoDup (map name ps) ->
    (forall p, In p ps -> GameState.hands state !! name p = None) ->
    SkullKingGame.deal_hands ps n state cards = (Ok state', cards') ->
    (cards_in_hands (GameState.hands state') + length cards'
     = cards_in_hands (GameState.hands state) + length cards)%nat /\
    GameState.tricks state' = GameState.tricks state /\
    GameState.current_trick state' = GameState.current_trick state.
Proof.
  induction ps as [|p ps IH]; intros state cards state' cards' Hnd Hfresh Hrun.
  - simpl in Hrun. injection Hrun as <- <-. auto.
  - simpl in Hrun. unfold bind, get in Hrun.
    destruct (deal cards n) as [[dealt remaining]|e] eqn:Hdeal;
      [|discriminate Hrun].
    unfold put in Hrun. simpl in Hnd.
    apply NoDup_cons in Hnd. destruct Hnd as [Hp Hnd].
    apply IH in Hrun; [|exact Hnd|].
    + destruct Hrun as (Hsum & Ht & Hc). simpl in Hsum, Ht, Hc.
      rewrite cards_in_hands_insert_new in Hsum
        by (apply Hfresh; left; reflexivity).
      apply deal_length in Hdeal. repeat split; [lia|exact Ht|exact Hc].
    + intros q Hq. simpl. rewrite lookup_insert_ne.
      * apply Hfresh. right. exact Hq.
      * intros E. apply Hp. rewrite E. apply list_elem_of_In, in_map, Hq.
Qed.

(** After [start_round] the 63 cards are in the hands and the deck. *)
Lemma start_round_total shuffle round_num g0 st g :
  NoDup (map name (SkullKingGame.players g0)) ->
  (forall l, Permutation l (shuffle l)) ->
  SkullKingGame.start_round shuffle round_num g0 = (Ok st, g) ->
  total_cards g = 63%nat.
Proof.
  intros Hnd Hperm Hrun. unfold SkullKingGame.start_round in Hrun.
  simpl in Hrun.
  destruct (SkullKingGame.deal_hands _ _ _ _) as [[state'|e] cards'] eqn:Hdeal;
    [|discriminate Hrun].
  injection Hrun as <- <-.
  apply deal_hands_total in Hdeal; [|exact Hnd|intros; apply lookup_empty].
  destruct Hdeal as (Hsum & Ht & Hc). simpl in Hsum, Ht, Hc.
  unfold total_cards, cards_in_round. simpl. rewrite Ht, Hc. simpl.
  unfold cards_in_hands at 2 in Hsum. rewrite map_fold_empty in Hsum.
  rewrite <- (Permutation_length (Hperm create_deck)) in Hsum.
  rewrite create_deck_length in Hsum. lia.
Qed.

(** The loop of [collect_bids] touches neither hands nor tricks,
    whatever its outcome. *)
Lemma collect_bids_loop_frame ps :
  forall local st r st',
    SkullKingGame.collect_bids_loop ps local st = (r, st') ->
    GameState.hands st' = GameState.hands st /\
    GameState.tricks st' = GameState.tricks st /\
    GameState.current_trick st' = GameState.current_trick st.
Proof.
  induction ps as [|q ps IH]; intros local st r st' Hrun.
  - injection Hrun as <- <-. auto.
  - simpl in Hrun. unfold bind, get, lift, getitem in Hrun.
    destruct (GameState.hands st !! name q) as [hand|].
    + destruct ((_ <? 0) || (_ <? _)).
      * injection Hrun as <- <-. auto.
      * unfold put in Hrun. apply IH in Hrun. exact Hrun.
    + injection Hrun as <- <-. auto.
Qed.

Lemma collect_bids_total g r g' :
  SkullKingGame.collect_bids g = (r, g') -> total_cards g' = total_cards g.
Proof.
  unfold SkullKingGame.collect_bids, SkullKingGame.on_state.
  destruct (SkullKingGame.state g) as [st|] eqn:Hst.
  - destruct (SkullKingGame.collect_bids_loop _ _ st) as [r' st'] eqn:Hloop.
    intros [= <- <-]. apply collect_bids_loop_frame in Hloop.
    destruct Hloop as (Hh & Ht & Hc).
    unfold total_cards, cards_in_round. simpl. rewrite Hst, Hh, Ht, Hc.
    reflexivity.
  - intros [= <- <-]. reflexivity.
Qed.

Lemma start_trick_total g trick g' :
  (forall st, SkullKingGame.state g = Some st ->
              cards_in_current (GameState.current_trick st) = 0%nat) ->
  SkullKingGame.start_trick g = (Ok trick, g') ->
  total_cards g' = total_cards g.
Proof.
  intros Hempty. unfold SkullKingGame.start_trick, SkullKingGame.on_state.
  destruct (SkullKingGame.state g) as [st|] eqn:Hst; [|discriminate].
  simpl. intros [= <- <-].
  unfold total_cards, cards_in_round. simpl. rewrite Hst.
  rewrite (Hempty st eq_refl). reflexivity.
Qed.

Lemma play_card_length trick player card :
  length (Trick.cards_played (Trick.play_card trick player card))
  = S (length (Trick.cards_played trick)).
Proof. simpl. rewrite length_app. simpl. lia. Qed.

Lemma complete_trick_cards st trick :
  cards_in_round (SkullKingGame.complete_trick st trick)
  = (cards_in_hands (GameState.hands st)
     + cards_in_tricks (GameState.tricks st)
     + length (Trick.cards_played trick))%nat.
Proof.
  unfold SkullKingGame.complete_trick.
  pose proof (determine_winner_cards_played trick) as Hcp.
  destruct (Trick.determine_winner trick) as [[w|] trick'];
    simpl in Hcp; unfold cards_in_round; simpl;
    rewrite cards_in_tricks_app, Hcp; lia.
Qed.

Lemma set_state_same g st :
  SkullKingGame.state g = Some st -> SkullKingGame.set_state g (Some st) = g.
Proof. destruct g. simpl. intros ->. reflexivity. Qed.

(** A [play_card] call that raises leaves the game as it was: no card
    has left a hand, none has been added to the trick. *)
Lemma play_card_raise_unchanged player card g e g' :
  SkullKingGame.play_card player card g = (Raise e, g') -> g' = g.
Proof.
  unfold SkullKingGame.play_card, SkullKingGame.on_state.
  destruct (SkullKingGame.state g) as [st|] eqn:Hst;
    [|intros [= _ <-]; reflexivity].
  unfold bind, get, lift, raise.
  destruct (GameState.current_trick st) as [trick|];
    [|intros [= _ <-]; apply set_state_same, Hst].
  destruct (GameState.get_legal_cards st player) as [legal|e1];
    [|intros [= _ <-]; apply set_state_same, Hst].
  destruct (card_in card legal); simpl;
    [|intros [= _ <-]; apply set_state_same, Hst].
  unfold getitem.
  destruct (GameState.hands st !! name player) as [hand|];
    [|intros [= _ <-]; apply set_state_same, Hst].
  destruct (list_remove card hand) as [hand'|];
    [|intros [= _ <-]; apply set_state_same, Hst].
  case_bool_decide; unfold put, ret; discriminate.
Qed.

(** A successful [play_card] moves one card from a hand to the current
    trick, and a full trick to the completed tricks. *)
Lemma play_card_ok_total player card g complete g' :
  SkullKingGame.play_card player card g = (Ok complete, g') ->
  total_cards g' = total_cards g.
Proof.
  unfold SkullKingGame.play_card, SkullKingGame.on_state.
  destruct (SkullKingGame.state g) as [st|] eqn:Hst; [|discriminate].
  unfold bind, get, lift, raise.
  destruct (GameState.current_trick st) as [trick|] eqn:Hct; [|discriminate].
  destruct (GameState.get_legal_cards st player) as [legal|e]; [|discriminate].
  destruct (card_in card legal); simpl; [|discriminate].
  unfold getitem.
  destruct (GameState.hands st !! name player) as [hand|] eqn:Hhand;
    [|discriminate].
  destruct (list_remove card hand) as [hand'|] eqn:Hrm; [|discriminate].
  apply list_remove_length in Hrm.
  pose proof (cards_in_hands_insert_old (GameState.hands st) (name player)
                hand hand' Hhand) as Hsum.
  pose proof (play_card_length trick player card) as Hlen.
  case_bool_decide; unfold put, ret; intros [= <- <-];
    unfold total_cards; simpl; rewrite Hst.
  - rewrite complete_trick_cards. simpl.
    unfold cards_in_round. rewrite Hct. simpl in Hlen |- *. lia.
  - unfold cards_in_round. simpl. rewrite Hct. simpl in Hlen |- *. lia.
Qed.

Lemma play_card_total player card g r g' :
  SkullKingGame.play_card player card g = (r, g') ->
  total_cards g' = total_cards g.
Proof.
  destruct r as [complete|e]; intros H.
  - exact (play_card_ok_total player card g complete g' H).
  - rewrite (play_card_raise_unchanged player card g e g' H). reflexivity.
Qed.

(** C8, as stated, fails: [__init__] accepts two players of one name;
    they are one key of the [hands] dict, so in round 1 the card dealt
    to the second replaces the card dealt to the first, and the state
    that [start_round] leaves holds 62 cards: 1 in the hands and 61 in
    the deck. *)
Lemma round_cards_conserved_counterexample :
  ~ (forall shuffle players num_rounds g0 round_num g,
       SkullKingGame.init players num_rounds = Ok g0 ->
       (forall l, Permutation l (shuffle l)) ->
       round_reachable shuffle g0 round_num g ->
       total_cards g = 63%nat).
Proof.
  intros H.
  destruct (SkullKingGame.start_round (fun cards => cards) 1 game_of_namesakes)
    as [[st|e] g] eqn:Hstart; [|vm_compute in Hstart; discriminate Hstart].
  assert (Htotal : total_cards g = 62%nat).
  { change g with (snd (Ok st, g)). rewrite <- Hstart.
    vm_compute. reflexivity. }
  rewrite (H (fun cards => cards) [bot "Bot" 0; bot "Bot" 0] 10
             game_of_namesakes 1 g) in Htotal.
  - discriminate Htotal.
  - vm_compute. reflexivity.
  - intros l. reflexivity.
  - apply (reach_start _ _ _ st g). exact Hstart.
Qed.

(** C8, amended: when the players of the game have distinct names, every state
    of a round, from the one that [start_round] leaves through any
    number of bidding, trick-start and [play_card] steps, holds 63 cards
    in all, in the players' hands, in the completed tricks, in the
    current trick and in the rest of the deck; 63 being the 52 numbers,
    5 Escapes, 2 Mermaids, 2 Pirates, 1 SkullKing and 1 Tigress that
    [_create_deck] builds. *)
Theorem round_cards_conserved (shuffle : list Card -> list Card)
    (g0 : SkullKingGame.t) (round_num : Z) (g : SkullKingGame.t) :
  NoDup (map name (SkullKingGame.players g0)) ->
  (forall l, Permutation l (shuffle l)) ->
  round_reachable shuffle g0 round_num g ->
  total_cards g = 63%nat /\
  (count_type NUMBER create_deck = 52 /\ count_type ESCAPE create_deck = 5 /\
   count_type MERMAID create_deck = 2 /\ count_type PIRATE create_deck = 2 /\
   count_type SKULL_KING create_deck = 1 /\
   count_type TIGRESS create_deck = 1)%nat.
Proof.
  intros Hnd Hperm Hreach.
  split; [|repeat split; vm_compute; reflexivity].
  induction Hreach as [st g Hstart
                      |r g g' _ IH Hbids
                      |trick g g' _ IH Hempty Htrick
                      |player card r' g g' _ IH Hplay].
  - exact (start_round_total shuffle round_num g0 st g Hnd Hperm Hstart).
  - rewrite (collect_bids_total g r g' Hbids). exact IH.
  - rewrite (start_trick_total g trick g' Hempty Htrick). exact IH.
  - rewrite (play_card_total player card g r' g' Hplay). exact IH.
Qed.

Lemma round_cards_conserved_witness :
  total_cards round_two_led = 63%nat /\
  length (SkullKingGame.deck round_two_led) = 59%nat /\
  cards_in_current
    (from_option GameState.current_trick None
       (SkullKingGame.state round_two_led)) = 1%nat.
Proof.
  split; [|split; vm_compute; reflexivity].
  apply (round_cards_conserved (fun cards => cards) game_of_two 2).
  - apply (bool_decide_unpack _). vm_compute. exact I.
  - intros l. reflexivity.
  - apply (reach_play _ _ _ (bot "Ann" 1) (Number RED 1) (Ok false)
             round_two_trick).
    + apply (reach_trick _ _ _ (Trick.init 2 1 None) round_two_started).
      * unfold round_two_started.
        destruct (SkullKingGame.start_round _ 2 game_of_two) as [[st|e] g]
          eqn:Hstart; [|vm_compute in Hstart; discriminate Hstart].
        apply (reach_start _ _ _ st g). exact Hstart.
      * intros st Hst. vm_compute in Hst. injection Hst as <-.
        vm_compute. reflexivity.
      * vm_compute. reflexivity.
    + vm_compute. reflexivity.
Defined.

(** Two players of the same name are one key of the [hands] dict: the
    hand dealt to the second replaces the hand dealt to the first. *)
Example same_name_players_share_a_hand :
  let g := snd (SkullKingGame.start_round (fun cards => cards) 1
                  game_of_namesakes) in
  total_cards g = 62%nat /\
  length (SkullKingGame.deck g) = 61%nat /\
  (fun st => map_to_list (GameState.hands st)) <$> SkullKingGame.state g
  = Some [("Bot", [Number RED 2])].
Proof. vm_compute. repeat split; reflexivity. Qed.

(** * Further properties of the engine *)

(** ** cards.py *)

Lemma value_gt_trans (x y z : option Z) :
  value_gt x y = true -> value_gt y z = true -> value_gt x z = true.
Proof.
  destruct x, y, z; simpl; try discriminate.
  rewrite !Z.ltb_lt. lia.
Qed.

Lemma beats_by_suit_trans (a b c : Card) (led : option Suit) :
  beats_by_suit a b led = true -> beats_by_suit b c led = true ->
  beats_by_suit a c led = true.
Proof.
  unfold beats_by_suit. repeat case_bool_decide; try congruence.
  apply value_gt_trans.
Qed.

Lemma beats_trans (a b c : Card) (led trump : option Suit) :
  beats a b led trump = true -> beats b c led trump = true ->
  beats a c led trump = true.
Proof.
  unfold beats.
  destruct (card_type a), (card_type b), (card_type c); simpl;
    try discriminate; try reflexivity.
  destruct trump as [t|]; [|apply beats_by_suit_trans].
  repeat case_bool_decide; simpl; try congruence;
    eauto using value_gt_trans, beats_by_suit_trans.
Qed.

(** X1: [beats] is a strict partial order on cards, for every led suit and
    every trump suit: no card beats itself, two cards never beat each
    other, and a card that beats a second card beats every card that
    the second one beats. *)
Theorem beats_strict_order (led_suit trump_suit : option Suit) :
  (forall a, beats a a led_suit trump_suit = false) /\
  (forall a b, beats a b led_suit trump_suit = true ->
               beats b a led_suit trump_suit = false) /\
  (forall a b c, beats a b led_suit trump_suit = true ->
                 beats b c led_suit trump_suit = true ->
                 beats a c led_suit trump_suit = true).
Proof.
  split; [|split].
  - intros a. apply beats_irrefl.
  - intros a b. apply beats_asym.
  - intros a b c. apply beats_trans.
Qed.

Lemma beats_strict_order_witness :
  beats Pirate (Number RED 2) (Some RED) (Some BLUE) = true.
Proof.
  apply (proj2 (proj2 (beats_strict_order (Some RED) (Some BLUE)))
           Pirate Mermaid (Number RED 2)); reflexivity.
Defined.

(** X2: With a trump suit, a Number card of the trump suit beats every
    Number card of another suit, whatever the led suit and the two
    values, and is not beaten by it. *)
Theorem trump_beats_other_suits (a b : Card) (led_suit : option Suit)
    (trump : Suit) :
  card_type a = NUMBER -> card_type b = NUMBER ->
  suit a = Some trump -> suit b <> Some trump ->
  beats a b led_suit (Some trump) = true /\
  beats b a led_suit (Some trump) = false.
Proof.
  intros Ha Hb Hsa Hsb. unfold beats. rewrite Ha, Hb. simpl.
  rewrite (bool_decide_eq_true_2 _ Hsa), (bool_decide_eq_false_2 _ Hsb).
  split; reflexivity.
Qed.

Lemma trump_beats_other_suits_witness :
  beats (Number GREEN 1) (Number RED 13) (Some RED) (Some GREEN) = true /\
  beats (Number RED 13) (Number GREEN 1) (Some RED) (Some GREEN) = false.
Proof.
  apply (trump_beats_other_suits (Number GREEN 1) (Number RED 13)
           (Some RED) GREEN); try reflexivity.
  discriminate.
Defined.

(** X3: The constructor raises only for a NUMBER card, when its suit is
    missing or SPECIAL or its value is missing or outside 1..13; and for
    the five suitless types it ignores the suit and value it is given,
    so that any two cards of such a type are equal under [__eq__]. *)
Theorem Card_init_validation (ct : CardType) (s : option Suit) (v : option Z) :
  ((exists e, Card_init ct s v = Raise e) <->
   ct = NUMBER /\
   (s = None \/ s = Some SPECIAL \/ v = None \/
    exists n, v = Some n /\ (n < 1 \/ 13 < n))) /\
  (is_suitless ct = true ->
   forall s' v', exists c c',
     Card_init ct s v = Ok c /\ Card_init ct s' v' = Ok c' /\
     Card_eq c c' = true).
Proof.
  split.
  - unfold Card_init. split.
    + intros [e He]. destruct ct; try discriminate. split; [reflexivity|].
      destruct s as [[]|]; simpl in He; auto;
        destruct v as [n|]; auto;
        destruct (Z.ltb_spec n 1), (Z.ltb_spec 13 n); simpl in He;
        try discriminate; right; right; right; exists n; split; auto; lia.
    + intros [-> Hbad].
      destruct Hbad as [->|[->|[->|(n & -> & Hn)]]].
      * eexists. reflexivity.
      * eexists. reflexivity.
      * destruct s as [[]|]; simpl; eexists; reflexivity.
      * destruct s as [[]|]; simpl; try (eexists; reflexivity);
          destruct (Z.ltb_spec n 1), (Z.ltb_spec 13 n); simpl;
          try lia; eexists; reflexivity.
  - intros Hct s' v'. destruct ct; try discriminate;
      eexists; eexists; repeat split.
Qed.

Lemma Card_init_validation_witness :
  exists c c',
    Card_init ESCAPE (Some RED) (Some 5) = Ok c /\
    Card_init ESCAPE None None = Ok c' /\
    Card_eq c c' = true.
Proof.
  apply (proj2 (Card_init_validation ESCAPE (Some RED) (Some 5))).
  reflexivity.
Defined.

(** X4: [deal] raises exactly when more cards are asked than the deck
    holds, with the request and the deck size in the error.  Otherwise
    the cards dealt followed by the cards left are the deck as it was,
    in order; for a request of 0 or more the hand has exactly that many
    cards, and a negative request (not rejected) deals all but the last
    [-n] cards. *)
Theorem deal_spec (cards : list Card) (num_cards : Z) :
  (forall e, deal cards num_cards = Raise e <->
             Z.of_nat (length cards) < num_cards /\
             e = NotEnoughCards num_cards (length cards)) /\
  (forall dealt remaining,
     deal cards num_cards = Ok (dealt, remaining) ->
     dealt ++ remaining = cards /\
     (0 <= num_cards -> Z.of_nat (length dealt) = num_cards) /\
     (num_cards < 0 ->
      Z.of_nat (length dealt)
      = Z.max 0 (Z.of_nat (length cards) + num_cards))).
Proof.
  unfold deal. destruct (Z.ltb_spec (Z.of_nat (length cards)) num_cards).
  - split.
    + intros e. split.
      * intros [= <-]. auto.
      * intros [_ ->]. reflexivity.
    + discriminate.
  - split.
    + intros e. split; [discriminate|]. lia.
    + intros dealt remaining [= <- <-]. unfold slice_to, slice_from.
      split; [apply firstn_skipn|].
      rewrite length_firstn. unfold slice_index.
      destruct (Z.ltb_spec num_cards 0); split; lia.
Qed.

Lemma deal_spec_witness :
  deal [Pirate; Escape; Mermaid] 2 = Ok ([Pirate; Escape], [Mermaid]) /\
  Z.of_nat (length [Pirate; Escape]) = 2.
Proof.
  split; [reflexivity|].
  apply (proj2 (deal_spec [Pirate; Escape; Mermaid] 2)
           [Pirate; Escape] [Mermaid]).
  - reflexivity.
  - lia.
Defined.

(** ** game_engine.py: Trick *)

(** X5: The led suit is set by the first play and never changes: whatever
    is played afterwards, it stays the suit of the first card if that
    is a Number card and SPECIAL otherwise, while the plays are kept in
    the order they were made. *)
Theorem led_suit_never_changes r n tr (first : Player * Card)
    (rest more : list (Player * Card)) :
  let trick := Trick.of_plays r n tr (first :: rest) in
  let later :=
    fold_left (fun t pc => Trick.play_card t (fst pc) (snd pc)) more trick in
  Trick.led_suit trick = led_by (snd first) /\
  Trick.led_suit later = Trick.led_suit trick /\
  Trick.cards_played later = first :: rest ++ more /\
  Trick.trump_suit later = tr.
Proof.
  simpl. split; [apply of_plays_led_suit|]. split; [|split].
  - apply plays_led_suit_started.
    rewrite of_plays_cards_played. discriminate.
  - rewrite plays_cards_played, of_plays_cards_played. reflexivity.
  - rewrite plays_trump_suit. apply of_plays_trump_suit.
Qed.

(** Once a card that is not an Escape has been seen, the candidate of
    [determine_winner] is not an Escape. *)
Lemma challenge_not_escape led trump (plays : list (Player * Card)) :
  forall cur,
    card_type (snd cur) <> ESCAPE \/
    Exists (fun pc => card_type (snd pc) <> ESCAPE) plays ->
    card_type (snd (fold_left (Trick.challenge led trump) plays cur)) <> ESCAPE.
Proof.
  induction plays as [|q plays IH]; intros cur H; simpl.
  - destruct H as [H|H]; [exact H|]. inversion H.
  - apply IH. unfold Trick.challenge, beats.
    destruct (decide (card_type (snd q) = ESCAPE)) as [Hq|Hq].
    + rewrite bool_decide_eq_true_2 by exact Hq.
      destruct H as [H|H]; [left; exact H|].
      inversion H; subst; [contradiction|right; assumption].
    + rewrite bool_decide_eq_false_2 by exact Hq.
      destruct (decide (card_type (snd cur) = ESCAPE)) as [Hc|Hc].
      * rewrite bool_decide_eq_true_2 by exact Hc. left. exact Hq.
      * left. match goal with |- context [if ?b then _ else _] =>
                destruct b end; assumption.
Qed.

(** X6: An Escape wins a trick only when every card played is an Escape:
    if some card of the trick is not an Escape, the winner that
    [determine_winner] returns has played a card that is not an
    Escape. *)
Theorem escape_wins_only_all_escape (trick : Trick.t) (w : Player) :
  Exists (fun pc => card_type (snd pc) <> ESCAPE) (Trick.cards_played trick) ->
  fst (Trick.determine_winner trick) = Some w ->
  exists c, In (w, c) (Trick.cards_played trick) /\ card_type c <> ESCAPE.
Proof.
  intros Hex. unfold Trick.determine_winner.
  destruct (Trick.cards_played trick) as [|first rest] eqn:Hcp;
    [discriminate|].
  simpl. intros [= <-].
  pose proof (challenge_in (Trick.led_suit trick) (Trick.trump_suit trick)
                rest first) as Hin.
  pose proof (challenge_not_escape (Trick.led_suit trick)
                (Trick.trump_suit trick) rest first) as Hne.
  destruct (fold_left _ rest first) as [w c]. exists c. split; [exact Hin|].
  apply Hne. inversion Hex; subst; auto.
Qed.

Lemma escape_wins_only_all_escape_witness :
  exists c,
    In (bot "Cid" 0, c) [(bot "Ann" 0, Escape); (bot "Bob" 0, Escape);
                         (bot "Cid" 0, Number BLUE 1)] /\
    card_type c <> ESCAPE.
Proof.
  apply (escape_wins_only_all_escape
           (Trick.of_plays 3 1 None
              [(bot "Ann" 0, Escape); (bot "Bob" 0, Escape);
               (bot "Cid" 0, Number BLUE 1)])
           (bot "Cid" 0)).
  - apply Exists_cons_tl, Exists_cons_tl, Exists_cons_hd. simpl. discriminate.
  - reflexivity.
Defined.

(** A card of the special hierarchy beats every card of lower rank or
    of no rank, and no card of lower or equal rank or of no rank beats
    it. *)
Lemma beats_special_rank (a b : Card) (r : Z) (led trump : option Suit) :
  special_hierarchy (card_type a) = Some r ->
  ((forall r', special_hierarchy (card_type b) = Some r' -> r' < r) ->
   beats a b led trump = true) /\
  ((forall r', special_hierarchy (card_type b) = Some r' -> r' <= r) ->
   beats b a led trump = false).
Proof.
  intros Ha. unfold beats.
  destruct (card_type a) eqn:Hta; try discriminate;
    injection Ha as <-;
    destruct (card_type b) eqn:Htb; simpl; split; intros H;
    try reflexivity;
    try (specialize (H _ eq_refl); lia).
Qed.

(** X7: The trick goes to the highest card of the special hierarchy
    (SkullKing 3, Mermaid 4, Pirate 5), and among equals to the one
    played first: a play of rank [r] wins when every special card
    played before it has a lower rank and none played after it has a
    higher rank.  In particular the first Pirate played always wins. *)
Theorem highest_special_wins (trick : Trick.t) (before after : list (Player * Card))
    (w : Player * Card) (r : Z) :
  Trick.cards_played trick = before ++ w :: after ->
  special_hierarchy (card_type (snd w)) = Some r ->
  (forall q r', In q before ->
     special_hierarchy (card_type (snd q)) = Some r' -> r' < r) ->
  (forall q r', In q after ->
     special_hierarchy (card_type (snd q)) = Some r' -> r' <= r) ->
  fst (Trick.determine_winner trick) = Some (fst w).
Proof.
  intros Hcp Hr Hbefore Hafter.
  assert (Hkeep : fold_left (Trick.challenge (Trick.led_suit trick)
                               (Trick.trump_suit trick)) after w = w).
  { apply challenge_keeps. apply Forall_forall. intros q Hq.
    apply (beats_special_rank (snd w) (snd q) r); [exact Hr|].
    intros r' Hr'. apply (Hafter q r'); [|exact Hr'].
    apply list_elem_of_In. exact Hq. }
  destruct before as [|first before].
  - rewrite (determine_winner_cons trick w after Hcp). rewrite Hkeep.
    reflexivity.
  - rewrite (determine_winner_cons trick first (before ++ w :: after) Hcp).
    rewrite fold_left_app. simpl.
    pose proof (challenge_in (Trick.led_suit trick) (Trick.trump_suit trick)
                  before first) as Hin.
    set (cand := fold_left _ before first) in *.
    unfold Trick.challenge at 2.
    rewrite (proj1 (beats_special_rank (snd w) (snd cand) r _ _ Hr)).
    + rewrite Hkeep. reflexivity.
    + intros r' Hr'. apply (Hbefore cand r'); [exact Hin|exact Hr'].
Qed.

Lemma highest_special_wins_witness :
  fst (Trick.determine_winner
         (Trick.of_plays 4 1 None
            [(bot "Ann" 0, SkullKing); (bot "Bob" 0, Mermaid);
             (bot "Cid" 0, Pirate); (bot "Dan" 0, Pirate)]))
  = Some (bot "Cid" 0).
Proof.
  apply (highest_special_wins
           (Trick.of_plays 4 1 None
              [(bot "Ann" 0, SkullKing); (bot "Bob" 0, Mermaid);
               (bot "Cid" 0, Pirate); (bot "Dan" 0, Pirate)])
           [(bot "Ann" 0, SkullKing); (bot "Bob" 0, Mermaid)]
           [(bot "Dan" 0, Pirate)]
           (bot "Cid" 0, Pirate) 5).
  - reflexivity.
  - reflexivity.
  - intros q r' [<-|[<-|[]]] [= <-]; lia.
  - intros q r' [<-|[]] [= <-]; lia.
Defined.

(** ** game_engine.py: GameState *)

(** X9: [get_legal_cards] raises KeyError exactly for a player without a
    hand.  For a player with a hand it returns a sub-list of the hand,
    in hand order, that is empty only if the hand is; and the whole
    hand when there is no current trick, when the current trick has no
    play yet, or when the led suit is SPECIAL. *)
Theorem get_legal_cards_general (st : GameState.t) (player : Player) :
  (GameState.hands st !! name player = None ->
   GameState.get_legal_cards st player = Raise (KeyError (name player))) /\
  (forall hand,
     GameState.hands st !! name player = Some hand ->
     exists legal,
       GameState.get_legal_cards st player = Ok legal /\
       sublist legal hand /\
       (legal = [] -> hand = []) /\
       (GameState.current_trick st = None \/
        (exists trick,
           GameState.current_trick st = Some trick /\
           (Trick.cards_played trick = [] \/
            Trick.led_suit trick = Some SPECIAL)) ->
        legal = hand)).
Proof.
  unfold GameState.get_legal_cards, getitem. split.
  - intros Hnone. rewrite Hnone.
    destruct (GameState.current_trick st) as [trick|]; [|reflexivity].
    destruct (Trick.cards_played trick); [reflexivity|].
    destruct (_ && _); reflexivity.
  - intros hand Hhand. rewrite Hhand.
    destruct (GameState.current_trick st) as [trick|] eqn:Hct.
    2: { exists hand. repeat split; auto. }
    destruct (Trick.cards_played trick) as [|p ps] eqn:Hcp.
    { exists hand. repeat split; auto. }
    destruct (bool_decide (Trick.led_suit trick <> None)
              && bool_decide (Trick.led_suit trick <> Some SPECIAL)) eqn:Hled.
    2: { exists hand. repeat split; auto. }
    apply andb_true_iff in Hled. destruct Hled as [_ Hled].
    apply bool_decide_eq_true in Hled.
    destruct (List.filter _ hand) as [|c cs] eqn:Hf.
    + exists hand. repeat split; auto.
    + exists (c :: cs). split; [reflexivity|]. split; [|split].
      * rewrite <- Hf. apply filter_sublist.
      * discriminate.
      * intros [Hn|(trick' & [= <-] & [He|Hs])]; congruence.
Qed.

Lemma get_legal_cards_general_witness :
  exists legal,
    GameState.get_legal_cards
      (round_with [Number RED 5; Number BLUE 3; Escape]
                  [(bot "Bob" 0, Pirate)])
      (bot "Ann" 0) = Ok legal /\
    legal = [Number RED 5; Number BLUE 3; Escape].
Proof.
  destruct (proj2 (get_legal_cards_general
                     (round_with [Number RED 5; Number BLUE 3; Escape]
                                 [(bot "Bob" 0, Pirate)])
                     (bot "Ann" 0))
              [Number RED 5; Number BLUE 3; Escape] eq_refl)
    as (legal & Hrun & _ & _ & Hall).
  exists legal. split; [exact Hrun|].
  apply Hall. right. eexists. split; [reflexivity|]. right. reflexivity.
Defined.

(** ** game_engine.py: SkullKingGame, dealing *)

Lemma deal_ok_length cards n dealt remaining :
  deal cards n = Ok (dealt, remaining) ->
  dealt ++ remaining = cards /\
  (0 <= n -> Z.of_nat (length dealt) = n /\
             Z.of_nat (length remaining) = Z.of_nat (length cards) - n).
Proof.
  unfold deal. destruct (Z.ltb_spec (Z.of_nat (length cards)) n);
    [discriminate|].
  intros [= <- <-]. unfold slice_to, slice_from.
  split; [apply firstn_skipn|]. intros Hn.
  rewrite length_firstn, length_skipn. unfold slice_index.
  destruct (Z.ltb_spec n 0); lia.
Qed.

(** The dealing loop runs to its end exactly when the deck holds a hand
    for every player; otherwise it raises the error of [deal]. *)
Lemma deal_hands_ok_iff ps n :
  forall state cards,
    (n * Z.of_nat (length ps) <= Z.of_nat (length cards) ->
     exists state' cards',
       SkullKingGame.deal_hands ps n state cards = (Ok state', cards')) /\
    (Z.of_nat (length cards) < n * Z.of_nat (length ps) ->
     exists have cards',
       SkullKingGame.deal_hands ps n state cards
       = (Raise (NotEnoughCards n have), cards')).
Proof.
  induction ps as [|p ps IH]; intros state cards.
  - simpl. split; [eauto|lia].
  - cbn [SkullKingGame.deal_hands]. unfold bind, get, put, raise.
    destruct (deal cards n) as [[dealt remaining]|e] eqn:Hdeal.
    + pose proof (deal_ok_length cards n dealt remaining Hdeal) as [Happ Hlen].
      assert (Hrem : n <= 0 \/
                (0 < n /\ Z.of_nat (length remaining)
                          = Z.of_nat (length cards) - n)) by lia.
      match goal with
      | |- context [SkullKingGame.deal_hands ps n ?s remaining] =>
          destruct (IH s remaining) as [IHok IHfail]
      end.
      split; intros H.
      * apply IHok. rewrite length_cons in H. nia.
      * apply IHfail. rewrite length_cons in H. nia.
    + unfold deal in Hdeal.
      destruct (Z.ltb_spec (Z.of_nat (length cards)) n) as [Hlt|Hge];
        [|discriminate].
      injection Hdeal as <-. split; intros H.
      * rewrite length_cons in H. nia.
      * eauto.
Qed.

(** X10: [start_round] succeeds exactly when [round_num] times the number of
    players is at most 63.  When it fails, the error is that of [deal]
    for a request of [round_num] cards, and no round state is
    published: [self.state] is what it was. *)
Theorem start_round_succeeds_iff (shuffle : list Card -> list Card)
    (round_num : Z) (g : SkullKingGame.t) :
  (forall l, Permutation l (shuffle l)) ->
  ((exists st g', SkullKingGame.start_round shuffle round_num g = (Ok st, g'))
   <-> round_num * Z.of_nat (length (SkullKingGame.players g)) <= 63) /\
  (forall e g',
     SkullKingGame.start_round shuffle round_num g = (Raise e, g') ->
     SkullKingGame.state g' = SkullKingGame.state g /\
     exists have, e = NotEnoughCards round_num have).
Proof.
  intros Hperm.
  assert (Hlen : Z.of_nat (length (shuffle create_deck)) = 63).
  { rewrite <- (Permutation_length (Hperm create_deck)). reflexivity. }
  unfold SkullKingGame.start_round. simpl.
  match goal with
  | |- context [SkullKingGame.deal_hands ?ps round_num ?s ?c] =>
      destruct (deal_hands_ok_iff ps round_num s c) as [Hok Hfail];
      destruct (SkullKingGame.deal_hands ps round_num s c)
        as [[state'|e0] cards'] eqn:Hrun
  end; rewrite Hlen in Hok, Hfail.
  - split.
    + split; [|eauto]. intros _.
      destruct (Z.le_gt_cases
                  (round_num * Z.of_nat (length (SkullKingGame.players g))) 63)
        as [H|H]; [exact H|].
      destruct (Hfail ltac:(lia)) as (have & c' & Hc). discriminate Hc.
    + discriminate.
  - split.
    + split.
      * intros (st & g' & H). discriminate H.
      * intros H. destruct (Hok H) as (s' & c' & Hc). discriminate Hc.
    + intros e g' [= <- <-]. split; [reflexivity|].
      destruct (Z.le_gt_cases
                  (round_num * Z.of_nat (length (SkullKingGame.players g))) 63)
        as [H|H].
      * destruct (Hok H) as (s' & c' & Hc). discriminate Hc.
      * destruct (Hfail ltac:(lia)) as (have & c' & [= -> _]). eauto.
Qed.

Lemma start_round_succeeds_iff_witness :
  exists st g',
    SkullKingGame.start_round (fun cards => cards) 10 game_of_two = (Ok st, g').
Proof.
  apply (proj1 (start_round_succeeds_iff (fun cards => cards) 10 game_of_two
                  (fun l => Permutation_refl l))).
  vm_compute. discriminate.
Defined.

(** X11: [SkullKingGame.__init__] accepts 2 to 6 players, and every game it
    builds can deal each of the rounds 0 to 10: [start_round] does not
    raise. *)
Theorem constructed_game_deals (players : list Player) (num_rounds : Z) :
  ((exists g, SkullKingGame.init players num_rounds = Ok g) <->
   (2 <= length players <= 6)%nat) /\
  (forall g shuffle round_num,
     SkullKingGame.init players num_rounds = Ok g ->
     (forall l, Permutation l (shuffle l)) ->
     0 <= round_num <= 10 ->
     exists st g',
       SkullKingGame.start_round shuffle round_num g = (Ok st, g') /\
       SkullKingGame.state g' = Some st).
Proof.
  unfold SkullKingGame.init.
  destruct (Nat.ltb_spec (length players) 2) as [H2|H2].
  { split; [split; [intros [g Hg]; discriminate|lia]|discriminate]. }
  destruct (Nat.ltb_spec 6 (length players)) as [H6|H6].
  { split; [split; [intros [g Hg]; discriminate|lia]|discriminate]. }
  split; [split; [lia|eauto]|].
  intros g shuffle round_num [= <-] Hperm Hr.
  unfold SkullKingGame.start_round. simpl.
  match goal with
  | |- context [SkullKingGame.deal_hands ?ps round_num ?s ?c] =>
      destruct (proj1 (deal_hands_ok_iff ps round_num s c))
        as (state' & cards' & ->)
  end.
  - rewrite <- (Permutation_length (Hperm create_deck)).
    change (Z.of_nat (length create_deck)) with 63. nia.
  - eauto.
Qed.

Lemma constructed_game_deals_witness :
  exists st g',
    SkullKingGame.start_round (fun cards => cards) 10 game_of_two = (Ok st, g') /\
    SkullKingGame.state g' = Some st.
Proof.
  apply (proj2 (constructed_game_deals [bot "Ann" 1; bot "Bob" 1] 10)
           game_of_two (fun cards => cards) 10).
  - reflexivity.
  - intros l. reflexivity.
  - lia.
Defined.

(** The hand of a player in a round state; no entry reads as no card. *)
Lemma deal_hands_spec ps n :
  forall state cards state' cards',
    NoDup (map name ps) ->
    SkullKingGame.deal_hands ps n state cards = (Ok state', cards') ->
    concat (map (fun p => default [] (GameState.hands state' !! name p)) ps)
      ++ cards' = cards /\
    (forall p, In p ps ->
       exists hand,
         GameState.hands state' !! name p = Some hand /\
         (0 <= n -> Z.of_nat (length hand) = n) /\
         GameState.tricks_won state' !! name p = Some 0) /\
    (forall k, ~ In k (map name ps) ->
       GameState.hands state' !! k = GameState.hands state !! k /\
       GameState.tricks_won state' !! k = GameState.tricks_won state !! k) /\
    GameState.bids state' = GameState.bids state /\
    GameState.current_trick state' = GameState.current_trick state /\
    GameState.tricks state' = GameState.tricks state /\
    GameState.scores state' = GameState.scores state /\
    GameState.round_num state' = GameState.round_num state /\
    GameState.players state' = GameState.players state.
Proof.
  induction ps as [|p ps IH]; intros state cards state' cards' Hnd Hrun.
  - simpl in Hrun. injection Hrun as <- <-. simpl.
    repeat split; auto. intros p [].
  - cbn [SkullKingGame.deal_hands] in Hrun. unfold bind, get, put in Hrun.
    destruct (deal cards n) as [[dealt remaining]|e] eqn:Hdeal;
      [|discriminate Hrun].
    simpl in Hnd. apply NoDup_cons in Hnd. destruct Hnd as [Hp Hnd].
    apply (IH _ _ _ _ Hnd) in Hrun.
    destruct Hrun as (Hcat & Hin & Hout & Hb & Hc & Ht & Hs & Hr & Hpl).
    simpl in Hout, Hb, Hc, Ht, Hs, Hr, Hpl.
    destruct (deal_ok_length cards n dealt remaining Hdeal) as [Happ Hlen].
    assert (Hpn : ~ In (name p) (map name ps)).
    { intros E. apply Hp. apply list_elem_of_In. exact E. }
    destruct (Hout (name p) Hpn) as [Hhp Htp].
    rewrite lookup_insert_eq in Hhp. rewrite lookup_insert_eq in Htp.
    split; [|split; [|split]].
    + cbn [map concat]. rewrite Hhp. simpl. rewrite <- app_assoc, Hcat.
      exact Happ.
    + intros q [<-|Hq]; [|apply Hin; exact Hq].
      exists dealt. split; [exact Hhp|]. split; [|exact Htp].
      intros Hn. apply Hlen. exact Hn.
    + intros k Hk. simpl in Hk.
      destruct (Hout k (fun H => Hk (or_intror H))) as [-> ->].
      rewrite !lookup_insert_ne by (intros E; apply Hk; left; exact E). auto.
    + auto 10.
Qed.

(** X12: What [start_round] leaves when it succeeds and the players have
    distinct names: the new round state is published; the hands, taken
    in player order, followed by the rest of the deck are the shuffled
    deck, so that the hands are disjoint parts of the 63 cards; each
    player holds [round_num] cards (for a round number of 0 or more)
    and has won no trick; there are no bids, no tricks and no current
    trick; and the scores are the cumulative scores. *)
Theorem start_round_deals (shuffle : list Card -> list Card) (round_num : Z)
    (g : SkullKingGame.t) (st : GameState.t) (g' : SkullKingGame.t) :
  NoDup (map name (SkullKingGame.players g)) ->
  (forall l, Permutation l (shuffle l)) ->
  SkullKingGame.start_round shuffle round_num g = (Ok st, g') ->
  SkullKingGame.state g' = Some st /\
  SkullKingGame.players g' = SkullKingGame.players g /\
  SkullKingGame.cumulative_scores g' = SkullKingGame.cumulative_scores g /\
  Permutation
    (concat (map (fun p => default [] (GameState.hands st !! name p))
                 (SkullKingGame.players g))
     ++ SkullKingGame.deck g')
    create_deck /\
  (forall p, In p (SkullKingGame.players g) ->
     exists hand,
       GameState.hands st !! name p = Some hand /\
       (0 <= round_num -> Z.of_nat (length hand) = round_num) /\
       GameState.tricks_won st !! name p = Some 0) /\
  GameState.bids st = ∅ /\
  GameState.tricks st = [] /\
  GameState.current_trick st = None /\
  GameState.scores st = SkullKingGame.cumulative_scores g /\
  GameState.round_num st = round_num.
Proof.
  intros Hnd Hperm Hrun. unfold SkullKingGame.start_round in Hrun.
  simpl in Hrun.
  destruct (SkullKingGame.deal_hands _ _ _ _) as [[state'|e] cards'] eqn:Hdeal;
    [|discriminate Hrun].
  injection Hrun as <- <-.
  apply (deal_hands_spec _ _ _ _ _ _ Hnd) in Hdeal.
  destruct Hdeal as (Hcat & Hin & _ & Hb & Hc & Ht & Hs & Hr & _).
  simpl in Hb, Hc, Ht, Hs, Hr. simpl.
  repeat split; try assumption.
  rewrite Hcat. symmetry. apply Hperm.
Qed.

Lemma start_round_deals_witness :
  exists st,
    SkullKingGame.state round_two_started = Some st /\
    GameState.tricks st = [] /\
    GameState.current_trick st = None.
Proof.
  destruct (SkullKingGame.start_round (fun cards => cards) 2 game_of_two)
    as [[st|e] g'] eqn:Hrun; [|vm_compute in Hrun; discriminate Hrun].
  destruct (start_round_deals (fun cards => cards) 2 game_of_two st g')
    as (Hst & _ & _ & _ & _ & _ & Ht & Hc & _).
  - apply (bool_decide_unpack _). vm_compute. exact I.
  - intros l. reflexivity.
  - exact Hrun.
  - exists st. unfold round_two_started. rewrite Hrun. simpl. auto.
Defined.

(** ** game_engine.py: SkullKingGame, playing a card *)

Lemma card_in_true (card : Card) (cards : list Card) :
  card_in card cards = true <-> In card cards.
Proof.
  unfold card_in. rewrite existsb_exists. split.
  - intros (c & Hin & Heq). apply Card_eq_true in Heq. subst c. exact Hin.
  - intros Hin. exists card. split; [exact Hin|]. apply Card_eq_true.
    reflexivity.
Qed.

(** [remove] succeeds on a card of the list and takes out one copy. *)
Lemma list_remove_in (card : Card) (hand : list Card) :
  In card hand ->
  exists hand', list_remove card hand = Some hand'.
Proof.
  induction hand as [|c hand IH]; intros Hin; [destruct Hin|].
  simpl. destruct (Card_eq c card) eqn:Heq; [eauto|].
  destruct Hin as [->|Hin].
  - assert (Card_eq card card = true) by (apply Card_eq_true; reflexivity).
    congruence.
  - destruct (IH Hin) as [hand' ->]. simpl. eauto.
Qed.

Lemma list_remove_perm (card : Card) (hand hand' : list Card) :
  list_remove card hand = Some hand' -> Permutation hand (card :: hand').
Proof.
  revert hand'. induction hand as [|c hand IH]; intros hand'; simpl.
  - discriminate.
  - destruct (Card_eq c card) eqn:Heq.
    + intros [= <-]. apply Card_eq_true in Heq. subst c. reflexivity.
    + destruct (list_remove card hand) as [rest|]; simpl; [|discriminate].
      intros [= <-]. rewrite (IH rest eq_refl). apply perm_swap.
Qed.

Lemma get_legal_cards_cases (st : GameState.t) (player : Player) :
  match GameState.hands st !! name player with
  | None => GameState.get_legal_cards st player = Raise (KeyError (name player))
  | Some hand =>
      exists legal, GameState.get_legal_cards st player = Ok legal /\
                    sublist legal hand
  end.
Proof.
  unfold GameState.get_legal_cards, getitem.
  destruct (GameState.hands st !! name player) as [hand|].
  - destruct (GameState.current_trick st) as [trick|]; [|eauto].
    destruct (Trick.cards_played trick); [eauto|].
    destruct (_ && _); [|eauto].
    destruct (List.filter _ hand) as [|c cs] eqn:Hf; [eauto|].
    exists (c :: cs). split; [reflexivity|]. rewrite <- Hf.
    apply filter_sublist.
  - destruct (GameState.current_trick st) as [trick|]; [|reflexivity].
    destruct (Trick.cards_played trick); [reflexivity|].
    destruct (_ && _); reflexivity.
Qed.

(** What a successful [play_card] has gone through. *)
Lemma play_card_ok_inv player card g complete g' :
  SkullKingGame.play_card player card g = (Ok complete, g') ->
  exists st trick legal hand hand',
    SkullKingGame.state g = Some st /\
    GameState.current_trick st = Some trick /\
    GameState.get_legal_cards st player = Ok legal /\
    card_in card legal = true /\
    GameState.hands st !! name player = Some hand /\
    list_remove card hand = Some hand' /\
    let st1 := GameState.set_hands st
                 (<[name player := hand']> (GameState.hands st)) in
    let trick' := Trick.play_card trick player card in
    (length (Trick.cards_played trick') = length (SkullKingGame.players g) /\
     complete = true /\
     g' = SkullKingGame.set_state g
            (Some (SkullKingGame.complete_trick st1 trick'))) \/
    (length (Trick.cards_played trick') <> length (SkullKingGame.players g) /\
     complete = false /\
     g' = SkullKingGame.set_state g
            (Some (GameState.set_current_trick st1 (Some trick')))).
Proof.
  unfold SkullKingGame.play_card, SkullKingGame.on_state.
  destruct (SkullKingGame.state g) as [st|] eqn:Hst; [|discriminate].
  unfold bind, get, lift, raise.
  destruct (GameState.current_trick st) as [trick|] eqn:Hct; [|discriminate].
  destruct (GameState.get_legal_cards st player) as [legal|e] eqn:Hlegal;
    [|discriminate].
  destruct (card_in card legal) eqn:Hin; simpl; [|discriminate].
  unfold getitem.
  destruct (GameState.hands st !! name player) as [hand|] eqn:Hhand;
    [|discriminate].
  destruct (list_remove card hand) as [hand'|] eqn:Hrm; [|discriminate].
  case_bool_decide as Hfull; unfold put, ret; intros [= <- <-];
    exists st, trick, legal, hand, hand'; repeat split; auto.
Qed.

(** X14: A [play_card] call that raises has changed nothing, and it raises
    for one of three reasons only: there is no round or no current
    trick (RuntimeError), the player has no hand in the round (KeyError),
    or the card is not among the player's legal cards (ValueError).  In
    particular the removal of the card from the hand never fails. *)
Theorem play_card_errors player card g e g' :
  SkullKingGame.play_card player card g = (Raise e, g') ->
  g' = g /\
  ((e = NoActiveTrick /\
    (SkullKingGame.state g = None \/
     exists st, SkullKingGame.state g = Some st /\
                GameState.current_trick st = None)) \/
   (e = KeyError (name player) /\
    exists st, SkullKingGame.state g = Some st /\
               GameState.hands st !! name player = None) \/
   (exists st legal,
      SkullKingGame.state g = Some st /\
      GameState.get_legal_cards st player = Ok legal /\
      ~ In card legal /\
      e = IllegalPlay card legal)).
Proof.
  intros Hrun. split; [exact (play_card_raise_unchanged _ _ _ _ _ Hrun)|].
  revert Hrun. unfold SkullKingGame.play_card, SkullKingGame.on_state.
  destruct (SkullKingGame.state g) as [st|] eqn:Hst;
    [|intros [= <- _]; left; auto].
  unfold bind, get, lift, raise.
  destruct (GameState.current_trick st) as [trick|] eqn:Hct;
    [|intros [= <- _]; left; eauto].
  pose proof (get_legal_cards_cases st player) as Hcases.
  destruct (GameState.hands st !! name player) as [hand|] eqn:Hhand.
  - destruct Hcases as (legal & Hl & Hsub). rewrite Hl.
    destruct (card_in card legal) eqn:Hin; simpl.
    + unfold getitem. rewrite Hhand.
      apply card_in_true in Hin.
      destruct (list_remove_in card hand) as [hand' ->].
      { apply list_elem_of_In. eapply sublist_subseteq; [exact Hsub|].
        apply list_elem_of_In. exact Hin. }
      case_bool_decide; unfold put, ret; discriminate.
    + intros [= <- _]. right. right. exists st, legal.
      split; [reflexivity|]. split; [exact Hl|]. split; [|reflexivity].
      intros Hc. apply card_in_true in Hc. congruence.
  - rewrite Hcases. intros [= <- _]. right. left. eauto.
Qed.

Lemma play_card_errors_witness :
  snd (SkullKingGame.play_card (bot "Ann" 1) Pirate round_two_trick)
  = round_two_trick.
Proof.
  destruct (SkullKingGame.play_card (bot "Ann" 1) Pirate round_two_trick)
    as [[b|e] g'] eqn:Hrun; [vm_compute in Hrun; discriminate Hrun|].
  exact (proj1 (play_card_errors (bot "Ann" 1) Pirate round_two_trick e g'
                  Hrun)).
Defined.

(** X15: Playing a card that [get_legal_cards] allows always succeeds. *)
Theorem legal_play_succeeds player card g st trick legal :
  SkullKingGame.state g = Some st ->
  GameState.current_trick st = Some trick ->
  GameState.get_legal_cards st player = Ok legal ->
  In card legal ->
  exists complete g',
    SkullKingGame.play_card player card g = (Ok complete, g').
Proof.
  intros Hst Hct Hlegal Hin.
  destruct (SkullKingGame.play_card player card g) as [[b|e] g'] eqn:Hrun;
    [eauto|].
  exfalso.
  revert Hrun. unfold SkullKingGame.play_card, SkullKingGame.on_state.
  rewrite Hst. unfold bind, get, lift, raise. rewrite Hct, Hlegal.
  rewrite (proj2 (card_in_true card legal) Hin). simpl.
  pose proof (get_legal_cards_cases st player) as Hcases.
  unfold getitem.
  destruct (GameState.hands st !! name player) as [hand|] eqn:Hhand.
  - destruct Hcases as (legal' & Hl & Hsub).
    assert (legal' = legal) by congruence. subst legal'.
    destruct (list_remove_in card hand) as [hand' ->].
    { apply list_elem_of_In. eapply sublist_subseteq; [exact Hsub|].
      apply list_elem_of_In. exact Hin. }
    case_bool_decide; unfold put, ret; discriminate.
  - congruence.
Qed.

Lemma legal_play_succeeds_witness :
  exists complete g',
    SkullKingGame.play_card (bot "Ann" 1) (Number RED 2) round_two_trick
    = (Ok complete, g').
Proof.
  destruct (SkullKingGame.state round_two_trick) as [st|] eqn:Hst;
    [|vm_compute in Hst; discriminate Hst].
  apply (legal_play_succeeds (bot "Ann" 1) (Number RED 2) round_two_trick st
           (Trick.init 2 1 None) [Number RED 1; Number RED 2]).
  - exact Hst.
  - vm_compute in Hst. injection Hst as <-. reflexivity.
  - vm_compute in Hst. injection Hst as <-. vm_compute. reflexivity.
  - right. left. reflexivity.
Defined.

(** X16: What a successful [play_card] does: one copy of the card leaves the
    hand of the player and the other hands are untouched; the play is
    appended to the current trick; the call returns [True] exactly when
    the trick then has as many plays as there are players, in which
    case the trick, with its winner recorded, is appended to the
    completed tricks, its winner has one more trick won, and there is
    no current trick any more. *)
Theorem play_card_effects player card g complete g' :
  SkullKingGame.play_card player card g = (Ok complete, g') ->
  exists st st' trick hand hand',
    SkullKingGame.state g = Some st /\
    SkullKingGame.state g' = Some st' /\
    GameState.current_trick st = Some trick /\
    GameState.hands st !! name player = Some hand /\
    GameState.hands st' !! name player = Some hand' /\
    Permutation hand (card :: hand') /\
    (forall k, k <> name player ->
               GameState.hands st' !! k = GameState.hands st !! k) /\
    (complete = true <->
     S (length (Trick.cards_played trick)) = length (SkullKingGame.players g)) /\
    (complete = false ->
     GameState.tricks st' = GameState.tricks st /\
     GameState.tricks_won st' = GameState.tricks_won st /\
     exists trick',
       GameState.current_trick st' = Some trick' /\
       Trick.cards_played trick'
       = Trick.cards_played trick ++ [(player, card)]) /\
    (complete = true ->
     GameState.current_trick st' = None /\
     exists trick' w,
       GameState.tricks st' = GameState.tricks st ++ [trick'] /\
       Trick.cards_played trick'
       = Trick.cards_played trick ++ [(player, card)] /\
       Trick.winner trick' = Some w /\
       GameState.tricks_won st' !! name w
       = Some (default 0 (GameState.tricks_won st !! name w) + 1)).
Proof.
  intros Hrun. apply play_card_ok_inv in Hrun.
  destruct Hrun as (st & trick & legal & hand & hand' & Hst & Hct & _ & _
                    & Hhand & Hrm & Hcase).
  pose proof (list_remove_perm card hand hand' Hrm) as Hperm.
  pose proof (play_card_length trick player card) as Hlen.
  cbv zeta in Hcase.
  destruct Hcase as [(Hfull & -> & ->)|(Hnot & -> & ->)].
  - unfold SkullKingGame.complete_trick.
    set (trick1 := Trick.play_card trick player card) in *.
    assert (Hw : exists w, fst (Trick.determine_winner trick1) = Some w).
    { unfold Trick.determine_winner. subst trick1. simpl.
      destruct (Trick.cards_played trick); simpl; eauto. }
    destruct Hw as [w Hw].
    pose proof (determine_winner_cards_played trick1) as Hcp.
    assert (Hwin : Trick.winner (snd (Trick.determine_winner trick1)) = Some w).
    { revert Hw. unfold Trick.determine_winner.
      destruct (Trick.cards_played trick1); simpl; [discriminate|auto]. }
    destruct (Trick.determine_winner trick1) as [ow trick2].
    simpl in Hw, Hcp, Hwin. subst ow.
    eexists st, _, trick, hand, hand'. simpl.
    split; [exact Hst|]. split; [reflexivity|]. split; [exact Hct|].
    split; [exact Hhand|]. simpl.
    split; [apply lookup_insert_eq|]. split; [exact Hperm|].
    split; [intros k Hk; apply lookup_insert_ne; congruence|].
    split; [split; [intros _; lia|reflexivity]|].
    split; [discriminate|]. intros _. split; [reflexivity|].
    exists trick2, w. split; [reflexivity|]. split; [exact Hcp|].
    split; [exact Hwin|]. apply lookup_insert_eq.
  - eexists st, _, trick, hand, hand'. simpl.
    split; [exact Hst|]. split; [reflexivity|]. split; [exact Hct|].
    split; [exact Hhand|]. simpl.
    split; [apply lookup_insert_eq|]. split; [exact Hperm|].
    split; [intros k Hk; apply lookup_insert_ne; congruence|].
    split; [split; [discriminate|intros H; lia]|].
    split; [|discriminate]. intros _. repeat split.
    eexists. split; reflexivity.
Qed.

Lemma play_card_effects_witness :
  exists st',
    SkullKingGame.state round_two_led = Some st' /\
    GameState.hands st' !! "Ann" = Some [Number RED 2].
Proof.
  destruct (play_card_effects (bot "Ann" 1) (Number RED 1) round_two_trick
              false round_two_led)
    as (st & st' & trick & hand & hand' & _ & Hst' & _ & _ & _).
  - vm_compute. reflexivity.
  - exists st'. split; [exact Hst'|].
    vm_compute in Hst'. injection Hst' as <-. vm_compute. reflexivity.
Defined.

(** ** Invariants of a round *)

Lemma tricks_won_total_insert_new (won : gmap string Z) k n :
  won !! k = None ->
  tricks_won_total (<[k := n]> won) = n + tricks_won_total won.
Proof.
  intros H. unfold tricks_won_total.
  rewrite map_fold_insert_L; [reflexivity| |exact H]. intros. lia.
Qed.

Lemma tricks_won_total_delete (won : gmap string Z) k n :
  won !! k = Some n ->
  tricks_won_total won = n + tricks_won_total (delete k won).
Proof.
  intros H. unfold tricks_won_total.
  rewrite (map_fold_delete_L _ _ k n won); [reflexivity| |exact H].
  intros. lia.
Qed.

(** [tricks_won[winner] = tricks_won.get(winner, 0) + 1] adds one to the
    total, whether the winner had an entry or not. *)
Lemma tricks_won_total_incr (won : gmap string Z) k :
  tricks_won_total (<[k := default 0 (won !! k) + 1]> won)
  = tricks_won_total won + 1.
Proof.
  destruct (won !! k) as [n|] eqn:Hk; simpl.
  - rewrite <- insert_delete_eq.
    rewrite tricks_won_total_insert_new by apply lookup_delete_eq.
    rewrite (tricks_won_total_delete won k n Hk). lia.
  - rewrite tricks_won_total_insert_new by exact Hk. lia.
Qed.

Lemma tricks_won_total_zero (won : gmap string Z) :
  (forall k n, won !! k = Some n -> n = 0) -> tricks_won_total won = 0.
Proof.
  induction won as [|k n won Hk IH] using map_ind; intros Hall.
  - reflexivity.
  - rewrite tricks_won_total_insert_new by exact Hk.
    rewrite IH.
    + rewrite (Hall k n (lookup_insert_eq _ _ _)). reflexivity.
    + intros j m Hj. apply (Hall j m).
      rewrite lookup_insert_ne; [exact Hj|]. congruence.
Qed.

Lemma cards_in_hands_zero (hands : gmap string (list Card)) :
  cards_in_hands hands = 0%nat <->
  forall k hand, hands !! k = Some hand -> hand = [].
Proof.
  induction hands as [|k h hands Hk IH] using map_ind.
  - split; [|reflexivity]. intros _ k hand H.
    rewrite lookup_empty in H. discriminate.
  - rewrite cards_in_hands_insert_new by exact Hk. split.
    + intros H j hand Hj.
      destruct (decide (k = j)) as [->|Hne].
      * rewrite lookup_insert_eq in Hj. injection Hj as <-.
        destruct h; [reflexivity|simpl in H; lia].
      * rewrite lookup_insert_ne in Hj by exact Hne.
        apply (proj1 IH ltac:(lia) j hand Hj).
    + intros H.
      rewrite (H k h (lookup_insert_eq _ _ _)). simpl.
      apply IH. intros j hand Hj. apply (H j hand).
      rewrite lookup_insert_ne; [exact Hj|]. congruence.
Qed.

(** The dealing loop, without any hypothesis on the names. *)
Lemma deal_hands_frame ps n :
  forall state cards state' cards',
    SkullKingGame.deal_hands ps n state cards = (Ok state', cards') ->
    GameState.tricks state' = GameState.tricks state /\
    GameState.current_trick state' = GameState.current_trick state /\
    GameState.round_num state' = GameState.round_num state /\
    ((forall k v, GameState.tricks_won state !! k = Some v -> v = 0) ->
     forall k v, GameState.tricks_won state' !! k = Some v -> v = 0).
Proof.
  induction ps as [|p ps IH]; intros state cards state' cards' Hrun.
  - simpl in Hrun. injection Hrun as <- <-. auto.
  - cbn [SkullKingGame.deal_hands] in Hrun. unfold bind, get, put in Hrun.
    destruct (deal cards n) as [[dealt remaining]|e]; [|discriminate Hrun].
    apply IH in Hrun. destruct Hrun as (Ht & Hc & Hr & Hz). simpl in *.
    repeat split; try assumption.
    intros Hall. apply Hz. intros k v Hk.
    destruct (decide (name p = k)) as [<-|Hne].
    + rewrite lookup_insert_eq in Hk. congruence.
    + rewrite lookup_insert_ne in Hk by exact Hne. apply (Hall k v Hk).
Qed.

Lemma deal_hands_count ps n :
  forall state cards state' cards',
    NoDup (map name ps) -> 0 <= n ->
    (forall p, In p ps -> GameState.hands state !! name p = None) ->
    SkullKingGame.deal_hands ps n state cards = (Ok state', cards') ->
    Z.of_nat (cards_in_hands (GameState.hands state'))
    = Z.of_nat (cards_in_hands (GameState.hands state))
      + n * Z.of_nat (length ps).
Proof.
  induction ps as [|p ps IH];
    intros state cards state' cards' Hnd Hn Hfresh Hrun.
  - simpl in Hrun. injection Hrun as <- <-. simpl. lia.
  - cbn [SkullKingGame.deal_hands] in Hrun. unfold bind, get, put in Hrun.
    destruct (deal cards n) as [[dealt remaining]|e] eqn:Hdeal;
      [|discriminate Hrun].
    simpl in Hnd. apply NoDup_cons in Hnd. destruct Hnd as [Hp Hnd].
    apply (IH _ _ _ _ Hnd Hn) in Hrun.
    + simpl in Hrun.
      rewrite cards_in_hands_insert_new in Hrun
        by (apply Hfresh; left; reflexivity).
      destruct (deal_ok_length cards n dealt remaining Hdeal) as [_ Hlen].
      destruct (Hlen Hn) as [Hd _]. rewrite length_cons. lia.
    + intros q Hq. simpl. rewrite lookup_insert_ne.
      * apply Hfresh. right. exact Hq.
      * intros E. apply Hp. rewrite E. apply list_elem_of_In, in_map, Hq.
Qed.

(** The loop of [collect_bids] changes the [bids] dict only. *)
Lemma collect_bids_loop_only_bids ps :
  forall local st r st',
    SkullKingGame.collect_bids_loop ps local st = (r, st') ->
    st' = GameState.set_bids st (GameState.bids st').
Proof.
  induction ps as [|q ps IH]; intros local st r st' Hrun.
  - injection Hrun as <- <-. destruct st. reflexivity.
  - simpl in Hrun. unfold bind, get, lift, getitem in Hrun.
    destruct (GameState.hands st !! name q) as [hand|].
    + destruct ((_ <? 0) || (_ <? _)).
      * injection Hrun as <- <-. destruct st. reflexivity.
      * unfold put in Hrun. apply IH in Hrun. rewrite Hrun at 1.
        reflexivity.
    + injection Hrun as <- <-. destruct st. reflexivity.
Qed.

(** The winner that [determine_winner] records is the one it returns,
    and finding it again gives the same player. *)
Lemma determine_winner_recorded (trick : Trick.t) :
  Trick.cards_played trick <> [] ->
  let trick' := snd (Trick.determine_winner trick) in
  is_Some (Trick.winner trick') /\
  Trick.winner trick' = fst (Trick.determine_winner trick') /\
  Trick.winner trick' = fst (Trick.determine_winner trick).
Proof.
  intros Hne.
  destruct (Trick.cards_played trick) as [|first rest] eqn:Hcp;
    [congruence|].
  cbv zeta. unfold Trick.determine_winner. rewrite Hcp. simpl.
  rewrite ?Hcp. simpl. eauto.
Qed.

Lemma played_sum (tricks : list Trick.t) :
  forall a,
    fold_left (fun acc trick =>
                 acc + Z.of_nat (length (Trick.cards_played trick))) tricks a
    = a + Z.of_nat (cards_in_tricks tricks).
Proof.
  induction tricks as [|t tricks IH]; intros a; simpl; [lia|].
  rewrite IH. unfold cards_in_tricks. simpl. lia.
Qed.

Lemma round_inv_start shuffle n g0 st g :
  (forall l, Permutation l (shuffle l)) ->
  SkullKingGame.start_round shuffle n g0 = (Ok st, g) ->
  round_inv g0 n g.
Proof.
  intros Hperm Hrun. unfold SkullKingGame.start_round in Hrun.
  simpl in Hrun.
  destruct (SkullKingGame.deal_hands _ _ _ _) as [[state'|e] cards'] eqn:Hdeal;
    [|discriminate Hrun].
  injection Hrun as <- <-.
  pose proof (deal_hands_frame _ _ _ _ _ _ Hdeal) as (Ht & Hc & Hr & Hz).
  simpl in Ht, Hc, Hr, Hz.
  split; [reflexivity|]. exists state'. simpl.
  split; [reflexivity|]. split; [exact Hr|]. rewrite Ht.
  split; [constructor|]. split.
  - simpl. apply tricks_won_total_zero. apply Hz.
    intros k v H. rewrite lookup_empty in H. discriminate.
  - intros Hnd Hn.
    apply (deal_hands_count _ _ _ _ _ _ Hnd Hn) in Hdeal;
      [|intros; apply lookup_empty].
    simpl in Hdeal. unfold cards_in_round. rewrite Ht, Hc. simpl.
    unfold cards_in_hands at 2 in Hdeal. rewrite map_fold_empty in Hdeal.
    lia.
Qed.

Lemma round_inv_play g0 n player card r g g' :
  round_inv g0 n g ->
  SkullKingGame.play_card player card g = (r, g') ->
  round_inv g0 n g'.
Proof.
  intros Hinv Hrun. destruct r as [complete|e].
  2: { rewrite (play_card_raise_unchanged _ _ _ _ _ Hrun). exact Hinv. }
  pose proof (play_card_ok_total _ _ _ _ _ Hrun) as Htotal.
  apply play_card_ok_inv in Hrun.
  destruct Hrun as (st & trick & legal & hand & hand' & Hst & Hct & _ & _
                    & Hhand & Hrm & Hcase).
  destruct Hinv as (Hpl & st0 & Hst0 & Hrn & Hfull & Hwon & Hcards).
  assert (st0 = st) by congruence. subst st0.
  cbv zeta in Hcase.
  set (st1 := GameState.set_hands st
                (<[name player := hand']> (GameState.hands st))) in *.
  set (trick1 := Trick.play_card trick player card) in *.
  destruct Hcase as [(Hlen & _ & ->)|(Hlen & _ & ->)].
  - split; [exact Hpl|].
    exists (SkullKingGame.complete_trick st1 trick1).
    split; [reflexivity|].
    assert (Hne : Trick.cards_played trick1 <> []).
    { subst trick1. simpl. destruct (Trick.cards_played trick); discriminate. }
    pose proof (determine_winner_recorded trick1 Hne) as (Hw1 & Hw2 & Hw3).
    pose proof (determine_winner_cards_played trick1) as Hcp.
    cbv zeta in Hw1, Hw2, Hw3.
    assert (Hround : Z.of_nat (cards_in_round
                                 (SkullKingGame.complete_trick st1 trick1))
                     = Z.of_nat (cards_in_round st)).
    { unfold total_cards in Htotal. simpl in Htotal. rewrite Hst in Htotal.
      lia. }
    rewrite Hround. clear Hround Htotal.
    rewrite <- Hcp, Hpl in Hlen.
    unfold SkullKingGame.complete_trick.
    destruct (Trick.determine_winner trick1) as [[w|] trick2];
      simpl in Hw1, Hw2, Hw3, Hcp, Hlen |- *.
    + split; [exact Hrn|]. split.
      * apply Forall_app. split; [exact Hfull|].
        constructor; [|constructor]. auto.
      * split; [|exact Hcards].
        rewrite tricks_won_total_incr, length_app, Hwon. simpl. lia.
    + destruct Hw1 as [x Hx]. congruence.
  - split; [exact Hpl|].
    exists (GameState.set_current_trick st1 (Some trick1)).
    split; [reflexivity|]. simpl.
    split; [exact Hrn|]. split; [exact Hfull|]. split; [exact Hwon|].
    intros Hnd Hn. rewrite <- (Hcards Hnd Hn).
    unfold total_cards in Htotal. simpl in Htotal. rewrite Hst in Htotal.
    lia.
Qed.

(** Every state of a round satisfies the invariant. *)
Lemma round_reachable_inv shuffle g0 n g :
  (forall l, Permutation l (shuffle l)) ->
  round_reachable shuffle g0 n g ->
  round_inv g0 n g.
Proof.
  intros Hperm Hreach.
  induction Hreach as [st g Hstart
                      |r g g' _ IH Hbids
                      |trick g g' _ IH Hempty Htrick
                      |player card r' g g' _ IH Hplay].
  - exact (round_inv_start shuffle n g0 st g Hperm Hstart).
  - destruct IH as (Hpl & st & Hst & Hrn & Hfull & Hwon & Hcards).
    unfold SkullKingGame.collect_bids, SkullKingGame.on_state in Hbids.
    rewrite Hst in Hbids.
    destruct (SkullKingGame.collect_bids_loop _ _ st) as [r0 st'] eqn:Hloop.
    injection Hbids as <- <-.
    apply collect_bids_loop_only_bids in Hloop.
    split; [exact Hpl|]. exists st'. split; [reflexivity|].
    rewrite Hloop. simpl. auto.
  - destruct IH as (Hpl & st & Hst & Hrn & Hfull & Hwon & Hcards).
    unfold SkullKingGame.start_trick, SkullKingGame.on_state in Htrick.
    rewrite Hst in Htrick. simpl in Htrick. injection Htrick as <- <-.
    split; [exact Hpl|]. eexists. split; [reflexivity|]. simpl.
    split; [exact Hrn|]. split; [exact Hfull|]. split; [exact Hwon|].
    intros Hnd Hn. rewrite <- (Hcards Hnd Hn).
    unfold cards_in_round. simpl. rewrite (Hempty st Hst). lia.
  - exact (round_inv_play g0 n player card r' g g' IH Hplay).
Qed.

(** The example round: the state in which Ann has led is a state of
    round 2 of the game of two. *)
Lemma round_two_led_reachable :
  round_reachable (fun cards => cards) game_of_two 2 round_two_led.
Proof.
  apply (reach_play _ _ _ (bot "Ann" 1) (Number RED 1) (Ok false)
           round_two_trick).
  - apply (reach_trick _ _ _ (Trick.init 2 1 None) round_two_started).
    + unfold round_two_started.
      destruct (SkullKingGame.start_round _ 2 game_of_two) as [[st|e] g]
        eqn:Hstart; [|vm_compute in Hstart; discriminate Hstart].
      apply (reach_start _ _ _ st g). exact Hstart.
    + intros st Hst. vm_compute in Hst. injection Hst as <-.
      vm_compute. reflexivity.
    + vm_compute. reflexivity.
  - vm_compute. reflexivity.
Qed.

(** The state in which Bob has followed, and the first trick is
    complete, is a state of that round too. *)
Lemma round_two_done_reachable :
  round_reachable (fun cards => cards) game_of_two 2 round_two_done.
Proof.
  destruct (SkullKingGame.play_card (bot "Bob" 1) (Number RED 3) round_two_led)
    as [r g'] eqn:Hrun.
  unfold round_two_done. rewrite Hrun.
  exact (reach_play _ _ _ (bot "Bob" 1) (Number RED 3) r round_two_led g'
           round_two_led_reachable Hrun).
Qed.

(** X17: In every state of a round there is a round state of that round
    number, and each completed trick holds exactly as many plays as the
    player list has entries (not necessarily one of each player:
    [play_card] does not ask whose turn it is) and carries a winner, the
    player that [determine_winner] finds for it (so that the bonus pass,
    which asks again, finds the same winner). *)
Theorem completed_tricks_full (shuffle : list Card -> list Card)
    (g0 : SkullKingGame.t) (round_num : Z) (g : SkullKingGame.t) :
  (forall l, Permutation l (shuffle l)) ->
  round_reachable shuffle g0 round_num g ->
  SkullKingGame.players g = SkullKingGame.players g0 /\
  exists st,
    SkullKingGame.state g = Some st /\
    GameState.round_num st = round_num /\
    Forall (fun trick =>
              length (Trick.cards_played trick)
              = length (SkullKingGame.players g) /\
              is_Some (Trick.winner trick) /\
              Trick.winner trick = fst (Trick.determine_winner trick))
           (GameState.tricks st).
Proof.
  intros Hperm Hreach.
  destruct (round_reachable_inv shuffle g0 round_num g Hperm Hreach)
    as (Hpl & st & Hst & Hrn & Hfull & _).
  split; [exact Hpl|]. exists st. rewrite Hpl. auto.
Qed.

Lemma completed_tricks_full_witness :
  exists st trick,
    SkullKingGame.state round_two_done = Some st /\
    GameState.round_num st = 2 /\
    GameState.tricks st = [trick] /\
    length (Trick.cards_played trick) = 2%nat /\
    is_Some (Trick.winner trick) /\
    Trick.winner trick = fst (Trick.determine_winner trick).
Proof.
  destruct (completed_tricks_full (fun cards => cards) game_of_two 2
              round_two_done (fun l => Permutation_refl l)
              round_two_done_reachable)
    as (Hpl & st & Hst & Hrn & Hall).
  assert (Hlen : (fun st' => length (GameState.tricks st'))
                   <$> SkullKingGame.state round_two_done = Some 1%nat)
    by (vm_compute; reflexivity).
  rewrite Hst in Hlen. simpl in Hlen. injection Hlen as Hlen.
  destruct (GameState.tricks st) as [|trick [|trick' rest]] eqn:Htricks;
    try discriminate Hlen.
  apply Forall_cons in Hall. destruct Hall as [(Hfull & Hsome & Hwin) _].
  rewrite Hpl in Hfull. simpl in Hfull.
  exists st, trick. auto 10.
Defined.

(** X18: In every state of a round the tricks won by the players add up to
    the number of completed tricks. *)
Theorem tricks_won_count (shuffle : list Card -> list Card)
    (g0 : SkullKingGame.t) (round_num : Z) (g : SkullKingGame.t)
    (st : GameState.t) :
  (forall l, Permutation l (shuffle l)) ->
  round_reachable shuffle g0 round_num g ->
  SkullKingGame.state g = Some st ->
  tricks_won_total (GameState.tricks_won st)
  = Z.of_nat (length (GameState.tricks st)).
Proof.
  intros Hperm Hreach Hst.
  destruct (round_reachable_inv shuffle g0 round_num g Hperm Hreach)
    as (_ & st0 & Hst0 & _ & _ & Hwon & _).
  assert (st0 = st) by congruence. subst st0. exact Hwon.
Qed.

Lemma tricks_won_count_witness :
  exists st,
    SkullKingGame.state round_two_done = Some st /\
    length (GameState.tricks st) = 1%nat /\
    GameState.tricks_won st !! "Bob" = Some 1 /\
    tricks_won_total (GameState.tricks_won st) = 1.
Proof.
  destruct (SkullKingGame.state round_two_done) as [st|] eqn:Hst;
    [|vm_compute in Hst; discriminate Hst].
  assert (Hlen : (fun st' => (length (GameState.tricks st'),
                              GameState.tricks_won st' !! "Bob"))
                   <$> SkullKingGame.state round_two_done
                 = Some (1%nat, Some 1))
    by (vm_compute; reflexivity).
  rewrite Hst in Hlen. simpl in Hlen. injection Hlen as Hlen Hbob.
  exists st. split; [reflexivity|]. split; [exact Hlen|].
  split; [exact Hbob|].
  rewrite (tricks_won_count (fun cards => cards) game_of_two 2 round_two_done
             st (fun l => Permutation_refl l) round_two_done_reachable Hst).
  rewrite Hlen. reflexivity.
Defined.

(** X19: With distinct player names and a round number of 0 or more,
    [is_round_complete] answers [True] in a state of the round exactly
    when every hand is empty. *)
Theorem round_complete_iff_hands_empty (shuffle : list Card -> list Card)
    (g0 : SkullKingGame.t) (round_num : Z) (g : SkullKingGame.t)
    (st : GameState.t) :
  NoDup (map name (SkullKingGame.players g0)) ->
  (forall l, Permutation l (shuffle l)) ->
  0 <= round_num ->
  round_reachable shuffle g0 round_num g ->
  SkullKingGame.state g = Some st ->
  (SkullKingGame.is_round_complete g = true <->
   forall k hand, GameState.hands st !! k = Some hand -> hand = []).
Proof.
  intros Hnd Hperm Hn Hreach Hst.
  destruct (round_reachable_inv shuffle g0 round_num g Hperm Hreach)
    as (Hpl & st0 & Hst0 & Hrn & _ & _ & Hcards).
  assert (st0 = st) by congruence. subst st0.
  specialize (Hcards Hnd Hn). unfold cards_in_round in Hcards.
  rewrite <- cards_in_hands_zero.
  unfold SkullKingGame.is_round_complete. rewrite Hst, Hpl, Hrn.
  rewrite played_sum. rewrite bool_decide_eq_true.
  unfold cards_in_current in Hcards.
  destruct (GameState.current_trick st) as [trick|]; lia.
Qed.

Lemma round_complete_iff_hands_empty_witness :
  SkullKingGame.is_round_complete round_two_led = false.
Proof.
  destruct (SkullKingGame.state round_two_led) as [st|] eqn:Hst;
    [|vm_compute in Hst; discriminate Hst].
  assert (Hnd : NoDup (map name (SkullKingGame.players game_of_two))).
  { apply (bool_decide_unpack _). vm_compute. exact I. }
  pose proof (round_complete_iff_hands_empty (fun cards => cards) game_of_two 2
                round_two_led st Hnd (fun l => Permutation_refl l)
                ltac:(lia) round_two_led_reachable Hst) as Hiff.
  destruct (SkullKingGame.is_round_complete round_two_led);
    [|reflexivity].
  exfalso.
  pose proof (proj1 Hiff eq_refl) as Hempty.
  vm_compute in Hst. injection Hst as <-.
  specialize (Hempty "Ann" [Number RED 2] eq_refl). discriminate Hempty.
Defined.

(** ** Bidding, continued *)

(** What the loop of [collect_bids] has recorded when it ends normally. *)
Lemma collect_bids_loop_recorded ps :
  forall local st bids st',
    SkullKingGame.collect_bids_loop ps local st = (Ok bids, st') ->
    (forall k, In k (map name ps) ->
       exists b, bids !! k = Some b /\
                 GameState.bids st' !! k = Some b /\
                 0 <= b <= GameState.round_num st) /\
    (forall k, ~ In k (map name ps) ->
       bids !! k = local !! k /\
       GameState.bids st' !! k = GameState.bids st !! k).
Proof.
  induction ps as [|q ps IH]; intros local st bids st' Hrun.
  - injection Hrun as <- <-. split; [intros k []|auto].
  - simpl in Hrun. unfold bind, get, lift, getitem in Hrun.
    destruct (GameState.hands st !! name q) as [hand|]; [|discriminate Hrun].
    set (b := make_bid q hand (GameState.round_num st) (GameState.bids st))
      in *.
    destruct ((b <? 0) || (GameState.round_num st <? b)) eqn:Hout;
      [discriminate Hrun|].
    apply orb_false_iff in Hout. destruct Hout as [Hlo Hhi].
    apply Z.ltb_ge in Hlo, Hhi.
    unfold put in Hrun. apply IH in Hrun. simpl in Hrun.
    destruct Hrun as [Hin Hnin]. split.
    + intros k Hk.
      destruct (in_dec String.string_dec k (map name ps)) as [Hps|Hps];
        [exact (Hin k Hps)|].
      destruct Hk as [<-|Hk]; [|contradiction].
      destruct (Hnin (name q) Hps) as [-> ->].
      rewrite !lookup_insert_eq. exists b. auto.
    + intros k Hk. simpl in Hk.
      destruct (Hnin k (fun H => Hk (or_intror H))) as [-> ->].
      rewrite !lookup_insert_ne by (intros E; apply Hk; left; exact E). auto.
Qed.

(** X20: When [collect_bids] returns, every player has a bid: the dict
    returned and the bids map of the round state hold the same bid for
    the player, a number from 0 to [round_num]; the dict returned has
    no other entry, the bids of other names in the round state are
    untouched, and nothing but the bids map has changed. *)
Theorem collect_bids_recorded (g : SkullKingGame.t) (bids : gmap string Z)
    (g' : SkullKingGame.t) :
  SkullKingGame.collect_bids g = (Ok bids, g') ->
  exists st st',
    SkullKingGame.state g = Some st /\
    g' = SkullKingGame.set_state g (Some st') /\
    st' = GameState.set_bids st (GameState.bids st') /\
    (forall p, In p (SkullKingGame.players g) ->
       exists b, bids !! name p = Some b /\
                 GameState.bids st' !! name p = Some b /\
                 0 <= b <= GameState.round_num st) /\
    (forall k, ~ In k (map name (SkullKingGame.players g)) ->
       bids !! k = None /\
       GameState.bids st' !! k = GameState.bids st !! k).
Proof.
  unfold SkullKingGame.collect_bids, SkullKingGame.on_state.
  destruct (SkullKingGame.state g) as [st|] eqn:Hst; [|discriminate].
  destruct (SkullKingGame.collect_bids_loop _ _ st) as [r st'] eqn:Hloop.
  intros [= -> <-]. exists st, st'.
  split; [reflexivity|]. split; [reflexivity|].
  split; [exact (collect_bids_loop_only_bids _ _ _ _ _ Hloop)|].
  apply collect_bids_loop_recorded in Hloop. destruct Hloop as [Hin Hnin].
  split.
  - intros p Hp. apply Hin. apply in_map. exact Hp.
  - intros k Hk. destruct (Hnin k Hk) as [-> ->]. rewrite lookup_empty. auto.
Qed.

Lemma collect_bids_recorded_witness :
  exists bids b,
    fst (SkullKingGame.collect_bids (game_with scored_round_hands)) = Ok bids /\
    bids !! "Ann" = Some b /\ 0 <= b <= 5.
Proof.
  destruct (SkullKingGame.collect_bids (game_with scored_round_hands))
    as [[bids|e] g'] eqn:Hrun; [|vm_compute in Hrun; discriminate Hrun].
  destruct (collect_bids_recorded _ _ _ Hrun)
    as (st & st' & Hst & _ & _ & Hin & _).
  destruct (Hin (bot "Ann" 3)) as (b & Hb & _ & Hrange);
    [left; reflexivity|].
  exists bids, b. split; [reflexivity|]. split; [exact Hb|].
  vm_compute in Hst. injection Hst as <-. exact Hrange.
Defined.

Lemma bids_in_range_contract (ps : list Player) :
  forall st,
    (forall q hand previous,
       In q ps ->
       0 <= make_bid q hand (GameState.round_num st) previous
         <= GameState.round_num st) ->
    bids_in_range st ps = true.
Proof.
  induction ps as [|q ps IH]; intros st Hc; [reflexivity|].
  simpl. rewrite IH.
  - unfold bid_of.
    destruct (Hc q (default [] (GameState.hands st !! name q))
                (GameState.bids st) (or_introl eq_refl)) as [Hlo Hhi].
    rewrite andb_true_r. apply andb_true_iff.
    split; apply Z.leb_le; assumption.
  - intros p hand previous Hp. apply Hc. right. exact Hp.
Qed.

(** X21: If every player holds a hand and keeps the contract of [make_bid]
    (a bid from 0 to [round_num], whatever the hand and the earlier
    bids), [collect_bids] does not raise. *)
Theorem collect_bids_contract (g : SkullKingGame.t) (st : GameState.t) :
  SkullKingGame.state g = Some st ->
  (forall q, In q (SkullKingGame.players g) ->
             is_Some (GameState.hands st !! name q)) ->
  (forall q hand previous,
     In q (SkullKingGame.players g) ->
     0 <= make_bid q hand (GameState.round_num st) previous
       <= GameState.round_num st) ->
  exists bids g', SkullKingGame.collect_bids g = (Ok bids, g').
Proof.
  intros Hst Hh Hc.
  destruct (collect_bids_ok g st Hst Hh) as [bids Hrun].
  - apply bids_in_range_contract. exact Hc.
  - eauto.
Qed.

Lemma collect_bids_contract_witness :
  exists bids g',
    SkullKingGame.collect_bids (game_with scored_round_hands) = (Ok bids, g').
Proof.
  apply (collect_bids_contract (game_with scored_round_hands)
           scored_round_hands).
  - reflexivity.
  - intros q [<-|[<-|[]]]; eexists; reflexivity.
  - intros q hand previous [<-|[<-|[]]]; simpl; lia.
Defined.

(** ** example_bots.py *)

Lemma count_if_nonneg test hand : 0 <= count_if test hand.
Proof. unfold count_if. lia. Qed.

(** X22: In every round from 1 on, the bids of ConservativeBot, AggressiveBot
    and SmartBot keep the contract that [collect_bids] checks:
    ConservativeBot bids 0 or 1, AggressiveBot from 1 to [round_num],
    SmartBot from 0 to [round_num], and at most 2 up to round 3.  In a
    round 0 AggressiveBot would still bid 1, which is out of range. *)
Theorem bots_bid_in_range (hand : list Card) (round_num : Z)
    (previous_bids : gmap string Z) :
  1 <= round_num ->
  0 <= ConservativeBot_make_bid hand round_num previous_bids <= 1 /\
  1 <= AggressiveBot_make_bid hand round_num previous_bids <= round_num /\
  0 <= SmartBot_make_bid hand round_num previous_bids <= round_num /\
  (round_num <= 3 -> SmartBot_make_bid hand round_num previous_bids <= 2) /\
  AggressiveBot_make_bid hand 0 previous_bids = 1.
Proof.
  intros Hr.
  unfold ConservativeBot_make_bid, AggressiveBot_make_bid, SmartBot_make_bid.
  repeat match goal with
         | |- context [count_if ?t hand] =>
             let H := fresh "Hc" in
             pose proof (count_if_nonneg t hand) as H;
             generalize dependent (count_if t hand); intros
         end.
  repeat split;
    repeat match goal with
           | |- context [?a <=? ?b] => destruct (Z.leb_spec a b)
           end;
    try lia.
  all: try (match goal with
            | |- context [?x / 2] =>
                pose proof (Z.div_pos x 2 ltac:(lia) ltac:(lia))
            end; lia).
Qed.

Lemma bots_bid_in_range_witness :
  0 <= ConservativeBot_make_bid [Escape; Pirate] 2 ∅ <= 1 /\
  1 <= AggressiveBot_make_bid [Escape; Pirate] 2 ∅ <= 2 /\
  0 <= SmartBot_make_bid [Escape; Pirate] 2 ∅ <= 2.
Proof.
  destruct (bots_bid_in_range [Escape; Pirate] 2 ∅ ltac:(lia))
    as (H1 & H2 & H3 & _).
  auto.
Defined.

(** ** Scoring, continued *)

(** X23: For a bid of 0 or more in a round from 1 on, a bid that is met
    scores at least 10 and a bid that is missed costs at least 10. *)
Theorem round_score_sign (bid tricks_won round_num : Z) :
  0 <= bid -> 1 <= round_num ->
  (bid = tricks_won ->
   10 <= SkullKingGame.round_score bid tricks_won round_num) /\
  (bid <> tricks_won ->
   SkullKingGame.round_score bid tricks_won round_num <= -10).
Proof.
  intros Hb Hr. unfold SkullKingGame.round_score.
  split; intros H;
    repeat match goal with
           | |- context [?x =? ?y] => destruct (Z.eqb_spec x y)
           end; lia.
Qed.

Lemma round_score_sign_witness :
  SkullKingGame.round_score 2 5 7 <= -10.
Proof.
  apply (proj2 (round_score_sign 2 5 7 ltac:(lia) ltac:(lia))). lia.
Defined.

(** The loop of [calculate_scores] changes the scores only, whatever
    its outcome. *)
Lemma calculate_scores_loop_frame ps :
  forall rs g st r g',
    SkullKingGame.state g = Some st ->
    SkullKingGame.calculate_scores_loop ps rs g = (r, g') ->
    SkullKingGame.players g' = SkullKingGame.players g /\
    exists st',
      SkullKingGame.state g' = Some st' /\
      GameState.bids st' = GameState.bids st /\
      GameState.tricks_won st' = GameState.tricks_won st /\
      GameState.round_num st' = GameState.round_num st /\
      GameState.tricks st' = GameState.tricks st.
Proof.
  induction ps as [|p ps IH]; intros rs g st r g' Hst Hrun.
  - injection Hrun as <- <-. eauto 10.
  - simpl in Hrun. unfold bind, get, lift, getitem, raise in Hrun.
    rewrite Hst in Hrun.
    destruct (GameState.bids st !! name p) as [b|];
      [|injection Hrun as <- <-; eauto 10].
    destruct (GameState.tricks_won st !! name p) as [t|];
      [|injection Hrun as <- <-; eauto 10].
    destruct (GameState.scores st !! name p) as [old|];
      [|injection Hrun as <- <-; eauto 10].
    unfold put in Hrun. eapply IH in Hrun; [|reflexivity].
    exact Hrun.
Qed.

Lemma calculate_scores_loop_app l1 :
  forall l2 rs g,
    SkullKingGame.calculate_scores_loop (l1 ++ l2) rs g
    = match SkullKingGame.calculate_scores_loop l1 rs g with
      | (Ok rs', g') => SkullKingGame.calculate_scores_loop l2 rs' g'
      | (Raise e, g') => (Raise e, g')
      end.
Proof.
  induction l1 as [|p l1 IH]; intros l2 rs g; [reflexivity|].
  cbn [app SkullKingGame.calculate_scores_loop].
  unfold bind, get, lift, getitem, raise, put.
  destruct (SkullKingGame.state g) as [st|]; [|reflexivity].
  destruct (GameState.bids st !! name p); [|reflexivity].
  destruct (GameState.tricks_won st !! name p); [|reflexivity].
  destruct (GameState.scores st !! name p); [|reflexivity].
  apply IH.
Qed.

(** X24: [calculate_scores] is not atomic.  If the players before [p] in the
    player list have a bid, a trick count and a score, and [p] has no
    bid, the call raises KeyError for [p], and by then the players
    before [p] have had their round score added to their score (names
    being distinct); bids and trick counts are as they were. *)
Theorem calculate_scores_missing_bid (g : SkullKingGame.t) (st : GameState.t)
    (before after : list Player) (p : Player) :
  SkullKingGame.state g = Some st ->
  SkullKingGame.players g = before ++ p :: after ->
  NoDup (map name before) ->
  (forall q, In q before ->
     is_Some (GameState.bids st !! name q) /\
     is_Some (GameState.tricks_won st !! name q) /\
     is_Some (GameState.scores st !! name q)) ->
  GameState.bids st !! name p = None ->
  exists g' st',
    SkullKingGame.calculate_scores g = (Raise (KeyError (name p)), g') /\
    SkullKingGame.state g' = Some st' /\
    GameState.bids st' = GameState.bids st /\
    GameState.tricks_won st' = GameState.tricks_won st /\
    forall q b t old, In q before ->
      GameState.bids st !! name q = Some b ->
      GameState.tricks_won st !! name q = Some t ->
      GameState.scores st !! name q = Some old ->
      GameState.scores st' !! name q
      = Some (old + SkullKingGame.round_score b t (GameState.round_num st)).
Proof.
  intros Hst Hpl Hnd Hall Hp.
  unfold SkullKingGame.calculate_scores. rewrite Hst, Hpl.
  rewrite calculate_scores_loop_app.
  destruct (calculate_scores_loop_spec before ∅ g st Hst Hall)
    as (rs' & g1 & st1 & Hrun & Hst1 & _ & _ & Hscores).
  rewrite Hrun.
  destruct (calculate_scores_loop_frame before ∅ g st _ _ Hst Hrun)
    as (_ & st1' & Hst1' & Hb & Ht & _).
  assert (st1' = st1) by congruence. subst st1'.
  exists g1, st1.
  split.
  - simpl. unfold bind, get, lift, getitem, raise. rewrite Hst1, Hb, Hp.
    reflexivity.
  - split; [exact Hst1|]. split; [exact Hb|]. split; [exact Ht|].
    intros q b t old Hq Hbq Htq Hoq.
    apply (Hscores Hnd q b t old Hq Hbq Htq Hoq).
Qed.

Lemma calculate_scores_missing_bid_witness :
  exists g' st',
    SkullKingGame.calculate_scores (game_with half_bid_round)
    = (Raise (KeyError "Bob"), g') /\
    SkullKingGame.state g' = Some st' /\
    GameState.scores st' !! "Ann" = Some 70.
Proof.
  destruct (calculate_scores_missing_bid (game_with half_bid_round)
              half_bid_round [bot "Ann" 3] [] (bot "Bob" 0))
    as (g' & st' & Hrun & Hst' & _ & _ & Hscore).
  - reflexivity.
  - reflexivity.
  - apply (bool_decide_unpack _). vm_compute. exact I.
  - intros q [<-|[]]; repeat split; eexists; reflexivity.
  - reflexivity.
  - exists g', st'. split; [exact Hrun|]. split; [exact Hst'|].
    apply (Hscore (bot "Ann" 3) 3 3 0); try reflexivity. left. reflexivity.
Defined.

(** What the loop of [calculate_scores] leaves for the players it has
    gone through: the same score in the round state and in the
    cumulative scores. *)
Lemma calculate_scores_loop_synced ps :
  forall rs g st rs' g',
    SkullKingGame.state g = Some st ->
    SkullKingGame.calculate_scores_loop ps rs g = (Ok rs', g') ->
    exists st',
      SkullKingGame.state g' = Some st' /\
      (forall k, In k (map name ps) ->
         exists v, GameState.scores st' !! k = Some v /\
                   SkullKingGame.cumulative_scores g' !! k = Some v) /\
      (forall k, ~ In k (map name ps) ->
         GameState.scores st' !! k = GameState.scores st !! k /\
         SkullKingGame.cumulative_scores g' !! k
         = SkullKingGame.cumulative_scores g !! k).
Proof.
  induction ps as [|p ps IH]; intros rs g st rs' g' Hst Hrun.
  - injection Hrun as <- <-. exists st. split; [exact Hst|].
    split; [intros k []|auto].
  - simpl in Hrun. unfold bind, get, lift, getitem, raise in Hrun.
    rewrite Hst in Hrun.
    destruct (GameState.bids st !! name p) as [b|]; [|discriminate Hrun].
    destruct (GameState.tricks_won st !! name p) as [t|];
      [|discriminate Hrun].
    destruct (GameState.scores st !! name p) as [old|]; [|discriminate Hrun].
    unfold put in Hrun. eapply IH in Hrun; [|reflexivity].
    destruct Hrun as (st' & Hst' & Hin & Hnin). simpl in Hnin.
    exists st'. split; [exact Hst'|]. split.
    + intros k Hk.
      destruct (in_dec String.string_dec k (map name ps)) as [Hps|Hps];
        [exact (Hin k Hps)|].
      destruct Hk as [<-|Hk]; [|contradiction].
      destruct (Hnin (name p) Hps) as [-> ->].
      rewrite !lookup_insert_eq. eauto.
    + intros k Hk. simpl in Hk.
      destruct (Hnin k (fun H => Hk (or_intror H))) as [-> ->].
      rewrite !lookup_insert_ne by (intros E; apply Hk; left; exact E). auto.
Qed.

(** X25: After [calculate_scores] has returned, every player has a score,
    the same in the cumulative scores carried to the next round and in
    what [get_final_scores] reports. *)
Theorem final_scores_synced (g : SkullKingGame.t) (round_scores : gmap string Z)
    (g' : SkullKingGame.t) :
  SkullKingGame.calculate_scores g = (Ok round_scores, g') ->
  forall p, In p (SkullKingGame.players g) ->
    exists v,
      SkullKingGame.get_final_scores g' !! name p = Some v /\
      SkullKingGame.cumulative_scores g' !! name p = Some v.
Proof.
  unfold SkullKingGame.calculate_scores.
  destruct (SkullKingGame.state g) as [st|] eqn:Hst; [|discriminate].
  intros Hrun p Hp.
  destruct (calculate_scores_loop_synced _ _ _ _ _ _ Hst Hrun)
    as (st' & Hst' & Hin & _).
  unfold SkullKingGame.get_final_scores. rewrite Hst'.
  apply Hin. apply in_map. exact Hp.
Qed.

Lemma final_scores_synced_witness :
  exists v,
    SkullKingGame.get_final_scores
      (snd (SkullKingGame.calculate_scores (game_with scored_round)))
      !! "Bob" = Some v /\
    SkullKingGame.cumulative_scores
      (snd (SkullKingGame.calculate_scores (game_with scored_round)))
      !! "Bob" = Some v.
Proof.
  destruct (SkullKingGame.calculate_scores (game_with scored_round))
    as [[rs|e] g'] eqn:Hrun; [|vm_compute in Hrun; discriminate Hrun].
  apply (final_scores_synced (game_with scored_round) rs g' Hrun
           (bot "Bob" 0)).
  right. left. reflexivity.
Defined.

(** ** Bonuses, continued *)

Lemma bonus_loop_no_skull_king (tricks : list Trick.t) (bonuses : gmap string Z) :
  Forall (fun trick => SkullKingGame.skull_king_played trick = false) tricks ->
  SkullKingGame.bonus_loop tricks bonuses = (Ok bonuses, tricks).
Proof.
  induction 1 as [|trick tricks Hno _ IH]; [reflexivity|].
  simpl. unfold SkullKingGame.trick_bonus. rewrite Hno, IH. reflexivity.
Qed.

Lemma set_scores_same (st : GameState.t) :
  GameState.set_scores st (GameState.scores st) = st.
Proof. destruct st. reflexivity. Qed.

Lemma set_tricks_same (st : GameState.t) :
  GameState.set_tricks st (GameState.tricks st) = st.
Proof. destruct st. reflexivity. Qed.

Lemma apply_bonuses_zero bonuses ps :
  forall g st,
    SkullKingGame.state g = Some st ->
    (forall q, In q ps -> is_Some (GameState.scores st !! name q) /\
                          bonuses !! name q = Some 0) ->
    exists g',
      SkullKingGame.apply_bonuses ps bonuses g = (Ok tt, g') /\
      SkullKingGame.state g' = Some st /\
      SkullKingGame.players g' = SkullKingGame.players g.
Proof.
  induction ps as [|p ps IH]; intros g st Hst Hall.
  - exists g. auto.
  - destruct (Hall p (or_introl eq_refl)) as ([old Ho] & Hb).
    rewrite (apply_bonuses_cons p ps bonuses g st old 0 Hst Ho Hb).
    replace (old + 0) with old by lia.
    rewrite (insert_id _ _ _ Ho), set_scores_same.
    match goal with
    | |- context [SkullKingGame.apply_bonuses ps bonuses ?g1] =>
        destruct (IH g1 st eq_refl) as (g' & Hrun & Hst' & Hpl)
    end.
    + intros q Hq. apply Hall. right. exact Hq.
    + exists g'. auto.
Qed.

(** X26: When no SkullKing was played in the completed tricks,
    [check_special_bonuses] returns a bonus of 0 for every player and
    leaves the round state as it was. *)
Theorem no_skull_king_no_bonus (g : SkullKingGame.t) (st : GameState.t) :
  SkullKingGame.state g = Some st ->
  Forall (fun trick => SkullKingGame.skull_king_played trick = false)
         (GameState.tricks st) ->
  (forall q, In q (SkullKingGame.players g) ->
             is_Some (GameState.scores st !! name q)) ->
  exists bonuses g',
    SkullKingGame.check_special_bonuses g = (Ok bonuses, g') /\
    SkullKingGame.state g' = Some st /\
    forall p, In p (SkullKingGame.players g) -> bonuses !! name p = Some 0.
Proof.
  intros Hst Hno Hscores.
  unfold SkullKingGame.check_special_bonuses. rewrite Hst.
  rewrite (bonus_loop_no_skull_king _ _ Hno), set_tricks_same.
  assert (Hzero : forall p, In p (SkullKingGame.players g) ->
            dict_from_keys (SkullKingGame.players g) 0 !! name p = Some 0).
  { intros p Hp. rewrite dict_from_keys_lookup.
    rewrite decide_True; [reflexivity|]. apply list_elem_of_In, in_map, Hp. }
  destruct (apply_bonuses_zero (dict_from_keys (SkullKingGame.players g) 0)
              (SkullKingGame.players g)
              (SkullKingGame.set_state g (Some st)) st eq_refl)
    as (g' & Hrun & Hst' & _).
  { intros q Hq. split; [apply Hscores, Hq|apply Hzero, Hq]. }
  unfold bind.
  change (SkullKingGame.players g)
    with (SkullKingGame.players (SkullKingGame.set_state g (Some st))) at 2.
  simpl in Hrun |- *. rewrite Hrun. eauto.
Qed.

Lemma no_skull_king_no_bonus_witness :
  exists st bonuses g',
    SkullKingGame.state round_two_done = Some st /\
    length (GameState.tricks st) = 1%nat /\
    SkullKingGame.check_special_bonuses round_two_done = (Ok bonuses, g') /\
    SkullKingGame.state g' = Some st /\
    bonuses !! "Ann" = Some 0 /\
    bonuses !! "Bob" = Some 0.
Proof.
  destruct (SkullKingGame.state round_two_done) as [st|] eqn:Hst;
    [|vm_compute in Hst; discriminate Hst].
  assert (Hfacts : (fun st' =>
                      (length (GameState.tricks st'),
                       forallb (fun trick =>
                                  negb (SkullKingGame.skull_king_played trick))
                               (GameState.tricks st'),
                       bool_decide (is_Some (GameState.scores st' !! "Ann")),
                       bool_decide (is_Some (GameState.scores st' !! "Bob"))))
                   <$> SkullKingGame.state round_two_done
                 = Some (1%nat, true, true, true))
    by (vm_compute; reflexivity).
  rewrite Hst in Hfacts. simpl in Hfacts.
  injection Hfacts as Hlen Hno Hann Hbob.
  assert (Hpl : SkullKingGame.players round_two_done
                = [bot "Ann" 1; bot "Bob" 1]) by (vm_compute; reflexivity).
  destruct (no_skull_king_no_bonus round_two_done st Hst)
    as (bonuses & g' & Hrun & Hst' & Hb).
  - apply Forall_forall. intros trick Htrick.
    apply list_elem_of_In in Htrick.
    rewrite forallb_forall in Hno. specialize (Hno trick Htrick).
    destruct (SkullKingGame.skull_king_played trick);
      [discriminate Hno|reflexivity].
  - intros q Hq. rewrite Hpl in Hq.
    destruct Hq as [<-|[<-|[]]]; simpl.
    + apply bool_decide_eq_true in Hann. exact Hann.
    + apply bool_decide_eq_true in Hbob. exact Hbob.
  - exists st, bonuses, g'. split; [reflexivity|]. split; [exact Hlen|].
    split; [exact Hrun|]. split; [exact Hst'|]. rewrite Hpl in Hb. split.
    + apply (Hb (bot "Ann" 1)). left. reflexivity.
    + apply (Hb (bot "Bob" 1)). right. left. reflexivity.
Defined.

(** ** Tricks, continued *)

(** With no trump, a card that beats a Number card of the led suit or a
    card of the special hierarchy is itself one or the other. *)
Lemma beats_keeps_on_suit (a b : Card) (led : option Suit) :
  beats a b led None = true ->
  (card_type b = NUMBER /\ suit b = led) \/
  is_Some (special_hierarchy (card_type b)) ->
  (card_type a = NUMBER /\ suit a = led) \/
  is_Some (special_hierarchy (card_type a)).
Proof.
  unfold beats, beats_by_suit.
  destruct (card_type a) eqn:Ha, (card_type b) eqn:Hb; simpl;
    try discriminate;
    try (intros _ _; right; eexists; reflexivity);
    try (intros _ [[? _]|[? ?]]; discriminate).
  repeat case_bool_decide; try discriminate; intros _ [[_ Hsb]|[? ?]];
    try discriminate; left; split; congruence.
Qed.

Lemma challenge_on_suit led (plays : list (Player * Card)) :
  forall cur,
    (card_type (snd cur) = NUMBER /\ suit (snd cur) = led) \/
    is_Some (special_hierarchy (card_type (snd cur))) ->
    let w := fold_left (Trick.challenge led None) plays cur in
    (card_type (snd w) = NUMBER /\ suit (snd w) = led) \/
    is_Some (special_hierarchy (card_type (snd w))).
Proof.
  induction plays as [|q plays IH]; intros cur Hcur; simpl; [exact Hcur|].
  apply IH. unfold Trick.challenge.
  destruct (beats (snd q) (snd cur) led None) eqn:Hb; [|exact Hcur].
  exact (beats_keeps_on_suit _ _ _ Hb Hcur).
Qed.

(** X8: With no trump, a trick led by a Number card is won by a Number card
    of the led suit or by a SkullKing, Mermaid or Pirate: a Number card
    of another suit, a Tigress, a Jolly-Roger card or an Escape never
    wins it. *)
Theorem off_suit_never_wins r n (first : Player * Card)
    (rest : list (Player * Card)) :
  card_type (snd first) = NUMBER ->
  exists w c,
    fst (Trick.determine_winner (Trick.of_plays r n None (first :: rest)))
    = Some w /\
    In (w, c) (first :: rest) /\
    ((card_type c = NUMBER /\ suit c = suit (snd first)) \/
     card_type c = SKULL_KING \/ card_type c = MERMAID \/
     card_type c = PIRATE).
Proof.
  intros Hnum.
  rewrite (determine_winner_cons _ first rest)
    by apply of_plays_cards_played.
  rewrite of_plays_led_suit, of_plays_trump_suit.
  unfold led_by. rewrite bool_decide_eq_true_2 by exact Hnum.
  pose proof (challenge_in (suit (snd first)) None rest first) as Hin.
  pose proof (challenge_on_suit (suit (snd first)) rest first
                (or_introl (conj Hnum eq_refl))) as Hon.
  cbv zeta in Hon.
  destruct (fold_left _ rest first) as [w c]. simpl in Hon |- *.
  exists w, c. split; [reflexivity|]. split; [exact Hin|].
  destruct Hon as [Hon|[x Hx]]; [left; exact Hon|right].
  destruct (card_type c); try discriminate; auto.
Qed.

Lemma off_suit_never_wins_witness :
  exists w c,
    fst (Trick.determine_winner
           (Trick.of_plays 3 1 None
              [(bot "Ann" 0, Number RED 2); (bot "Bob" 0, Number BLUE 13);
               (bot "Cid" 0, Tigress)]))
    = Some w /\
    In (w, c) [(bot "Ann" 0, Number RED 2); (bot "Bob" 0, Number BLUE 13);
               (bot "Cid" 0, Tigress)] /\
    ((card_type c = NUMBER /\ suit c = Some RED) \/
     card_type c = SKULL_KING \/ card_type c = MERMAID \/
     card_type c = PIRATE).
Proof.
  apply (off_suit_never_wins 3 1 (bot "Ann" 0, Number RED 2)
           [(bot "Bob" 0, Number BLUE 13); (bot "Cid" 0, Tigress)]).
  reflexivity.
Defined.

(** X13: [start_trick] raises when there is no round, and otherwise puts a
    new, empty trick, numbered one more than the completed tricks, in
    place of the current trick.  It does not look at the trick it
    replaces: the cards played in an unfinished trick leave the game. *)
Theorem start_trick_replaces (g : SkullKingGame.t) :
  (SkullKingGame.state g = None ->
   SkullKingGame.start_trick g = (Raise NoActiveRound, g)) /\
  (forall st,
     SkullKingGame.state g = Some st ->
     exists trick g',
       SkullKingGame.start_trick g = (Ok trick, g') /\
       trick = Trick.init (GameState.round_num st)
                 (Z.of_nat (length (GameState.tricks st)) + 1)
                 (GameState.trump_suit st) /\
       SkullKingGame.state g'
       = Some (GameState.set_current_trick st (Some trick)) /\
       (total_cards g' + cards_in_current (GameState.current_trick st)
        = total_cards g)%nat).
Proof.
  unfold SkullKingGame.start_trick, SkullKingGame.on_state. split.
  - intros ->. reflexivity.
  - intros st Hst. rewrite Hst. simpl.
    eexists _, _. split; [reflexivity|]. split; [reflexivity|].
    split; [reflexivity|].
    unfold total_cards, cards_in_round. simpl. rewrite Hst. lia.
Qed.

Lemma start_trick_replaces_witness :
  exists trick g',
    SkullKingGame.start_trick round_two_led = (Ok trick, g') /\
    (total_cards g' + 1 = total_cards round_two_led)%nat.
Proof.
  destruct (SkullKingGame.state round_two_led) as [st|] eqn:Hst;
    [|vm_compute in Hst; discriminate Hst].
  destruct (proj2 (start_trick_replaces round_two_led) st Hst)
    as (trick & g' & Hrun & _ & _ & Hlost).
  exists trick, g'. split; [exact Hrun|].
  vm_compute in Hst. injection Hst as <-. exact Hlost.
Defined.
